(** * DenoChart: the bar-chart layout engine of [src/graph/GraphInstance.ts]

    A shallow embedding of the [Graph] class and the properties of its
    layout and label-formatting logic.

    JavaScript numbers are IEEE-754 binary64 values; they are modelled by
    Rocq's primitive [float], so that every comparison, truthiness test
    and arithmetic step of the source evaluates here exactly as it does in
    the language.  The ECMAScript built-ins the source calls
    ([Number::toString], [Number.prototype.toFixed], [Number.parseFloat],
    the [%] operator) are written out from their ECMAScript definitions in
    module [JS]. *)

From Stdlib Require Import ZArith Floats List String Ascii Bool Lia.
Import ListNotations.

Local Open Scope Z_scope.

(* ================================================================== *)
(** * JavaScript numbers and their string conversions                  *)
(* ================================================================== *)

Module JS.

Definition number := float.

(** ** Exact integers as numbers *)

(** [𝔽(z)]: the number nearest to the integer [z] (ties to even). *)
Definition of_Z (z : Z) : number :=
  SF2Prim (binary_normalize prec emax z 0 false).

Definition of_nat (n : nat) : number := of_Z (Z.of_nat n).

Definition isNaN (x : number) : bool := is_nan x.

(** ToBoolean on a number: [+0], [-0] and [NaN] are falsy. *)
Definition truthy (x : number) : bool := negb (is_zero x || is_nan x).

(** [x % 1]: the remainder keeps the sign of the dividend; it is [NaN]
    for [NaN] and the infinities. *)
Definition rem1 (x : number) : number :=
  match Prim2SF x with
  | S754_finite s m e =>
      if 0 <=? e then SF2Prim (S754_zero s)
      else
        let r := Zpos m mod 2 ^ (- e) in
        SF2Prim (binary_normalize prec emax (if s then - r else r) e s)
  | S754_zero _ => x
  | _ => nan
  end.

(** ** Decimal digits *)

Definition digit_char (d : Z) : ascii :=
  ascii_of_nat (48 + Z.to_nat d).

Fixpoint dec_digits_aux (fuel : nat) (n : Z) (acc : string) : string :=
  match fuel with
  | O => acc
  | S fuel' =>
      let acc' := String (digit_char (n mod 10)) acc in
      if n <? 10 then acc' else dec_digits_aux fuel' (n / 10) acc'
  end.

(** The decimal representation of a non-negative integer, without
    leading zeros ("0" for zero). *)
Definition dec_string (n : Z) : string :=
  dec_digits_aux (S (Z.to_nat (Z.log2 n))) n EmptyString.

Fixpoint zeros (n : nat) : string :=
  match n with
  | O => EmptyString
  | S n' => String "0" (zeros n')
  end.

(** ** Correctly rounded rationals *)

(** The number nearest to [n / d] (for [0 <= n], [0 < d]), ties to even. *)
Definition round_ratio (neg : bool) (n d : Z) : spec_float :=
  match n with
  | Zpos _ =>
      let '(mz, ez, lz) := SFdiv_core_binary prec emax n 0 d 0 in
      binary_round_aux prec emax neg mz ez lz
  | _ => S754_zero neg
  end.

(** The value [s * 10^p] as a fraction. *)
Definition dec_ratio (s p : Z) : Z * Z :=
  if 0 <=? p then (s * 10 ^ p, 1) else (s, 10 ^ (- p)).

Definition sf_eqb (x y : spec_float) : bool :=
  match x, y with
  | S754_zero a, S754_zero b => Bool.eqb a b
  | S754_infinity a, S754_infinity b => Bool.eqb a b
  | S754_nan, S754_nan => true
  | S754_finite a m e, S754_finite b m' e' =>
      Bool.eqb a b && Pos.eqb m m' && Z.eqb e e'
  | _, _ => false
  end.

(** The exact value [n / d] of a positive finite number [m * 2^e]. *)
Definition exact_ratio (m : positive) (e : Z) : Z * Z :=
  if 0 <=? e then (Zpos m * 2 ^ e, 1) else (Zpos m, 2 ^ (- e)).

(** ** Number::toString (radix 10)

    ECMAScript: let [n], [k], [s] be integers with [k >= 1],
    [10^(k-1) <= s < 10^k], [𝔽(s * 10^(n-k))] the number itself and [k] as
    small as possible; among several [s] take the one closest to the
    number, the even one on a tie. *)

Definition lt_pow10 (n d k : Z) : bool :=
  if 0 <=? k then n <? 10 ^ k * d else n * 10 ^ (- k) <? d.

Fixpoint find_up (fuel : nat) (n d k : Z) : Z :=
  match fuel with
  | O => k
  | S fuel' => if lt_pow10 n d k then k else find_up fuel' n d (k + 1)
  end.

(** The integer [n0] with [10^(n0-1) <= n/d < 10^n0]. *)
Definition dec_exponent (n d : Z) : Z :=
  find_up 6 n d ((Z.log2 n - Z.log2 d) * 30103 / 100000 - 1).

(** [floor (n/d / 10^p)] *)
Definition floor_scaled (n d p : Z) : Z :=
  if 0 <=? p then n / (d * 10 ^ p) else n * 10 ^ (- p) / d.

Definition rounds_to (x : spec_float) (s p : Z) : bool :=
  let '(a, b) := dec_ratio s p in sf_eqb (round_ratio false a b) x.

Definition candidates (x : spec_float) (n d n0 k : Z) : list (Z * Z) :=
  flat_map
    (fun p =>
       let s0 := floor_scaled n d p in
       filter
         (fun c => (10 ^ (k - 1) <=? fst c) && (fst c <? 10 ^ k)
                   && rounds_to x (fst c) p)
         [(s0, p); (s0 + 1, p)])
    [n0 - k; n0 - k + 1].

(** [|s * 10^p - n/d|] as a fraction. *)
Definition distance (n d : Z) (c : Z * Z) : Z * Z :=
  let '(s, p) := c in
  if 0 <=? p then (Z.abs (s * 10 ^ p * d - n), d)
  else (Z.abs (s * d - n * 10 ^ (- p)), d * 10 ^ (- p)).

Definition closer (n d : Z) (c1 c2 : Z * Z) : Z * Z :=
  let '(a1, b1) := distance n d c1 in
  let '(a2, b2) := distance n d c2 in
  match a1 * b2 ?= a2 * b1 with
  | Lt => c1
  | Gt => c2
  | Eq => if Z.even (fst c1) then c1 else c2
  end.

Fixpoint shortest_aux (fuel : nat) (x : spec_float) (n d n0 k : Z)
  : option (Z * Z * Z) :=
  match fuel with
  | O => None
  | S fuel' =>
      match candidates x n d n0 k with
      | [] => shortest_aux fuel' x n d n0 (k + 1)
      | c :: cs =>
          let '(s, p) := fold_left (closer n d) cs c in Some (s, k, p + k)
      end
  end.

(** [(s, k, n)] for the positive finite number [m * 2^e]; seventeen
    digits always identify a binary64 value. *)
Definition shortest (m : positive) (e : Z) : Z * Z * Z :=
  let '(n, d) := exact_ratio m e in
  let n0 := dec_exponent n d in
  match shortest_aux 17 (S754_finite false m e) n d n0 1 with
  | Some r => r
  | None => (floor_scaled n d (n0 - 17), 17, n0)
  end.

Local Open Scope string_scope.
Local Open Scope Z_scope.

Definition take (n : Z) (s : string) : string := substring 0 (Z.to_nat n) s.
Definition drop (n : Z) (s : string) : string :=
  substring (Z.to_nat n) (String.length s - Z.to_nat n) s.

Definition toString_pos (m : positive) (e : Z) : string :=
  let '(s, k, n) := shortest m e in
  let ds := dec_string s in
  if (k <=? n) && (n <=? 21) then ds ++ zeros (Z.to_nat (n - k))
  else if (0 <? n) && (n <=? 21) then take n ds ++ "." ++ drop n ds
  else if (-6 <? n) && (n <=? 0) then "0." ++ zeros (Z.to_nat (- n)) ++ ds
  else
    let ex := n - 1 in
    let es := (if ex <? 0 then "-" else "+") ++ dec_string (Z.abs ex) in
    if k =? 1 then ds ++ "e" ++ es
    else take 1 ds ++ "." ++ drop 1 ds ++ "e" ++ es.

Definition toString (x : number) : string :=
  match Prim2SF x with
  | S754_nan => "NaN"
  | S754_zero _ => "0"
  | S754_infinity s => if s then "-Infinity" else "Infinity"
  | S754_finite s m e => (if s then "-" else "") ++ toString_pos m e
  end.

(** ** Number.prototype.toFixed *)

(** ToIntegerOrInfinity; [None] stands for the two infinities. *)
Definition to_integer_or_infinity (p : number) : option Z :=
  match Prim2SF p with
  | S754_nan | S754_zero _ => Some 0
  | S754_infinity _ => None
  | S754_finite s m e =>
      let t := if 0 <=? e then Zpos m * 2 ^ e else Zpos m / 2 ^ (- e) in
      Some (if s then - t else t)
  end.

(** The digits of the integer [N] with a point before the last [f]. *)
Definition fixed_digits (N f : Z) : string :=
  let m := dec_string N in
  if f =? 0 then m
  else
    let k := Z.of_nat (String.length m) in
    let m' := if k <=? f then zeros (Z.to_nat (f + 1 - k)) ++ m else m in
    let k' := Z.of_nat (String.length m') in
    take (k' - f) m' ++ "." ++ drop (k' - f) m'.

(** [x.toFixed(fractionDigits)]; [None] is the RangeError thrown when
    the digit count is not within 0..100. *)
Definition toFixed (x fractionDigits : number) : option string :=
  match to_integer_or_infinity fractionDigits with
  | None => None
  | Some f =>
      if (f <? 0) || (100 <? f) then None
      else
        Some
          match Prim2SF x with
          | S754_finite s m e =>
              let '(n, d) := exact_ratio m e in
              if 10 ^ 21 * d <=? n then toString x
              else
                (if s then "-" else "")
                ++ fixed_digits ((2 * n * 10 ^ f + d) / (2 * d)) f
          | S754_zero _ => fixed_digits 0 f
          | _ => toString x
          end
  end.

(** ** Number.parseFloat *)

(** WhiteSpace and LineTerminator code units (within Latin-1). *)
Definition is_space (c : ascii) : bool :=
  let n := nat_of_ascii c in
  existsb (Nat.eqb n) [9; 10; 11; 12; 13; 32; 160]%nat.

Fixpoint trim_start (s : string) : string :=
  match s with
  | String c s' => if is_space c then trim_start s' else s
  | EmptyString => s
  end.

Definition digit_val (c : ascii) : option Z :=
  let n := nat_of_ascii c in
  if (48 <=? n)%nat && (n <=? 57)%nat then Some (Z.of_nat (n - 48)) else None.

(** Reads a run of decimal digits onto the accumulator [acc]; returns
    the value, the number of digits read and the rest. *)
Fixpoint read_digits (s : string) (acc : Z) (cnt : Z) : Z * Z * string :=
  match s with
  | String c s' =>
      match digit_val c with
      | Some d => read_digits s' (10 * acc + d) (cnt + 1)
      | None => (acc, cnt, s)
      end
  | EmptyString => (acc, cnt, s)
  end.

(** ExponentPart: [e] or [E], an optional sign, at least one digit; an
    ill-formed exponent is not part of the parsed prefix. *)
Definition read_exponent (s : string) : Z :=
  match s with
  | String c s' =>
      if Ascii.eqb c "e" || Ascii.eqb c "E" then
        let '(neg, s'') :=
          match s' with
          | String "+" t => (false, t)
          | String "-" t => (true, t)
          | _ => (false, s')
          end in
        let '(v, cnt, _) := read_digits s'' 0 0 in
        if cnt =? 0 then 0 else if neg then - v else v
      else 0
  | EmptyString => 0
  end.

(** StrUnsignedDecimalLiteral (longest prefix), with the sign [neg]. *)
Definition parse_unsigned (neg : bool) (s : string) : number :=
  if prefix "Infinity" s then (if neg then neg_infinity else infinity)
  else
    let '(ip, icnt, r1) := read_digits s 0 0 in
    let '(mant, fcnt, r2) :=
      match r1 with
      | String "." t =>
          let '(v, c, r) := read_digits t ip 0 in
          if (icnt =? 0) && (c =? 0) then (ip, 0, r1) else (v, c, r)
      | _ => (ip, 0, r1)
      end in
    if (icnt =? 0) && (fcnt =? 0) then nan
    else
      let '(a, b) := dec_ratio mant (read_exponent r2 - fcnt) in
      SF2Prim (round_ratio neg a b).

Definition parseFloat (s : string) : number :=
  match trim_start s with
  | String "+" t => parse_unsigned false t
  | String "-" t => parse_unsigned true t
  | t => parse_unsigned false t
  end.

End JS.

Local Open Scope string_scope.
Local Open Scope float_scope.

Abbreviation number := JS.number.

(** [Math.PI] *)
Definition Math_PI : number := 0x1.921fb54442d18p+1.

(** A value of TypeScript type [string | number], as [.toString()] is
    called on one. *)
Inductive StrOrNum :=
| Str (s : string)
| Num (n : number).

Definition toStr (v : StrOrNum) : string :=
  match v with
  | Str s => s
  | Num n => JS.toString n
  end.

(** ToBoolean: the empty string, the zeros and [NaN] are falsy. *)
Definition truthy (v : StrOrNum) : bool :=
  match v with
  | Str s => negb (String.eqb s "")
  | Num n => JS.truthy n
  end.

(* ================================================================== *)
(** * Data model ([GraphInstance.ts], lines 4-61)                      *)
(* ================================================================== *)

Record RGBA := { r : number; g : number; b : number; a : number }.

Record GraphOptions := {
  width : number;
  height : number;
  backgroundColor : RGBA;
  titleText : string;
  xAxisText : string;
  yAxisText : string;
  yMax : number;
  yPadding : number;
  xPadding : number;
  bar_width : number;
  bar_spacing : number;
  graphSegments_Y : number;
  graphSegments_X : number;
  titleColor : string;
  xTextColor : string;
  yTextColor : string;
  yTextSize : number;
  xSegmentColor : string;
  ySegmentColor : string;
  graphValuePrecision : number;
  verbose : bool
}.

(** [Partial<GraphOptions>]: every field may be absent ([undefined]). *)
Module Partial.
Record GraphOptions := {
  width : option number;
  height : option number;
  backgroundColor : option RGBA;
  titleText : option string;
  xAxisText : option string;
  yAxisText : option string;
  yMax : option number;
  yPadding : option number;
  xPadding : option number;
  bar_width : option number;
  bar_spacing : option number;
  graphSegments_Y : option number;
  graphSegments_X : option number;
  titleColor : option string;
  xTextColor : option string;
  yTextColor : option string;
  yTextSize : option number;
  xSegmentColor : option string;
  ySegmentColor : option string;
  graphValuePrecision : option number;
  verbose : option bool
}.
End Partial.

(** [valueLabel?: string | null] *)
Inductive ValueLabel :=
| VLUndefined
| VLNull
| VLString (s : string).

Record BarEntry := {
  val : number;
  label : option string;
  color : string;
  valueLabel : ValueLabel
}.

(** The private fields of a [Graph] instance. *)
Record Graph := {
  _y_offset : number;
  _x_offset : number;
  _y_padding : number;
  _x_padding : number;
  _entries : list BarEntry;
  _options : GraphOptions
}.

Definition with_yMax (y : number) (o : GraphOptions) : GraphOptions :=
  {| width := width o; height := height o;
     backgroundColor := backgroundColor o;
     titleText := titleText o; xAxisText := xAxisText o;
     yAxisText := yAxisText o;
     yMax := y;
     yPadding := yPadding o; xPadding := xPadding o;
     bar_width := bar_width o; bar_spacing := bar_spacing o;
     graphSegments_Y := graphSegments_Y o;
     graphSegments_X := graphSegments_X o;
     titleColor := titleColor o; xTextColor := xTextColor o;
     yTextColor := yTextColor o; yTextSize := yTextSize o;
     xSegmentColor := xSegmentColor o; ySegmentColor := ySegmentColor o;
     graphValuePrecision := graphValuePrecision o;
     verbose := verbose o |}.

Definition with_bar_spacing (s : number) (o : GraphOptions) : GraphOptions :=
  {| width := width o; height := height o;
     backgroundColor := backgroundColor o;
     titleText := titleText o; xAxisText := xAxisText o;
     yAxisText := yAxisText o;
     yMax := yMax o;
     yPadding := yPadding o; xPadding := xPadding o;
     bar_width := bar_width o; bar_spacing := s;
     graphSegments_Y := graphSegments_Y o;
     graphSegments_X := graphSegments_X o;
     titleColor := titleColor o; xTextColor := xTextColor o;
     yTextColor := yTextColor o; yTextSize := yTextSize o;
     xSegmentColor := xSegmentColor o; ySegmentColor := ySegmentColor o;
     graphValuePrecision := graphValuePrecision o;
     verbose := verbose o |}.

Definition with_options (o : GraphOptions) (t : Graph) : Graph :=
  {| _y_offset := _y_offset t; _x_offset := _x_offset t;
     _y_padding := _y_padding t; _x_padding := _x_padding t;
     _entries := _entries t; _options := o |}.

Definition with_entries (l : list BarEntry) (t : Graph) : Graph :=
  {| _y_offset := _y_offset t; _x_offset := _x_offset t;
     _y_padding := _y_padding t; _x_padding := _x_padding t;
     _entries := l; _options := _options t |}.

(* ================================================================== *)
(** * External collaborators                                           *)
(* ================================================================== *)

(** The calls the chart makes on the 2D drawing context, in the order it
    makes them.  [Background] and [DrawTextWithFont] are the two drawing
    helpers of [utils/index.ts], recorded as calls. *)
Inductive Cmd :=
| Background (r g b a : number)
| DrawTextWithFont (text : string) (x y : number) (font : string)
| SetImageSmoothingEnabled (on : bool)
| SetImageSmoothingQuality (q : string)
| Save
| Restore
| SetStrokeStyle (s : string)
| SetFillStyle (s : string)
| SetLineWidth (w : number)
| SetFont (f : string)
| FillText (text : string) (x y : number)
| BeginPath
| ClosePath
| LineTo (x y : number)
| Stroke
| Fill
| Arc (x y radius startAngle endAngle : number)
| FillRect (x y w h : number).

(** Modelled from the spec: the process-wide drawing surface of
    [config/index.ts], which is not among the sources.  It is created
    once, sized by the first chart that initialises it, and reused at
    that size by every later chart (spec, section 5); [ctx] is the
    sequence of calls received so far. *)
Record CanvasInstance := {
  is_ready : bool;
  WIDTH : number;
  HEIGHT : number;
  ctx : list Cmd
}.

Module Canvas.
Definition ready (c : CanvasInstance) : bool := is_ready c.

Definition init (w h : number) (c : CanvasInstance) : CanvasInstance :=
  {| is_ready := true; WIDTH := w; HEIGHT := h; ctx := ctx c |}.

Definition call (k : Cmd) (c : CanvasInstance) : CanvasInstance :=
  {| is_ready := is_ready c; WIDTH := WIDTH c; HEIGHT := HEIGHT c;
     ctx := (ctx c ++ [k])%list |}.

(** The surface before any chart exists. *)
Definition fresh : CanvasInstance :=
  {| is_ready := false; WIDTH := nan; HEIGHT := nan; ctx := [] |}.
End Canvas.

(** Modelled from the spec: the numeric helpers of [utils/index.ts],
    which is not among the sources: "linear normalization of a value
    into a sub-range" and "the maximum of a numeric collection". *)
Module Utils.
Definition normalize (v lowerBound upperBound : number) : number :=
  (v - lowerBound) / (upperBound - lowerBound).

(** The larger of two numbers as [Math.max] has it: [NaN] if either is. *)
Definition max2 (x y : number) : number :=
  if JS.isNaN x || JS.isNaN y then nan
  else if x <? y then y
  else if y <? x then x
  else if get_sign x then y else x.

(** The maximum of an empty collection is taken to be [-Infinity]. *)
Definition max (l : list number) : number := fold_left max2 l neg_infinity.
End Utils.

(** What [console.log] received. *)
Inductive LogArg :=
| NoArg
| NumArg (n : number)
| OptionsArg (o : GraphOptions).

Record LogEntry := { message : string; argument : LogArg }.

(* ================================================================== *)
(** * Effects: the mutable world, exceptions, loops                    *)
(* ================================================================== *)

(** Everything a method of [Graph] can read or change: the instance
    ([this]), the shared drawing surface and the console. *)
Record World := {
  this : Graph;
  canvas : CanvasInstance;
  console : list LogEntry
}.

Inductive Error :=
| RangeError   (* a [toFixed] digit count outside 0..100 *)
| TypeError.   (* a property read on [undefined] *)

(** How a method call ends: it returns, it throws (what it had done up
    to then stays done), or the loop budget of the model ran out. *)
Inductive Outcome (A : Type) :=
| Returns (x : A) (w : World)
| Throws (e : Error) (w : World)
| OutOfFuel.

Arguments Returns {A} x w.
Arguments Throws {A} e w.
Arguments OutOfFuel {A}.

Definition M (A : Type) : Type := World -> Outcome A.

Definition ret {A} (x : A) : M A := fun w => Returns x w.

Definition bind {A B} (m : M A) (k : A -> M B) : M B :=
  fun w =>
    match m w with
    | Returns x w' => k x w'
    | Throws e w' => Throws e w'
    | OutOfFuel => OutOfFuel
    end.

Notation "x <- m ;; k" := (bind m (fun x => k))
  (at level 61, m at next level, right associativity).
Notation "m ;; k" := (bind m (fun _ => k))
  (at level 61, right associativity).

Definition throw {A} (e : Error) : M A := fun w => Throws e w.

Definition get_this : M Graph := fun w => Returns (this w) w.
Definition get_canvas : M CanvasInstance := fun w => Returns (canvas w) w.

Definition set_this (t : Graph) : M unit :=
  fun w => Returns tt {| this := t; canvas := canvas w; console := console w |}.

(** One call on (or assignment to) the drawing context. *)
Definition draw_call (k : Cmd) : M unit :=
  fun w =>
    Returns tt {| this := this w; canvas := Canvas.call k (canvas w);
                  console := console w |}.

Definition console_log (msg : string) (arg : LogArg) : M unit :=
  fun w =>
    Returns tt {| this := this w; canvas := canvas w;
                  console := (console w ++ [{| message := msg;
                                               argument := arg |}])%list |}.

Definition when (c : bool) (m : M unit) : M unit := if c then m else ret tt.

(** [x.toFixed(p)], which may throw. *)
Definition toFixed (x p : number) : M string :=
  match JS.toFixed x p with
  | Some s => ret s
  | None => throw RangeError
  end.

(** [for (let i = i0; cond(i); i++) body(i)]; the body answers [false]
    to [break].  The counter is a number, as in the source, so [i++] is
    a floating-point addition. *)
Fixpoint for_loop (fuel : nat) (cond : number -> bool)
    (body : number -> M bool) (i : number) : M unit :=
  match fuel with
  | O => fun _ => OutOfFuel
  | S fuel' =>
      if cond i then
        go_on <- body i ;;
        if go_on then for_loop fuel' cond body (i + 1) else ret tt
      else ret tt
  end.

(** The array index a number denotes, if it is a non-negative integer. *)
Definition to_index (i : number) : option nat :=
  match Prim2SF i with
  | S754_zero _ => Some O
  | S754_finite false m e =>
      if (0 <=? e)%Z then Some (Z.to_nat (Zpos m * 2 ^ e))
      else if (Zpos m mod 2 ^ (- e) =? 0)%Z
           then Some (Z.to_nat (Zpos m / 2 ^ (- e)))
           else None
  | _ => None
  end.

(** [arr[i]]: [undefined] ([None]) when [i] is not an index of [arr]. *)
Definition element {A} (arr : list A) (i : number) : option A :=
  match to_index i with
  | Some k => nth_error arr k
  | None => None
  end.

(** [arr.length] *)
Definition length_of {A} (arr : list A) : number :=
  JS.of_nat (List.length arr).

(* ================================================================== *)
(** * class Graph ([GraphInstance.ts], lines 63-339)                   *)
(* ================================================================== *)

(** [(config && config.f) ?? d] *)
Definition opt {A} (config : option Partial.GraphOptions)
    (f : Partial.GraphOptions -> option A) (d : A) : A :=
  match config with
  | Some c => match f c with Some v => v | None => d end
  | None => d
  end.

(** The configuration the constructor resolves (lines 84-120). *)
Definition resolve (config : option Partial.GraphOptions) : GraphOptions :=
  {| height := opt config Partial.height 480;
     width := opt config Partial.width 720;
     backgroundColor :=
       opt config Partial.backgroundColor
         {| r := 50; g := 50; b := 50; a := 0.5 |};
     titleText := opt config Partial.titleText "title";
     xAxisText := opt config Partial.xAxisText "X-Axis";
     yAxisText := opt config Partial.yAxisText "Y-Axis";
     yMax := opt config Partial.yMax (-1);
     yPadding := opt config Partial.yPadding 0;
     xPadding := opt config Partial.xPadding 0;
     bar_width := opt config Partial.bar_width 10;
     bar_spacing := opt config Partial.bar_spacing 5;
     graphSegments_X := opt config Partial.graphSegments_X 10;
     graphSegments_Y := opt config Partial.graphSegments_Y 10;
     titleColor := opt config Partial.titleColor "rgb(255,255,255)";
     xTextColor := opt config Partial.xTextColor "rgb(255,255,255)";
     yTextColor := opt config Partial.yTextColor "rgb(255,255,255)";
     yTextSize := opt config Partial.yTextSize 10;
     xSegmentColor := opt config Partial.xSegmentColor "rgb(255,255,255)";
     ySegmentColor := opt config Partial.ySegmentColor "rgb(255,255,255)";
     graphValuePrecision := opt config Partial.graphValuePrecision 2;
     verbose := opt config Partial.verbose false |}.

(** [new Graph(config)], on the surface [cv] and console [log] it finds. *)
Definition constructor (config : option Partial.GraphOptions)
    (cv : CanvasInstance) (log : list LogEntry) : World :=
  let o := resolve config in
  let t :=
    {| _x_padding := 50 + xPadding o;
       _y_padding := 30 + yPadding o;
       _x_offset := 30 + xPadding o;
       _y_offset := 30 + yPadding o;
       _entries := [];
       _options := o |} in
  let '(cv1, log1) :=
    if negb (Canvas.ready cv) then
      (Canvas.init (width o) (height o) cv,
       if verbose o then
         (log ++ [{| message :=
                       "Initialized Canvas Instance W["
                       ++ JS.toString (width o) ++ "] H["
                       ++ JS.toString (height o) ++ "]";
                     argument := NoArg |}])%list
       else log)
    else (cv, log) in
  let log2 :=
    if verbose o then
      (log1 ++ [{| message := "Create Graph with Options:";
                   argument := OptionsArg o |}])%list
    else log1 in
  {| this := t; canvas := cv1; console := log2 |}.

(** [add(entry)] *)
Definition add (entry : BarEntry) : M unit :=
  t <- get_this ;;
  set_this (with_entries (_entries t ++ [entry])%list t).

(** [_draw_graph_outline()] *)
Definition _draw_graph_outline : M unit :=
  cv <- get_canvas ;;
  let HEIGHT := HEIGHT cv in
  let WIDTH := WIDTH cv in
  draw_call (SetImageSmoothingEnabled true) ;;
  draw_call (SetImageSmoothingQuality "high") ;;
  draw_call Save ;;
  t <- get_this ;;
  let o := _options t in
  draw_call (SetStrokeStyle (titleColor o)) ;;
  draw_call (SetFillStyle (titleColor o)) ;;
  draw_call (SetLineWidth 1.5) ;;
  when (truthy (Str (titleText o)))
    (draw_call (DrawTextWithFont (titleText o) (WIDTH / 2 - 30)
                  (_y_offset t) "12pt Cochin")) ;;
  draw_call (SetStrokeStyle (xTextColor o)) ;;
  draw_call (SetFillStyle (xTextColor o)) ;;
  when (truthy (Str (xAxisText o)))
    (draw_call (FillText (xAxisText o) (WIDTH / 2 - 10)
                  (HEIGHT - _y_offset t / 2 + 10))) ;;
  draw_call BeginPath ;;
  draw_call (LineTo (_x_padding t) (HEIGHT - _y_padding t)) ;;
  draw_call (LineTo (_x_padding t) (_y_padding t)) ;;
  draw_call Stroke ;;
  draw_call ClosePath ;;
  draw_call (SetStrokeStyle (yTextColor o)) ;;
  draw_call (SetFillStyle (yTextColor o)) ;;
  when (truthy (Str (yAxisText o)))
    (draw_call (FillText (yAxisText o) (_x_offset t / 2 - 8) (HEIGHT / 2))) ;;
  draw_call BeginPath ;;
  draw_call (LineTo (_x_padding t) (HEIGHT - _y_padding t)) ;;
  draw_call (LineTo (WIDTH - _x_padding t) (HEIGHT - _y_padding t)) ;;
  draw_call Stroke ;;
  draw_call ClosePath ;;
  draw_call Restore.

(** The number-formatting step shared by the three kinds of label:
    [v % 1 === 0 ? v.toString() : v.toFixed(precision)] (line 224). *)
Definition yValStr (yVal graphValuePrecision : number) : M string :=
  if JS.rem1 yVal =? 0 then ret (JS.toString yVal)
  else toFixed yVal graphValuePrecision.

(** One pass of the y-axis loop (lines 210-227). *)
Definition y_segment (HEIGHT y_height_px maxY_segment graphValuePrecision
    i : number) : M bool :=
  t <- get_this ;;
  let Y := HEIGHT - y_height_px * i - _y_padding t in
  draw_call (SetFillStyle "#ECF0F1") ;;
  draw_call (SetStrokeStyle "#ECF0F1") ;;
  draw_call BeginPath ;;
  draw_call (Arc (_x_padding t) Y 2 0 (Math_PI * 2)) ;;
  draw_call ClosePath ;;
  draw_call Fill ;;
  draw_call (SetFillStyle (ySegmentColor (_options t))) ;;
  draw_call (SetStrokeStyle (ySegmentColor (_options t))) ;;
  let yVal :=
    Utils.normalize ((HEIGHT - _y_padding t - Y) * yMax (_options t)) 0
      maxY_segment in
  s <- yValStr yVal graphValuePrecision ;;
  let offset := 10 + JS.of_nat (String.length s) * 5.5 in
  draw_call (FillText s (_x_padding t - offset) (Y + 3)) ;;
  ret true.

(** [entry?.label] *)
Definition label_of (entry : option BarEntry) : option string :=
  match entry with
  | Some e => label e
  | None => None
  end.

(** [(entry && entry.label !== undefined &&
      Number.parseFloat(entry.label)) || NaN] (line 249) *)
Definition entryFloatVal (entry : option BarEntry) : number :=
  match label_of entry with
  | Some l =>
      let f := JS.parseFloat l in
      if JS.truthy f then f else nan
  | None => nan
  end.

(** The argument of [fillText] at lines 251-260:
    [(entry && entry.label !== undefined &&
       (isNaN(f) ? entry.label : !(f % 1) ? f : f.toFixed(precision)))
     || i], before [.toString()] is applied to it. *)
Definition tick_label (entry : option BarEntry)
    (graphValuePrecision i : number) : M StrOrNum :=
  let f := entryFloatVal entry in
  match label_of entry with
  | Some l =>
      v <- (if JS.isNaN f then ret (Str l)
            else if negb (JS.truthy (JS.rem1 f)) then ret (Num f)
            else s <- toFixed f graphValuePrecision ;; ret (Str s)) ;;
      ret (if truthy v then v else Num i)
  | None => ret (Num i)
  end.

(** One pass of the x-axis loop (lines 233-264). *)
Definition x_segment (HEIGHT X_SEGMENTS graphValuePrecision i : number)
  : M bool :=
  t <- get_this ;;
  let X := _x_padding t + X_SEGMENTS * i in
  draw_call (SetFillStyle "#ECF0F1") ;;
  draw_call (SetStrokeStyle "#ECF0F1") ;;
  draw_call BeginPath ;;
  draw_call (Arc X (HEIGHT - _y_padding t) 2 0 (Math_PI * 2)) ;;
  draw_call ClosePath ;;
  draw_call Fill ;;
  let entry := element (_entries t) i in
  draw_call (SetFillStyle (xSegmentColor (_options t))) ;;
  draw_call (SetStrokeStyle (xSegmentColor (_options t))) ;;
  draw_call (SetFont (JS.toString (yTextSize (_options t)) ++ "px Cochin")) ;;
  match label_of entry with
  | Some "" => ret true
  | _ =>
      v <- tick_label entry graphValuePrecision i ;;
      draw_call (FillText (toStr v) X (HEIGHT - _y_offset t + 12)) ;;
      ret true
  end.

(** [_draw_graph_segments()] *)
Definition _draw_graph_segments (fuel : nat) : M unit :=
  cv <- get_canvas ;;
  let HEIGHT := HEIGHT cv in
  let WIDTH := WIDTH cv in
  t <- get_this ;;
  let graphSegments_X := graphSegments_X (_options t) in
  let graphSegments_Y := graphSegments_Y (_options t) in
  let graphValuePrecision := graphValuePrecision (_options t) in
  (if yMax (_options t) =? -1 then
     let m := Utils.max (map val (_entries t)) in
     set_this (with_options (with_yMax m (_options t)) t) ;;
     when (verbose (_options t)) (console_log "yMax Evaluated to: " (NumArg m))
   else ret tt) ;;
  let y_height_px := HEIGHT / graphSegments_Y in
  let maxY_segment := y_height_px * (graphSegments_Y - 2) in
  for_loop fuel (fun i => i <? graphSegments_Y - 1)
    (y_segment HEIGHT y_height_px maxY_segment graphValuePrecision) 0 ;;
  t <- get_this ;;
  let X_SEGMENTS := (WIDTH - _x_padding t) / graphSegments_X in
  for_loop fuel (fun i => i <? graphSegments_X - 1)
    (x_segment HEIGHT X_SEGMENTS graphValuePrecision) 0.

(** The pixel height of the bar of a value [y] (line 295). *)
Definition bar_height (y yMax maxY_segment : number) : number :=
  Utils.normalize y 0 yMax * maxY_segment.

(** [const val = y % 1 !== 0 ? y.toFixed(precision) : y] (line 301) *)
Definition bar_val (y graphValuePrecision : number) : M StrOrNum :=
  if negb (JS.rem1 y =? 0) then
    s <- toFixed y graphValuePrecision ;; ret (Str s)
  else ret (Num y).

(** One pass of the bar loop (lines 284-302). *)
Definition bar (HEIGHT maxY_segment X_SEGMENTS bar_width graphValuePrecision
    yMax i : number) : M bool :=
  t <- get_this ;;
  if length_of (_entries t) <=? i then ret false
  else
    match element (_entries t) i with
    | None => throw TypeError
    | Some entry =>
        let y := val entry in
        draw_call (SetFillStyle (color entry)) ;;
        draw_call BeginPath ;;
        let X := _x_padding t + X_SEGMENTS * i in
        let Y := bar_height y yMax maxY_segment in
        draw_call (FillRect X (HEIGHT - _y_offset t - Y) bar_width Y) ;;
        draw_call ClosePath ;;
        v <- bar_val y graphValuePrecision ;;
        match valueLabel entry with
        | VLNull => ret true
        | VLString s =>
            draw_call (FillText s (X + 5) (HEIGHT - _y_offset t - Y - 10)) ;;
            ret true
        | VLUndefined =>
            draw_call (FillText (toStr v) (X + 5)
                         (HEIGHT - _y_offset t - Y - 10)) ;;
            ret true
        end
    end.

(** [_draw_bars()] *)
Definition _draw_bars (fuel : nat) : M unit :=
  cv <- get_canvas ;;
  let HEIGHT := HEIGHT cv in
  let WIDTH := WIDTH cv in
  t <- get_this ;;
  let bar_width := bar_width (_options t) in
  let graphSegments_X := graphSegments_X (_options t) in
  let graphSegments_Y := graphSegments_Y (_options t) in
  let graphValuePrecision := graphValuePrecision (_options t) in
  let yMax := yMax (_options t) in
  draw_call Save ;;
  let Y_SEGMENTS := HEIGHT / graphSegments_Y in
  let maxY_segment := Y_SEGMENTS * (graphSegments_Y - 2) in
  let X_SEGMENTS := (WIDTH - _x_padding t) / graphSegments_X in
  for_loop fuel (fun i => i <? graphSegments_X)
    (bar HEIGHT maxY_segment X_SEGMENTS bar_width graphValuePrecision yMax)
    0 ;;
  draw_call Restore.

(** [draw()] *)
Definition draw (fuel : nat) : M unit :=
  t <- get_this ;;
  let c := backgroundColor (_options t) in
  draw_call (Background (r c) (g c) (b c) (a c)) ;;
  _draw_bars fuel ;;
  _draw_graph_outline ;;
  _draw_graph_segments fuel.

(* ================================================================== *)
(** * Vocabulary of the specification                                  *)
(* ================================================================== *)

(** A configuration object in which every field is supplied. *)
Definition supply_all (o : GraphOptions) : Partial.GraphOptions :=
  {| Partial.width := Some (width o);
     Partial.height := Some (height o);
     Partial.backgroundColor := Some (backgroundColor o);
     Partial.titleText := Some (titleText o);
     Partial.xAxisText := Some (xAxisText o);
     Partial.yAxisText := Some (yAxisText o);
     Partial.yMax := Some (yMax o);
     Partial.yPadding := Some (yPadding o);
     Partial.xPadding := Some (xPadding o);
     Partial.bar_width := Some (bar_width o);
     Partial.bar_spacing := Some (bar_spacing o);
     Partial.graphSegments_Y := Some (graphSegments_Y o);
     Partial.graphSegments_X := Some (graphSegments_X o);
     Partial.titleColor := Some (titleColor o);
     Partial.xTextColor := Some (xTextColor o);
     Partial.yTextColor := Some (yTextColor o);
     Partial.yTextSize := Some (yTextSize o);
     Partial.xSegmentColor := Some (xSegmentColor o);
     Partial.ySegmentColor := Some (ySegmentColor o);
     Partial.graphValuePrecision := Some (graphValuePrecision o);
     Partial.verbose := Some (verbose o) |}.

(** The documented defaults (spec, section 4.1); "white" is
    [rgb(255,255,255)] and "unset" is the sentinel [-1]. *)
Definition defaults : GraphOptions :=
  {| width := 720; height := 480;
     backgroundColor := {| r := 50; g := 50; b := 50; a := 0.5 |};
     titleText := "title"; xAxisText := "X-Axis"; yAxisText := "Y-Axis";
     yMax := -1;
     yPadding := 0; xPadding := 0;
     bar_width := 10; bar_spacing := 5;
     graphSegments_Y := 10; graphSegments_X := 10;
     titleColor := "rgb(255,255,255)"; xTextColor := "rgb(255,255,255)";
     yTextColor := "rgb(255,255,255)"; yTextSize := 10;
     xSegmentColor := "rgb(255,255,255)"; ySegmentColor := "rgb(255,255,255)";
     graphValuePrecision := 2;
     verbose := false |}.

(** The value a field resolves to: the supplied one, else the default. *)
Definition or_default {A} (supplied : option A) (d : A) : A :=
  match supplied with
  | Some v => v
  | None => d
  end.

(** The calls the surface received between two worlds. *)
Definition emitted (w w' : World) : list Cmd :=
  skipn (List.length (ctx (canvas w))) (ctx (canvas w')).

Definition is_FillRect (c : Cmd) : bool :=
  match c with FillRect _ _ _ _ => true | _ => false end.

Definition is_FillText (c : Cmd) : bool :=
  match c with FillText _ _ _ => true | _ => false end.

(** The texts painted by a run of calls, in order. *)
Definition texts (l : list Cmd) : list string :=
  flat_map (fun c => match c with FillText s _ _ => [s] | _ => [] end) l.

(** The caller's operations on a chart. *)
Inductive Op :=
| Add (entry : BarEntry)
| Draw (fuel : nat).

Definition perform (op : Op) : M unit :=
  match op with
  | Add e => add e
  | Draw fuel => draw fuel
  end.

Fixpoint run (ops : list Op) : M unit :=
  match ops with
  | [] => ret tt
  | op :: ops' => perform op ;; run ops'
  end.

(** The axis maximum a world's chart currently holds. *)
Definition yMax_of (w : World) : number := yMax (_options (this w)).

(** The number formatting rule: no fraction digits for an integral
    value, [toFixed(precision)] otherwise; [None] when [toFixed] throws. *)
Definition format_number (precision v : number) : option string :=
  if JS.rem1 v =? 0 then Some (JS.toString v) else JS.toFixed v precision.

(** What stays fixed while a chart is being painted: the instance and
    the size of the surface. *)
Record Frame := {
  frame_this : Graph;
  frame_WIDTH : number;
  frame_HEIGHT : number
}.

Definition in_frame (F : Frame) (w : World) : Prop :=
  this w = frame_this F
  /\ WIDTH (canvas w) = frame_WIDTH F
  /\ HEIGHT (canvas w) = frame_HEIGHT F.

Definition frame_of (w : World) : Frame :=
  {| frame_this := this w;
     frame_WIDTH := WIDTH (canvas w);
     frame_HEIGHT := HEIGHT (canvas w) |}.

(** [w'] comes from [w] by calls on the surface that all satisfy [Q],
    and by nothing else that painting depends on. *)
Definition steps (Q : Cmd -> Prop) (w w' : World) : Prop :=
  this w' = this w
  /\ WIDTH (canvas w') = WIDTH (canvas w)
  /\ HEIGHT (canvas w') = HEIGHT (canvas w)
  /\ exists new,
       ctx (canvas w') = (ctx (canvas w) ++ new)%list /\ Forall Q new.

(** A computation that only paints, with calls that satisfy [Q],
    whether it returns or throws. *)
Definition paints {A} (F : Frame) (Q : Cmd -> Prop) (m : M A) : Prop :=
  forall w,
    in_frame F w ->
    match m w with
    | Returns _ w' => steps Q w w'
    | Throws _ w' => steps Q w w'
    | OutOfFuel => True
    end.

(** The rectangle of the bar of [entry] in slot [i], as lines 294-297
    compute it from the instance, the surface and the axis maximum. *)
Definition bar_rect (F : Frame) (yMax i : number) (entry : BarEntry) : Cmd :=
  let t := frame_this F in
  let o := _options t in
  let Y :=
    bar_height (val entry) yMax
      (frame_HEIGHT F / graphSegments_Y o * (graphSegments_Y o - 2)) in
  FillRect
    (_x_padding t
     + (frame_WIDTH F - _x_padding t) / graphSegments_X o * i)
    (frame_HEIGHT F - _y_offset t - Y)
    (bar_width o)
    Y.

(** Every rectangle among the calls is the bar of some entry of the
    store, scaled by the axis maximum [yMax]. *)
Definition bars_scaled_by (F : Frame) (yMax : number) (c : Cmd) : Prop :=
  is_FillRect c = true ->
  exists i entry,
    element (_entries (frame_this F)) i = Some entry
    /\ c = bar_rect F yMax i entry.

Definition no_rect (c : Cmd) : Prop := is_FillRect c = false.

(** The axis maximum after the derivation step of
    [_draw_graph_segments] (lines 200-203). *)
Definition derive_yMax (t : Graph) : Graph :=
  if yMax (_options t) =? -1
  then with_options (with_yMax (Utils.max (map val (_entries t))) (_options t)) t
  else t.

(** The effect of a method that may derive the axis maximum: the chart
    is as [derive_yMax] leaves it, the surface keeps its size and has
    received calls that satisfy [Q]. *)
Definition derives (Q : Cmd -> Prop) (w w' : World) : Prop :=
  this w' = derive_yMax (this w)
  /\ WIDTH (canvas w') = WIDTH (canvas w)
  /\ HEIGHT (canvas w') = HEIGHT (canvas w)
  /\ exists new,
       ctx (canvas w') = (ctx (canvas w) ++ new)%list /\ Forall Q new.


(** The height of the rectangle a call paints, if it paints one. *)
Definition rect_height (c : Cmd) : option number :=
  match c with
  | FillRect _ _ _ h => Some h
  | _ => None
  end.

(** ** Sample charts *)

Definition sample_entry (v : number) : BarEntry :=
  {| val := v; label := None; color := "red"; valueLabel := VLUndefined |}.

Definition labelled_entry (v : number) (l : string) : BarEntry :=
  {| val := v; label := Some l; color := "blue"; valueLabel := VLUndefined |}.

(** The world an operation sequence leaves behind. *)
Definition after (ops : list Op) (w : World) : World :=
  match run ops w with
  | Returns _ w' => w'
  | Throws _ w' => w'
  | OutOfFuel => w
  end.

(** A chart with the default configuration on a new surface. *)
Definition default_chart : World := constructor None Canvas.fresh [].

(** ** Two runs that differ in [bar_spacing] only *)

Definition set_spacing (s : option number) (c : Partial.GraphOptions)
  : Partial.GraphOptions :=
  {| Partial.width := Partial.width c;
     Partial.height := Partial.height c;
     Partial.backgroundColor := Partial.backgroundColor c;
     Partial.titleText := Partial.titleText c;
     Partial.xAxisText := Partial.xAxisText c;
     Partial.yAxisText := Partial.yAxisText c;
     Partial.yMax := Partial.yMax c;
     Partial.yPadding := Partial.yPadding c;
     Partial.xPadding := Partial.xPadding c;
     Partial.bar_width := Partial.bar_width c;
     Partial.bar_spacing := s;
     Partial.graphSegments_Y := Partial.graphSegments_Y c;
     Partial.graphSegments_X := Partial.graphSegments_X c;
     Partial.titleColor := Partial.titleColor c;
     Partial.xTextColor := Partial.xTextColor c;
     Partial.yTextColor := Partial.yTextColor c;
     Partial.yTextSize := Partial.yTextSize c;
     Partial.xSegmentColor := Partial.xSegmentColor c;
     Partial.ySegmentColor := Partial.ySegmentColor c;
     Partial.graphValuePrecision := Partial.graphValuePrecision c;
     Partial.verbose := Partial.verbose c |}.

(** A chart with its [bar_spacing] blotted out. *)
Definition erase_spacing (t : Graph) : Graph :=
  with_options (with_bar_spacing 0 (_options t)) t.

(** Two worlds that agree on the drawing surface and on everything of
    the chart but [bar_spacing]. *)
Definition agree (w1 w2 : World) : Prop :=
  canvas w1 = canvas w2
  /\ erase_spacing (this w1) = erase_spacing (this w2).

(** Two outcomes of the same kind, with the same result (or the same
    error), in worlds that agree. *)
Definition agree_outcome {A} (o1 o2 : Outcome A) : Prop :=
  match o1, o2 with
  | Returns x w1, Returns y w2 => x = y /\ agree w1 w2
  | Throws e w1, Throws e' w2 => e = e' /\ agree w1 w2
  | OutOfFuel, OutOfFuel => True
  | _, _ => False
  end.

(** Two computations that cannot be told apart through worlds that
    agree. *)
Definition alike {A} (m1 m2 : M A) : Prop :=
  forall w1 w2, agree w1 w2 -> agree_outcome (m1 w1) (m2 w2).

(* ================================================================== *)
(** * Vocabulary for binary64 arithmetic                               *)
(* ================================================================== *)

Local Open Scope Z_scope.

(** A shift record that has lost nothing. *)
Definition exact_record (m : Z) : shr_record :=
  {| shr_m := m; shr_r := false; shr_s := false |}.

(** The value of [m * 2^e] in units of the smallest positive number. *)
Definition scaled (m : positive) (e : Z) : Z := Zpos m * 2 ^ (e + 1074).

(** The canonical representation of an integer [0 < z < 2^53]. *)
Definition canon_m (z : Z) : positive := Z.to_pos (z * 2 ^ (52 - Z.log2 z)).
Definition canon_e (z : Z) : Z := Z.log2 z - 52.

(** The number that is the integer [z], for [|z| < 2^53]. *)
Definition int_sf (z : Z) : spec_float :=
  match z with
  | Z0 => S754_zero false
  | Zpos _ => S754_finite false (canon_m z) (canon_e z)
  | Zneg p => S754_finite true (canon_m (Zpos p)) (canon_e (Zpos p))
  end.

(** The value of a number in units of the smallest positive one. *)
Definition sval (x : spec_float) : Z :=
  match x with
  | S754_finite s m e => if s then - scaled m e else scaled m e
  | _ => 0
  end.

Local Open Scope float_scope.

(* ================================================================== *)
(** * Vocabulary for the painting loops                              *)
(* ================================================================== *)

(** The world after the surface has received [calls]. *)
Definition push (calls : list Cmd) (w : World) : World :=
  {| this := this w;
     canvas :=
       {| is_ready := is_ready (canvas w);
          WIDTH := WIDTH (canvas w);
          HEIGHT := HEIGHT (canvas w);
          ctx := (ctx (canvas w) ++ calls)%list |};
     console := console w |}.

(** The calls of one pass of the bar loop for the entry of slot [i]
    (lines 290-302); [text] is the entry's formatted value. *)
Definition bar_calls (F : Frame) (yMax i : number) (entry : BarEntry)
    (text : string) : list Cmd :=
  let t := frame_this F in
  let o := _options t in
  let H := frame_HEIGHT F in
  let X := _x_padding t + (frame_WIDTH F - _x_padding t) / graphSegments_X o * i in
  let Y :=
    bar_height (val entry) yMax
      (H / graphSegments_Y o * (graphSegments_Y o - 2)) in
  ([SetFillStyle (color entry); BeginPath; bar_rect F yMax i entry; ClosePath]
   ++ match valueLabel entry with
      | VLNull => []
      | VLString s => [FillText s (X + 5) (H - _y_offset t - Y - 10)]
      | VLUndefined => [FillText text (X + 5) (H - _y_offset t - Y - 10)]
      end)%list.

(** The bar loop's body as [_draw_bars] starts it in the frame [F]. *)
Definition bar_in (F : Frame) (yMax : number) : number -> M bool :=
  let t := frame_this F in
  let o := _options t in
  let H := frame_HEIGHT F in
  bar H (H / graphSegments_Y o * (graphSegments_Y o - 2))
    ((frame_WIDTH F - _x_padding t) / graphSegments_X o)
    (bar_width o) (graphValuePrecision o) yMax.

(** How a run of the painting code ends: all its calls made, or cut
    short by a RangeError after the calls made until then. *)
Inductive Run :=
| Done (calls : list Cmd)
| Thrown (calls : list Cmd).

Definition prepend (calls : list Cmd) (r : Run) : Run :=
  match r with
  | Done c => Done (calls ++ c)
  | Thrown c => Thrown (calls ++ c)
  end.

(** The outcome of a computation that runs as [r] says. *)
Definition outcome_of {A} (x : A) (r : Run) (w : World) : Outcome A :=
  match r with
  | Done c => Returns x (push c w)
  | Thrown c => Throws RangeError (push c w)
  end.

(** The bar loop from slot [k] on, with the entries [rest] of the slots
    from [k] on: one bar per entry while the slot test
    [k < graphSegments_X] holds. *)
Fixpoint bars_run (F : Frame) (yMax : number) (k : nat)
    (rest : list BarEntry) : Run :=
  match rest with
  | [] => Done []
  | e :: rest' =>
      if JS.of_nat k <? graphSegments_X (_options (frame_this F)) then
        match format_number (graphValuePrecision (_options (frame_this F)))
                (val e) with
        | Some s =>
            prepend (bar_calls F yMax (JS.of_nat k) e s)
              (bars_run F yMax (S k) rest')
        | None =>
            Thrown [SetFillStyle (color e); BeginPath;
                    bar_rect F yMax (JS.of_nat k) e; ClosePath]
        end
      else Done []
  end.

(** [_draw_bars()] in the frame [F]: [save], the bars, [restore]; a
    throw leaves the saved state unrestored. *)
Definition draw_bars_run (F : Frame) : Run :=
  prepend [Save]
    match bars_run F (yMax (_options (frame_this F))) 0
            (_entries (frame_this F)) with
    | Done c => Done (c ++ [Restore])
    | Thrown c => Thrown c
    end.

(** The rectangles among some calls. *)
Definition rects (l : list Cmd) : list Cmd := filter is_FillRect l.

(** The rectangles of the bars of [rest], in the slots from [k] on. *)
Definition bar_rects (F : Frame) (yMax : number) (k : nat)
    (rest : list BarEntry) : list Cmd :=
  map (fun ie => bar_rect F yMax (JS.of_nat (fst ie)) (snd ie))
    (combine (seq k (List.length rest)) rest).

(** [n] passes from the counter [k] on; [pass j] is what the pass with
    the counter [j] does, and a pass that throws ends the loop. *)
Fixpoint passes (pass : nat -> Run) (k n : nat) : Run :=
  match n with
  | O => Done []
  | S n' =>
      match pass k with
      | Done c => prepend c (passes pass (S k) n')
      | Thrown c => Thrown c
      end
  end.

(** The calls that paint one tick mark at [(x, y)] (lines 212-217 and
    235-240). *)
Definition mark (x y : number) : list Cmd :=
  [SetFillStyle "#ECF0F1"; SetStrokeStyle "#ECF0F1"; BeginPath;
   Arc x y 2 0 (Math_PI * 2); ClosePath; Fill].

(** The value a y-axis tick is labelled with (line 223). *)
Definition y_tick_value (F : Frame) (i : number) : number :=
  let t := frame_this F in
  let o := _options t in
  let H := frame_HEIGHT F in
  let y_height_px := H / graphSegments_Y o in
  let Y := H - y_height_px * i - _y_padding t in
  Utils.normalize ((H - _y_padding t - Y) * yMax o) 0
    (y_height_px * (graphSegments_Y o - 2)).

(** One pass of the y-axis loop with the counter [i]. *)
Definition y_pass (F : Frame) (i : number) : Run :=
  let t := frame_this F in
  let o := _options t in
  let H := frame_HEIGHT F in
  let Y := H - H / graphSegments_Y o * i - _y_padding t in
  let calls :=
    (mark (_x_padding t) Y
     ++ [SetFillStyle (ySegmentColor o); SetStrokeStyle (ySegmentColor o)])%list in
  match format_number (graphValuePrecision o) (y_tick_value F i) with
  | Some s =>
      Done (calls
            ++ [FillText s
                  (_x_padding t - (10 + JS.of_nat (String.length s) * 5.5))
                  (Y + 3)])%list
  | None => Thrown calls
  end.

(** [tick_label] without the world: [None] where [toFixed] throws. *)
Definition tick_label_of (entry : option BarEntry)
    (graphValuePrecision i : number) : option StrOrNum :=
  let f := entryFloatVal entry in
  match label_of entry with
  | Some l =>
      match
        (if JS.isNaN f then Some (Str l)
         else if negb (JS.truthy (JS.rem1 f)) then Some (Num f)
         else option_map Str (JS.toFixed f graphValuePrecision))
      with
      | Some v => Some (if truthy v then v else Num i)
      | None => None
      end
  | None => Some (Num i)
  end.

(** One pass of the x-axis loop with the counter [i], where [entry] is
    what the store holds at [i]. *)
Definition x_pass (F : Frame) (i : number) (entry : option BarEntry) : Run :=
  let t := frame_this F in
  let o := _options t in
  let H := frame_HEIGHT F in
  let X := _x_padding t + (frame_WIDTH F - _x_padding t) / graphSegments_X o * i in
  let calls :=
    (mark X (H - _y_padding t)
     ++ [SetFillStyle (xSegmentColor o); SetStrokeStyle (xSegmentColor o);
         SetFont (JS.toString (yTextSize o) ++ "px Cochin")])%list in
  match label_of entry with
  | Some "" => Done calls
  | _ =>
      match tick_label_of entry (graphValuePrecision o) i with
      | Some v => Done (calls ++ [FillText (toStr v) X (H - _y_offset t + 12)])%list
      | None => Thrown calls
      end
  end.

(** The bodies of the two loops as [_draw_graph_segments] starts them. *)
Definition y_segment_in (F : Frame) : number -> M bool :=
  let o := _options (frame_this F) in
  let H := frame_HEIGHT F in
  y_segment H (H / graphSegments_Y o)
    (H / graphSegments_Y o * (graphSegments_Y o - 2)) (graphValuePrecision o).

Definition x_segment_in (F : Frame) : number -> M bool :=
  let t := frame_this F in
  let o := _options t in
  x_segment (frame_HEIGHT F)
    ((frame_WIDTH F - _x_padding t) / graphSegments_X o) (graphValuePrecision o).

(** The world after the derivation step of [_draw_graph_segments]
    (lines 200-203): the axis maximum derived if it was unset, and
    logged if the chart is verbose. *)
Definition derive_world (w : World) : World :=
  {| this := derive_yMax (this w);
     canvas := canvas w;
     console :=
       if (yMax_of w =? -1) && verbose (_options (this w))
       then (console w
             ++ [{| message := "yMax Evaluated to: ";
                    argument :=
                      NumArg (Utils.max (map val (_entries (this w)))) |}])%list
       else console w |}.

(** The tick loops for segment counts [M] (y axis) and [N] (x axis):
    the passes [0 .. M-2], then the passes [0 .. N-2]. *)
Definition y_ticks_run (F : Frame) (M : nat) : Run :=
  passes (fun k => y_pass F (JS.of_nat k)) 0 (pred M).

Definition x_ticks_run (F : Frame) (N : nat) : Run :=
  passes (fun k => x_pass F (JS.of_nat k)
                     (nth_error (_entries (frame_this F)) k)) 0 (pred N).

Definition ticks_run (F : Frame) (M N : nat) : Run :=
  match y_ticks_run F M with
  | Done c => prepend c (x_ticks_run F N)
  | Thrown c => Thrown c
  end.

(** The calls of [_draw_graph_outline()] (lines 154-189). *)
Definition outline_calls (F : Frame) : list Cmd :=
  let t := frame_this F in
  let o := _options t in
  let H := frame_HEIGHT F in
  let W := frame_WIDTH F in
  ([SetImageSmoothingEnabled true; SetImageSmoothingQuality "high"; Save;
    SetStrokeStyle (titleColor o); SetFillStyle (titleColor o);
    SetLineWidth 1.5]
   ++ (if truthy (Str (titleText o))
       then [DrawTextWithFont (titleText o) (W / 2 - 30) (_y_offset t)
               "12pt Cochin"]
       else [])
   ++ [SetStrokeStyle (xTextColor o); SetFillStyle (xTextColor o)]
   ++ (if truthy (Str (xAxisText o))
       then [FillText (xAxisText o) (W / 2 - 10) (H - _y_offset t / 2 + 10)]
       else [])
   ++ [BeginPath; LineTo (_x_padding t) (H - _y_padding t);
       LineTo (_x_padding t) (_y_padding t); Stroke; ClosePath;
       SetStrokeStyle (yTextColor o); SetFillStyle (yTextColor o)]
   ++ (if truthy (Str (yAxisText o))
       then [FillText (yAxisText o) (_x_offset t / 2 - 8) (H / 2)]
       else [])
   ++ [BeginPath; LineTo (_x_padding t) (H - _y_padding t);
       LineTo (W - _x_padding t) (H - _y_padding t); Stroke; ClosePath;
       Restore])%list.

(** The call [draw()] opens with (lines 312-313). *)
Definition background_call (t : Graph) : Cmd :=
  let c := backgroundColor (_options t) in
  Background (r c) (g c) (b c) (a c).

(** The whole of [draw()] for segment counts [M] and [N]. *)
Definition draw_outcome (M N : nat) (w : World) : Outcome unit :=
  let F := frame_of w in
  match draw_bars_run F with
  | Thrown c => Throws RangeError (push (background_call (this w) :: c) w)
  | Done c =>
      let w1 :=
        derive_world
          (push (background_call (this w) :: c ++ outline_calls F) w) in
      outcome_of tt (ticks_run (frame_of w1) M N) w1
  end.

(* ================================================================== *)
(** * Vocabulary for the whole of the class                          *)
(* ================================================================== *)

(** ** What [draw()] leaves alone *)

(** The parts of the world that are the same in [w] and [w']. *)
Definition chart_kept (w w' : World) : Prop :=
  _entries (this w') = _entries (this w)
  /\ _x_padding (this w') = _x_padding (this w)
  /\ _y_padding (this w') = _y_padding (this w)
  /\ _x_offset (this w') = _x_offset (this w)
  /\ _y_offset (this w') = _y_offset (this w)
  /\ with_yMax 0 (_options (this w')) = with_yMax 0 (_options (this w))
  /\ WIDTH (canvas w') = WIDTH (canvas w)
  /\ HEIGHT (canvas w') = HEIGHT (canvas w)
  /\ exists new, ctx (canvas w') = (ctx (canvas w) ++ new)%list.

(** ** Properties that painting keeps *)

(** The two tick loops of [_draw_graph_segments] (lines 205-265), with
    what the method has read before them. *)
Definition tick_loops (fuel : nat) (H W gY gX p : number) : M unit :=
  for_loop fuel (fun i => i <? gY - 1)
    (y_segment H (H / gY) (H / gY * (gY - 2)) p) 0 ;;
  t <- get_this ;;
  for_loop fuel (fun i => i <? gX - 1)
    (x_segment H ((W - _x_padding t) / gX) p) 0.

(** A property of the world that a computation keeps, whether it
    returns or throws. *)
Definition keeps {A} (P : World -> Prop) (m : M A) : Prop :=
  forall w,
    P w ->
    match m w with
    | Returns _ w' => P w'
    | Throws _ w' => P w'
    | OutOfFuel => True
    end.

(** ** The shared surface *)

(** The surface is ready and has the size [W] by [H]. *)
Definition surface_is (W H : number) (w : World) : Prop :=
  is_ready (canvas w) = true
  /\ WIDTH (canvas w) = W
  /\ HEIGHT (canvas w) = H.

(** ** The console *)

(** The console holds [log] and the chart is not verbose. *)
Definition quiet_at (log : list LogEntry) (w : World) : Prop :=
  console w = log /\ verbose (_options (this w)) = false.

(** ** Loops whose counter is any number *)

(** The counters of [n] passes of a loop that starts at [i]: [i],
    [i + 1], [i + 1 + 1], ... (floating-point additions). *)
Fixpoint count_from (i : number) (n : nat) : list number :=
  match n with
  | O => []
  | S n' => i :: count_from (i + 1) n'
  end.

(** The counter after [n] passes of a loop that starts at [i]. *)
Fixpoint counter (i : number) (n : nat) : number :=
  match n with
  | O => i
  | S n' => counter (i + 1) n'
  end.

(** The passes with the counters [js], one after the other; a pass
    that throws ends them. *)
Fixpoint ticks (pass : number -> Run) (js : list number) : Run :=
  match js with
  | [] => Done []
  | j :: js' =>
      match pass j with
      | Done c => prepend c (ticks pass js')
      | Thrown c => Thrown c
      end
  end.

(** The x-axis pass for the counter [i], with the entry the store
    holds there. *)
Definition x_tick (F : Frame) (i : number) : Run :=
  x_pass F i (element (_entries (frame_this F)) i).

(** The two tick loops, of [m] and [n] passes. *)
Definition tick_runs (F : Frame) (m n : nat) : Run :=
  match ticks (y_pass F) (count_from 0 m) with
  | Done c => prepend c (ticks (x_tick F) (count_from 0 n))
  | Thrown c => Thrown c
  end.

(** ** When [toFixed] throws *)

(** The digit counts [toFixed] accepts: those whose integer part lies
    within 0..100 ([NaN] counts as 0). *)
Definition precision_ok (p : number) : bool :=
  match JS.to_integer_or_infinity p with
  | Some f => (0 <=? f)%Z && (f <=? 100)%Z
  | None => false
  end.

(** ** More sample charts *)

(** The options [o] with logging switched on or off. *)
Definition with_verbose (v : bool) (o : GraphOptions) : GraphOptions :=
  {| width := width o; height := height o;
     backgroundColor := backgroundColor o;
     titleText := titleText o; xAxisText := xAxisText o;
     yAxisText := yAxisText o;
     yMax := yMax o;
     yPadding := yPadding o; xPadding := xPadding o;
     bar_width := bar_width o; bar_spacing := bar_spacing o;
     graphSegments_Y := graphSegments_Y o;
     graphSegments_X := graphSegments_X o;
     titleColor := titleColor o; xTextColor := xTextColor o;
     yTextColor := yTextColor o; yTextSize := yTextSize o;
     xSegmentColor := xSegmentColor o; ySegmentColor := ySegmentColor o;
     graphValuePrecision := graphValuePrecision o;
     verbose := v |}.

(** A configuration with the given segment counts and precision, and
    the defaults elsewhere. *)
Definition sample_options (gY gX p : number) : Partial.GraphOptions :=
  {| Partial.width := None; Partial.height := None;
     Partial.backgroundColor := None;
     Partial.titleText := None; Partial.xAxisText := None;
     Partial.yAxisText := None;
     Partial.yMax := None;
     Partial.yPadding := None; Partial.xPadding := None;
     Partial.bar_width := None; Partial.bar_spacing := None;
     Partial.graphSegments_Y := Some gY;
     Partial.graphSegments_X := Some gX;
     Partial.titleColor := None; Partial.xTextColor := None;
     Partial.yTextColor := None; Partial.yTextSize := None;
     Partial.xSegmentColor := None; Partial.ySegmentColor := None;
     Partial.graphValuePrecision := Some p;
     Partial.verbose := None |}.

(** The chart of that configuration on a new surface, with entries of
    the given values added. *)
Definition sample_chart (gY gX p : number) (vals : list number) : World :=
  after (map (fun v => Add (sample_entry v)) vals)
    (constructor (Some (sample_options gY gX p)) Canvas.fresh []).

(** ** A bar that cannot be formatted *)

Definition hidden_value_entry (v : number) : BarEntry :=
  {| val := v; label := None; color := "red"; valueLabel := VLNull |}.

(** ** Saved and restored drawing states *)

Definition is_Save (c : Cmd) : bool :=
  match c with Save => true | _ => false end.

Definition is_Restore (c : Cmd) : bool :=
  match c with Restore => true | _ => false end.

Definition is_Arc (c : Cmd) : bool :=
  match c with Arc _ _ _ _ _ => true | _ => false end.

(** How many of the calls are of a kind. *)
Definition count (kind : Cmd -> bool) (l : list Cmd) : nat :=
  List.length (filter kind l).

(** A call that neither saves nor restores the drawing state. *)
Definition calm (c : Cmd) : Prop := is_Save c = false /\ is_Restore c = false.

(** The calls a run has made. *)
Definition run_calls (r : Run) : list Cmd :=
  match r with
  | Done c => c
  | Thrown c => c
  end.

(** ** The outline *)

Definition is_Stroke (c : Cmd) : bool :=
  match c with Stroke => true | _ => false end.

(** The texts among some calls, painted by [fillText] or by
    [drawTextWithFont]. *)
Definition captions (l : list Cmd) : list string :=
  flat_map (fun c =>
              match c with
              | FillText s _ _ => [s]
              | DrawTextWithFont s _ _ _ => [s]
              | _ => []
              end) l.

(** The points of the [lineTo] calls among some calls. *)
Definition line_points (l : list Cmd) : list (number * number) :=
  flat_map (fun c => match c with LineTo x y => [(x, y)] | _ => [] end) l.

(** ** The offsets *)

(** The four offsets of the chart are the base offsets of the class
    (lines 65-68) moved by the paddings [xp] and [yp]. *)
Definition offsets_are (xp yp : number) (w : World) : Prop :=
  _x_padding (this w) = 50 + xp
  /\ _y_padding (this w) = 30 + yp
  /\ _x_offset (this w) = 30 + xp
  /\ _y_offset (this w) = 30 + yp
  /\ xPadding (_options (this w)) = xp
  /\ yPadding (_options (this w)) = yp.

(* ================================================================== *)
(** * Vocabulary for the bars of a frame                             *)
(* ================================================================== *)

(** ** The first frame of an auto-scaled chart *)

(** The bar loop fills the slots [0 .. n-1]: of a store of [len]
    entries, those are the leading ones whose slot passes the test
    [i < graphSegments_X] (lines 283-285). *)
Definition leading_slots (gX : number) (len n : nat) : Prop :=
  (n <= len)%nat
  /\ (forall j, (j < n)%nat -> (JS.of_nat j <? gX) = true)
  /\ ((n < len)%nat -> (JS.of_nat n <? gX) = false).


(* ================================================================== *)
(** * Vocabulary for slots, ticks and heights                        *)
(* ================================================================== *)

(** ** The ticks of the x axis *)


(** ** The height of a bar *)

(** A configuration with the given height and axis maximum, and the
    defaults elsewhere. *)
Definition sized_options (h y : number) : Partial.GraphOptions :=
  {| Partial.width := None; Partial.height := Some h;
     Partial.backgroundColor := None;
     Partial.titleText := None; Partial.xAxisText := None;
     Partial.yAxisText := None;
     Partial.yMax := Some y;
     Partial.yPadding := None; Partial.xPadding := None;
     Partial.bar_width := None; Partial.bar_spacing := None;
     Partial.graphSegments_Y := None;
     Partial.graphSegments_X := None;
     Partial.titleColor := None; Partial.xTextColor := None;
     Partial.yTextColor := None; Partial.yTextSize := None;
     Partial.xSegmentColor := None; Partial.ySegmentColor := None;
     Partial.graphValuePrecision := None;
     Partial.verbose := None |}.

(** The smallest positive number, 2^-1074. *)
Definition tiny : number := 0x1p-1074.

(* ================================================================== *)
(** * Vocabulary for formatted numbers                               *)
(* ================================================================== *)

(** ** The shape of a formatted number *)





(* ================================================================== *)
(** * Vocabulary for loops of any count                              *)
(* ================================================================== *)

(** ** The height of a bar, in full *)

(** A computation that ends in the world [w], by returning or by
    throwing. *)
Definition ends_in {A} (o : Outcome A) (w : World) : Prop :=
  (exists x, o = Returns x w) \/ (exists e, o = Throws e w).

(** ** The ticks of the x axis, for any segment count *)



(* ================================================================== *)
(** * Configuration resolution                                         *)
(* ================================================================== *)

Section Resolution.

Variable config : option Partial.GraphOptions.
Variables (cv : CanvasInstance) (log : list LogEntry).

Lemma constructor_options :
  _options (this (constructor config cv log)) = resolve config.
Proof.
  unfold constructor.
  destruct (negb (Canvas.ready cv)); reflexivity.
Qed.


End Resolution.

Lemma opt_or_default {A} (c : Partial.GraphOptions)
    (f : Partial.GraphOptions -> option A) (d : A) :
  opt (Some c) f d = or_default (f c) d.
Proof. reflexivity. Qed.

(** C8: a configuration object that supplies every field is resolved to
    exactly the supplied values, and where a field is absent (or no
    configuration object is given at all) the resolved configuration
    holds the documented default. *)
Theorem resolve_round_trip_and_defaults :
  (forall (o : GraphOptions) cv log,
      _options (this (constructor (Some (supply_all o)) cv log)) = o)
  /\ (forall cv log, _options (this (constructor None cv log)) = defaults)
  /\ (forall (c : Partial.GraphOptions) cv log,
        let o := _options (this (constructor (Some c) cv log)) in
        width o = or_default (Partial.width c) (width defaults)
        /\ height o = or_default (Partial.height c) (height defaults)
        /\ backgroundColor o
           = or_default (Partial.backgroundColor c) (backgroundColor defaults)
        /\ titleText o = or_default (Partial.titleText c) (titleText defaults)
        /\ xAxisText o = or_default (Partial.xAxisText c) (xAxisText defaults)
        /\ yAxisText o = or_default (Partial.yAxisText c) (yAxisText defaults)
        /\ yMax o = or_default (Partial.yMax c) (yMax defaults)
        /\ yPadding o = or_default (Partial.yPadding c) (yPadding defaults)
        /\ xPadding o = or_default (Partial.xPadding c) (xPadding defaults)
        /\ bar_width o = or_default (Partial.bar_width c) (bar_width defaults)
        /\ bar_spacing o
           = or_default (Partial.bar_spacing c) (bar_spacing defaults)
        /\ graphSegments_X o
           = or_default (Partial.graphSegments_X c) (graphSegments_X defaults)
        /\ graphSegments_Y o
           = or_default (Partial.graphSegments_Y c) (graphSegments_Y defaults)
        /\ titleColor o
           = or_default (Partial.titleColor c) (titleColor defaults)
        /\ xTextColor o
           = or_default (Partial.xTextColor c) (xTextColor defaults)
        /\ yTextColor o
           = or_default (Partial.yTextColor c) (yTextColor defaults)
        /\ yTextSize o = or_default (Partial.yTextSize c) (yTextSize defaults)
        /\ xSegmentColor o
           = or_default (Partial.xSegmentColor c) (xSegmentColor defaults)
        /\ ySegmentColor o
           = or_default (Partial.ySegmentColor c) (ySegmentColor defaults)
        /\ graphValuePrecision o
           = or_default (Partial.graphValuePrecision c)
               (graphValuePrecision defaults)
        /\ verbose o = or_default (Partial.verbose c) (verbose defaults)).
Proof.
  split; [| split].
  - intros o cv log. rewrite constructor_options. destruct o; reflexivity.
  - intros cv log. rewrite constructor_options. reflexivity.
  - intros c cv log o. subst o. rewrite constructor_options.
    unfold resolve; cbn [width height backgroundColor titleText xAxisText
      yAxisText yMax yPadding xPadding bar_width bar_spacing graphSegments_X
      graphSegments_Y titleColor xTextColor yTextColor yTextSize xSegmentColor
      ySegmentColor graphValuePrecision verbose].
    rewrite !opt_or_default.
    repeat split.
Qed.

(* ================================================================== *)
(** * Reading the drawing surface                                      *)
(* ================================================================== *)

Lemma skipn_length_app {A} (l l' : list A) :
  skipn (List.length l) (l ++ l')%list = l'.
Proof. induction l; simpl; auto. Qed.

Lemma emitted_app (w w' : World) (new : list Cmd) :
  ctx (canvas w') = (ctx (canvas w) ++ new)%list -> emitted w w' = new.
Proof. unfold emitted. intros ->. apply skipn_length_app. Qed.

Lemma texts_app (l l' : list Cmd) :
  texts (l ++ l') = (texts l ++ texts l')%list.
Proof. unfold texts. apply flat_map_app. Qed.

(** Unfolds the monad's plumbing on the goal. *)
Ltac step_monad :=
  cbn [bind ret get_this get_canvas set_this draw_call console_log when throw
       this canvas console Canvas.call is_ready WIDTH HEIGHT ctx].

Ltac norm_ctx := rewrite <- ?app_assoc; cbn [app].

(* ================================================================== *)
(** * Labels on the x axis                                             *)
(* ================================================================== *)

Lemma truthy_zero (f : number) : (f =? 0) = true -> JS.truthy f = false.
Proof.
  intros H. unfold JS.truthy, is_zero.
  change PrimFloat.zero with 0. now rewrite H.
Qed.

Lemma nonempty_truthy (l : string) : l <> "" -> truthy (Str l) = true.
Proof.
  intros H. unfold truthy.
  destruct (String.eqb_spec l ""); [contradiction | reflexivity].
Qed.

(** C10: when the entry of an x-axis slot has a defined, non-empty label
    that [Number.parseFloat] reads as zero, the tick text of the slot is
    that label itself, character for character. *)
Theorem zero_label_rendered_verbatim
    (HEIGHT X_SEGMENTS precision i : number) (w : World)
    (entry : BarEntry) (l : string)
    (Hentry : element (_entries (this w)) i = Some entry)
    (Hlabel : label entry = Some l)
    (Hnonempty : l <> "")
    (Hzero : (JS.parseFloat l =? 0) = true) :
  tick_label (Some entry) precision i w = Returns (Str l) w
  /\ exists w',
       x_segment HEIGHT X_SEGMENTS precision i w = Returns true w'
       /\ texts (emitted w w') = [l].
Proof.
  assert (Htick : tick_label (Some entry) precision i w = Returns (Str l) w).
  { unfold tick_label, entryFloatVal, label_of. rewrite Hlabel.
    rewrite (truthy_zero _ Hzero).
    change (JS.isNaN nan) with true. step_monad.
    now rewrite (nonempty_truthy _ Hnonempty). }
  split; [exact Htick |].
  unfold x_segment. step_monad. rewrite Hentry.
  cbn [label_of]. rewrite Hlabel.
  destruct l as [| c l']; [congruence |].
  unfold bind at 1. 
  match goal with
  | |- context [tick_label ?e ?p ?j ?w0] =>
      assert (Ht : tick_label e p j w0 = Returns (Str (String c l')) w0)
  end.
  { unfold tick_label, entryFloatVal, label_of. rewrite Hlabel.
    rewrite (truthy_zero _ Hzero).
    change (JS.isNaN nan) with true. step_monad.
    reflexivity. }
  rewrite Ht. step_monad.
  eexists; split; [reflexivity |].
  erewrite emitted_app by (step_monad; norm_ctx; reflexivity).
  reflexivity.
Qed.

Lemma zero_label_rendered_verbatim_witness :
  let entry := labelled_entry 5 "0.0" in
  let w := after [Add entry] default_chart in
  element (_entries (this w)) 0 = Some entry
  /\ label entry = Some "0.0"
  /\ "0.0" <> ""
  /\ (JS.parseFloat "0.0" =? 0) = true
  /\ tick_label (Some entry) 2 0 w = Returns (Str "0.0") w
  /\ exists w',
       x_segment 480 67 2 0 w = Returns true w'
       /\ texts (emitted w w') = ["0.0"].
Proof.
  intros entry w.
  assert (H1 : element (_entries (this w)) 0 = Some entry) by reflexivity.
  assert (H2 : label entry = Some "0.0") by reflexivity.
  assert (H3 : "0.0" <> "") by discriminate.
  assert (H4 : (JS.parseFloat "0.0" =? 0) = true) by (vm_compute; reflexivity).
  pose proof (zero_label_rendered_verbatim 480 67 2 0 w entry "0.0"
                H1 H2 H3 H4) as (Ht & Hx).
  exact (conj H1 (conj H2 (conj H3 (conj H4 (conj Ht Hx))))).
Defined.

(* ================================================================== *)
(** * One bar                                                          *)
(* ================================================================== *)

(** [bar_val] is the formatting rule: it yields the formatted value, or
    throws where [toFixed] does. *)
Lemma bar_val_format (y precision : number) (w : World) :
  match format_number precision y with
  | Some s =>
      exists v, bar_val y precision w = Returns v w /\ toStr v = s
  | None => bar_val y precision w = Throws RangeError w
  end.
Proof.
  unfold format_number, bar_val, toFixed.
  destruct (JS.rem1 y =? 0); cbn [negb].
  - eexists; split; reflexivity.
  - destruct (JS.toFixed y precision).
    + eexists; split; reflexivity.
    + reflexivity.
Qed.

(* ================================================================== *)
(** * Painting leaves the chart alone                                  *)
(* ================================================================== *)

Section Paints.

Variable F : Frame.
Variable Q : Cmd -> Prop.

Lemma steps_refl (w : World) : steps Q w w.
Proof.
  repeat split. exists []. now rewrite app_nil_r.
Qed.

Lemma steps_trans (w1 w2 w3 : World) :
  steps Q w1 w2 -> steps Q w2 w3 -> steps Q w1 w3.
Proof.
  intros (Ht & HW & HH & n1 & Hc1 & Hq1) (Ht' & HW' & HH' & n2 & Hc2 & Hq2).
  repeat split; try congruence.
  exists (n1 ++ n2)%list. split.
  - now rewrite Hc2, Hc1, app_assoc.
  - now apply Forall_app.
Qed.

Lemma steps_in_frame (w w' : World) :
  in_frame F w -> steps Q w w' -> in_frame F w'.
Proof.
  intros (Ht & HW & HH) (Ht' & HW' & HH' & _). repeat split; congruence.
Qed.

Lemma paints_ret {A} (x : A) : paints F Q (ret x).
Proof. intros w _. apply steps_refl. Qed.

Lemma paints_throw {A} (e : Error) : paints F Q (@throw A e).
Proof. intros w _. apply steps_refl. Qed.

Lemma paints_bind {A B} (m : M A) (k : A -> M B) :
  paints F Q m -> (forall x, paints F Q (k x)) -> paints F Q (bind m k).
Proof.
  intros Hm Hk w Hw. unfold bind. specialize (Hm w Hw).
  destruct (m w) as [x w1 | e w1 |]; auto.
  specialize (Hk x w1 (steps_in_frame _ _ Hw Hm)).
  destruct (k x w1); auto; eapply steps_trans; eauto.
Qed.

Lemma paints_get_this {B} (k : Graph -> M B) :
  paints F Q (k (frame_this F)) -> paints F Q (bind get_this k).
Proof.
  intros Hk w Hw. unfold bind, get_this.
  destruct Hw as (Ht & HW & HH). rewrite Ht. apply Hk. now repeat split.
Qed.

Lemma paints_get_canvas {B} (k : CanvasInstance -> M B) :
  (forall cv, WIDTH cv = frame_WIDTH F -> HEIGHT cv = frame_HEIGHT F ->
              paints F Q (k cv)) ->
  paints F Q (bind get_canvas k).
Proof.
  intros Hk w Hw. unfold bind, get_canvas.
  apply Hk; auto; apply Hw.
Qed.

Lemma paints_draw_call (c : Cmd) : Q c -> paints F Q (draw_call c).
Proof.
  intros Hc w _. cbn. repeat split. exists [c]. split; auto.
Qed.

Lemma paints_when (c : bool) (m : M unit) :
  paints F Q m -> paints F Q (when c m).
Proof. intros Hm. destruct c; [exact Hm | apply paints_ret]. Qed.

Lemma paints_toFixed (x p : number) : paints F Q (toFixed x p).
Proof.
  unfold toFixed. destruct (JS.toFixed x p); auto using paints_ret, paints_throw.
Qed.

Lemma paints_for_loop (fuel : nat) (cond : number -> bool)
    (body : number -> M bool) :
  (forall i, paints F Q (body i)) ->
  forall i, paints F Q (for_loop fuel cond body i).
Proof.
  intros Hbody. induction fuel as [| fuel IH]; intros i; cbn [for_loop].
  - now intros w _.
  - destruct (cond i); [| apply paints_ret].
    apply paints_bind; [apply Hbody |].
    intros [|]; [apply IH | apply paints_ret].
Qed.

End Paints.

Lemma paints_weaken {A} (F : Frame) (Q Q' : Cmd -> Prop) (m : M A) :
  (forall c, Q c -> Q' c) -> paints F Q m -> paints F Q' m.
Proof.
  intros HQ Hm w Hw. specialize (Hm w Hw).
  assert (Hs : forall w', steps Q w w' -> steps Q' w w').
  { intros w' (Ht & HW & HH & new & Hc & Hq). repeat split; auto.
    exists new. split; auto. eapply Forall_impl; eauto. }
  destruct (m w); auto.
Qed.

Create HintDb paints.
#[local] Hint Resolve paints_ret paints_throw paints_draw_call paints_when
  paints_toFixed : paints.

(** Splits a computation into its calls; what is left are the side
    conditions on single calls. *)
Ltac paint_step :=
  lazymatch goal with
  | |- paints _ _ (bind get_this _) => apply paints_get_this
  | |- paints _ _ (bind get_canvas _) =>
      apply paints_get_canvas; intros ? ? ?
  | |- paints _ _ (bind _ _) => apply paints_bind; [| intros ?]
  | |- paints _ _ (ret _) => apply paints_ret
  | |- paints _ _ (throw _) => apply paints_throw
  | |- paints _ _ (toFixed _ _) => apply paints_toFixed
  | |- paints _ _ (when _ _) => apply paints_when
  | |- paints _ _ (draw_call _) => apply paints_draw_call
  | |- paints _ _ (for_loop _ _ _ _) => apply paints_for_loop; intros ?
  end.

Ltac paint := repeat paint_step.

Section PaintingMethods.

Variable F : Frame.

Lemma paints_yValStr (Q : Cmd -> Prop) (v p : number) :
  paints F Q (yValStr v p).
Proof. unfold yValStr. destruct (JS.rem1 v =? 0); paint. Qed.

Lemma paints_tick_label (Q : Cmd -> Prop) entry (p i : number) :
  paints F Q (tick_label entry p i).
Proof.
  unfold tick_label. destruct (label_of entry); [| paint].
  apply paints_bind; [| intros ?; paint].
  destruct (JS.isNaN _); [paint |].
  destruct (negb _); paint.
Qed.

Lemma paints_bar_val (Q : Cmd -> Prop) (y p : number) :
  paints F Q (bar_val y p).
Proof. unfold bar_val. destruct (negb _); paint. Qed.

Lemma outline_no_rect : paints F no_rect _draw_graph_outline.
Proof. unfold _draw_graph_outline. paint; reflexivity. Qed.

Lemma y_segment_no_rect (H h m p i : number) :
  paints F no_rect (y_segment H h m p i).
Proof.
  unfold y_segment. paint; try reflexivity. apply paints_yValStr.
Qed.

Lemma x_segment_no_rect (H xs p i : number) :
  paints F no_rect (x_segment H xs p i).
Proof.
  unfold x_segment. paint; try reflexivity.
  destruct (label_of _) as [[| c l] |]; paint; try reflexivity;
    apply paints_tick_label.
Qed.

(** Every rectangle painted in one pass of the bar loop is the bar of an
    entry of the store, scaled by the [yMax] the loop was started with. *)
Lemma bar_scaled (yMax i : number) :
  let t := frame_this F in
  let o := _options t in
  let H := frame_HEIGHT F in
  paints F (bars_scaled_by F yMax)
    (bar H (H / graphSegments_Y o * (graphSegments_Y o - 2))
       ((frame_WIDTH F - _x_padding t) / graphSegments_X o)
       (bar_width o) (graphValuePrecision o) yMax i).
Proof.
  intros t o H. unfold bar. apply paints_get_this. fold t.
  destruct (length_of (_entries t) <=? i); [paint |].
  destruct (element (_entries t) i) as [entry |] eqn:Hentry; [| paint].
  paint; try (intros Hc; discriminate Hc).
  - intros _. exists i, entry. split; [exact Hentry | reflexivity].
  - apply paints_bar_val.
  - destruct (valueLabel entry); paint; intros Hc; discriminate Hc.
Qed.

Lemma draw_bars_scaled (fuel : nat) :
  paints F (bars_scaled_by F (yMax (_options (frame_this F))))
    (_draw_bars fuel).
Proof.
  unfold _draw_bars.
  apply paints_get_canvas; intros cv HW HH. apply paints_get_this.
  rewrite HW, HH.
  paint; try (intros Hc; discriminate Hc).
  apply bar_scaled.
Qed.

End PaintingMethods.

(* ================================================================== *)
(** * What [draw] does to the chart                                    *)
(* ================================================================== *)

Lemma no_rect_scaled (F : Frame) (y : number) (c : Cmd) :
  no_rect c -> bars_scaled_by F y c.
Proof. unfold no_rect, bars_scaled_by. congruence. Qed.

Lemma segments_derive (fuel : nat) (w : World) :
  match _draw_graph_segments fuel w with
  | Returns _ w' => derives no_rect w w'
  | Throws _ w' => derives no_rect w w'
  | OutOfFuel => True
  end.
Proof.
  unfold _draw_graph_segments. unfold bind at 1, get_canvas.
  unfold bind at 1, get_this.
  set (t := this w).
  match goal with
  | |- context [bind ?m ?k w] =>
      set (rest := k) ; set (upd := m)
  end.
  pose (t1 := derive_yMax t).
  assert (Hupd : exists w1,
             upd w = Returns tt w1 /\ this w1 = t1
             /\ canvas w1 = canvas w).
  { subst upd t1. unfold derive_yMax. fold t.
    destruct (yMax (_options t) =? -1).
    - unfold bind, set_this. destruct (verbose (_options t)); cbn;
        eexists; repeat split.
    - eexists; repeat split. }
  destruct Hupd as (w1 & Hw1 & Ht1 & Hc1).
  unfold bind at 1. rewrite Hw1.
  assert (Hrest : paints (frame_of w1) no_rect (rest tt)).
  { subst rest. cbv beta.
    apply paints_bind.
    - apply paints_for_loop. intros i. apply y_segment_no_rect.
    - intros _. apply paints_get_this.
      apply paints_for_loop. intros i. apply x_segment_no_rect. }
  specialize (Hrest w1 (conj eq_refl (conj eq_refl eq_refl))).
  assert (Hs : forall w', steps no_rect w1 w' -> derives no_rect w w').
  { intros w' (Ht & HW & HH & Hnew). unfold derives.
    rewrite Ht, HW, HH, Ht1, Hc1. repeat split.
    destruct Hnew as (new & Hctx & Hq). exists new.
    rewrite Hctx, Hc1. auto. }
  destruct (rest tt w1); auto.
Qed.

(** Before the axis step, [draw] has only painted. *)
Lemma draw_prefix_paints (F : Frame) (fuel : nat) :
  paints F (bars_scaled_by F (yMax (_options (frame_this F))))
    (_draw_bars fuel ;; _draw_graph_outline).
Proof.
  apply paints_bind; [apply draw_bars_scaled |].
  intros _. eapply paints_weaken; [| apply outline_no_rect].
  apply no_rect_scaled.
Qed.

(** The effect of [draw()]: what it paints as bars is scaled by the
    axis maximum held when it was called, and it leaves the chart with
    the derived axis maximum. *)
Lemma draw_effect (fuel : nat) (w : World) :
  match draw fuel w with
  | Returns _ w' => derives (bars_scaled_by (frame_of w) (yMax_of w)) w w'
  | Throws _ w' =>
      steps (bars_scaled_by (frame_of w) (yMax_of w)) w w'
      \/ derives (bars_scaled_by (frame_of w) (yMax_of w)) w w'
  | OutOfFuel => True
  end.
Proof.
  set (Q := bars_scaled_by (frame_of w) (yMax_of w)).
  assert (Hfold : draw fuel w
          = bind (draw_call (let c := backgroundColor (_options (this w)) in
                             Background (r c) (g c) (b c) (a c)) ;;
                  (_draw_bars fuel ;; _draw_graph_outline))
                 (fun _ => _draw_graph_segments fuel) w).
  { unfold draw, bind, get_this, draw_call.
    destruct (_draw_bars fuel _); reflexivity. }
  rewrite Hfold. clear Hfold.
  assert (Hpre : paints (frame_of w) Q
            (draw_call (let c := backgroundColor (_options (this w)) in
                        Background (r c) (g c) (b c) (a c)) ;;
             (_draw_bars fuel ;; _draw_graph_outline))).
  { apply paints_bind.
    - apply paints_draw_call. intros Hc. discriminate Hc.
    - intros _. apply draw_prefix_paints. }
  specialize (Hpre w (conj eq_refl (conj eq_refl eq_refl))).
  unfold bind at 1.
  destruct (bind (draw_call _) _ w) as [x w1 | e w1 |]; auto.
  pose proof (segments_derive fuel w1) as Hseg.
  assert (Hs : forall w', derives no_rect w1 w' -> derives Q w w').
  { intros w' (Ht & HW & HH & new & Hctx & Hq).
    destruct Hpre as (Ht1 & HW1 & HH1 & new1 & Hctx1 & Hq1).
    unfold derives. rewrite Ht, HW, HH, Ht1, HW1, HH1. repeat split.
    exists (new1 ++ new)%list. split.
    - now rewrite Hctx, Hctx1, app_assoc.
    - apply Forall_app. split; auto.
      eapply Forall_impl; [| exact Hq]. apply no_rect_scaled. }
  destruct (_draw_graph_segments fuel w1); auto.
Qed.

Lemma draw_returns_derive (fuel : nat) (w w' : World) :
  draw fuel w = Returns tt w' ->
  derives (bars_scaled_by (frame_of w) (yMax_of w)) w w'.
Proof.
  intros H. pose proof (draw_effect fuel w) as He. now rewrite H in He.
Qed.

Lemma add_returns (entry : BarEntry) (w : World) :
  add entry w
  = Returns tt {| this := with_entries (_entries (this w) ++ [entry]) (this w);
                  canvas := canvas w; console := console w |}.
Proof. reflexivity. Qed.

Lemma yMax_of_derive_unset (t : Graph) :
  (yMax (_options t) =? -1) = true ->
  yMax (_options (derive_yMax t)) = Utils.max (map val (_entries t)).
Proof. unfold derive_yMax. now intros ->. Qed.

Lemma derive_yMax_set (t : Graph) :
  (yMax (_options t) =? -1) = false -> derive_yMax t = t.
Proof. unfold derive_yMax. now intros ->. Qed.


(** Once the axis maximum is a value other than the sentinel, the
    operations on the chart change nothing of it but the entry store,
    and leave the surface at its size. *)
Lemma chart_frozen (ops : list Op) :
  forall w w',
    (yMax_of w =? -1) = false ->
    run ops w = Returns tt w' ->
    (exists l, this w' = with_entries l (this w))
    /\ WIDTH (canvas w') = WIDTH (canvas w)
    /\ HEIGHT (canvas w') = HEIGHT (canvas w).
Proof.
  induction ops as [| op ops IH]; intros w w' Hset Hrun.
  - cbn in Hrun. inversion Hrun. subst w'.
    split; [| now split]. exists (_entries (this w)). now destruct (this w).
  - cbn [run] in Hrun. unfold bind in Hrun.
    destruct (perform op w) as [[] w1 | |] eqn:Hop; try discriminate.
    assert (H1 : (exists l, this w1 = with_entries l (this w))
                 /\ WIDTH (canvas w1) = WIDTH (canvas w)
                 /\ HEIGHT (canvas w1) = HEIGHT (canvas w)).
    { destruct op as [entry | fuel]; cbn [perform] in Hop.
      - rewrite add_returns in Hop. inversion Hop. cbn. eauto.
      - apply draw_returns_derive in Hop.
        destruct Hop as (Ht & HW & HH & _).
        rewrite Ht, derive_yMax_set by exact Hset.
        split; [| now split]. exists (_entries (this w)). now destruct (this w). }
    destruct H1 as ((l & Hl) & HW & HH).
    assert (Hset1 : (yMax_of w1 =? -1) = false).
    { unfold yMax_of in *. now rewrite Hl. }
    destruct (IH w1 w' Hset1 Hrun) as ((l' & Hl') & HW' & HH').
    split; [| split; congruence].
    exists l'. rewrite Hl', Hl. reflexivity.
Qed.

Lemma yMax_frozen (ops : list Op) (w w' : World) :
  (yMax_of w =? -1) = false ->
  run ops w = Returns tt w' ->
  yMax_of w' = yMax_of w.
Proof.
  intros Hset Hrun.
  destruct (chart_frozen ops w w' Hset Hrun) as ((l & Hl) & _).
  unfold yMax_of. now rewrite Hl.
Qed.

Lemma float_neq (x y : number) : (x =? y) = false -> (x =? x) = true -> x <> y.
Proof. intros Hxy Hxx ->. congruence. Qed.

(* ================================================================== *)
(** * A run of [add()] calls                                          *)
(* ================================================================== *)

Lemma run_adds (entries : list BarEntry) :
  forall w,
    run (map Add entries) w
    = Returns tt {| this := with_entries (_entries (this w) ++ entries) (this w);
                    canvas := canvas w; console := console w |}.
Proof.
  induction entries as [| e es IH]; intros w; cbn [map run].
  - unfold ret. rewrite app_nil_r. now destruct w as [[] ? ?].
  - unfold bind. cbn [perform]. rewrite add_returns, IH. cbn.
    now rewrite <- app_assoc.
Qed.


Lemma emitted_Forall (Q : Cmd -> Prop) (w w' : World) :
  (exists new, ctx (canvas w') = (ctx (canvas w) ++ new)%list /\ Forall Q new) ->
  Forall Q (emitted w w').
Proof.
  intros (new & Hctx & HQ). now rewrite (emitted_app _ _ _ Hctx).
Qed.

(* ================================================================== *)
(** * [bar_spacing] is never read                                      *)
(* ================================================================== *)

Section Noninterference.

Lemma alike_ret {A} (x : A) : alike (ret x) (ret x).
Proof. intros w1 w2 H. cbn. auto. Qed.

Lemma alike_throw {A} (e : Error) : alike (@throw A e) (throw e).
Proof. intros w1 w2 H. cbn. auto. Qed.

Lemma alike_bind {A B} (m1 m2 : M A) (k1 k2 : A -> M B) :
  alike m1 m2 -> (forall x, alike (k1 x) (k2 x)) ->
  alike (bind m1 k1) (bind m2 k2).
Proof.
  intros Hm Hk w1 w2 H. unfold bind. specialize (Hm w1 w2 H).
  destruct (m1 w1), (m2 w2); cbn in Hm; try contradiction; auto.
  destruct Hm as (-> & Hw). now apply Hk.
Qed.

Lemma alike_get_this {B} (k1 k2 : Graph -> M B) :
  (forall t1 t2, erase_spacing t1 = erase_spacing t2 -> alike (k1 t1) (k2 t2)) ->
  alike (bind get_this k1) (bind get_this k2).
Proof.
  intros Hk w1 w2 H. unfold bind, get_this. apply Hk; [apply H | exact H].
Qed.

Lemma alike_get_canvas {B} (k1 k2 : CanvasInstance -> M B) :
  (forall cv, alike (k1 cv) (k2 cv)) ->
  alike (bind get_canvas k1) (bind get_canvas k2).
Proof.
  intros Hk w1 w2 H. unfold bind, get_canvas.
  destruct H as (Hc & Ht). rewrite Hc. apply Hk. now split.
Qed.

Lemma alike_draw_call (c : Cmd) : alike (draw_call c) (draw_call c).
Proof.
  intros w1 w2 (Hc & Ht). cbn. repeat split; auto. now rewrite Hc.
Qed.

Lemma alike_console_log (msg : string) (arg : LogArg) :
  alike (console_log msg arg) (console_log msg arg).
Proof. intros w1 w2 (Hc & Ht). cbn. repeat split; auto. Qed.

Lemma alike_set_this (t1 t2 : Graph) :
  erase_spacing t1 = erase_spacing t2 -> alike (set_this t1) (set_this t2).
Proof. intros Ht w1 w2 (Hc & _). cbn. repeat split; auto. Qed.

Lemma alike_when (c : bool) (m1 m2 : M unit) :
  alike m1 m2 -> alike (when c m1) (when c m2).
Proof. intros H. destruct c; [exact H | apply alike_ret]. Qed.

Lemma alike_toFixed (x p : number) : alike (toFixed x p) (toFixed x p).
Proof.
  unfold toFixed. destruct (JS.toFixed x p); [apply alike_ret | apply alike_throw].
Qed.

Lemma alike_for_loop (fuel : nat) (cond : number -> bool)
    (b1 b2 : number -> M bool) :
  (forall i, alike (b1 i) (b2 i)) ->
  forall i, alike (for_loop fuel cond b1 i) (for_loop fuel cond b2 i).
Proof.
  intros Hb. induction fuel as [| fuel IH]; intros i; cbn [for_loop].
  - intros w1 w2 _. exact I.
  - destruct (cond i); [| apply alike_ret].
    apply alike_bind; [apply Hb |].
    intros [|]; [apply IH | apply alike_ret].
Qed.

(** What two charts share when they agree up to [bar_spacing]. *)
Lemma erase_spacing_fields (t1 t2 : Graph) :
  erase_spacing t1 = erase_spacing t2 ->
  let o1 := _options t1 in
  let o2 := _options t2 in
  _entries t1 = _entries t2
  /\ _x_padding t1 = _x_padding t2 /\ _y_padding t1 = _y_padding t2
  /\ _x_offset t1 = _x_offset t2 /\ _y_offset t1 = _y_offset t2
  /\ width o1 = width o2 /\ height o1 = height o2
  /\ backgroundColor o1 = backgroundColor o2
  /\ titleText o1 = titleText o2 /\ xAxisText o1 = xAxisText o2
  /\ yAxisText o1 = yAxisText o2 /\ yMax o1 = yMax o2
  /\ yPadding o1 = yPadding o2 /\ xPadding o1 = xPadding o2
  /\ bar_width o1 = bar_width o2
  /\ graphSegments_Y o1 = graphSegments_Y o2
  /\ graphSegments_X o1 = graphSegments_X o2
  /\ titleColor o1 = titleColor o2 /\ xTextColor o1 = xTextColor o2
  /\ yTextColor o1 = yTextColor o2 /\ yTextSize o1 = yTextSize o2
  /\ xSegmentColor o1 = xSegmentColor o2
  /\ ySegmentColor o1 = ySegmentColor o2
  /\ graphValuePrecision o1 = graphValuePrecision o2
  /\ verbose o1 = verbose o2.
Proof.
  intros H o1 o2. subst o1 o2. unfold erase_spacing, with_options in H.
  injection H as Hyo Hxo Hyp Hxp He. intros. repeat (split; [assumption |]).
  assumption.
Qed.

(** Conversely, charts that share all this agree up to [bar_spacing]. *)
Lemma erase_spacing_eq (t1 t2 : Graph) :
  _entries t1 = _entries t2 ->
  _x_padding t1 = _x_padding t2 -> _y_padding t1 = _y_padding t2 ->
  _x_offset t1 = _x_offset t2 -> _y_offset t1 = _y_offset t2 ->
  with_bar_spacing 0 (_options t1) = with_bar_spacing 0 (_options t2) ->
  erase_spacing t1 = erase_spacing t2.
Proof.
  intros He Hxp Hyp Hxo Hyo Ho. unfold erase_spacing, with_options.
  now rewrite He, Hxp, Hyp, Hxo, Hyo, Ho.
Qed.

End Noninterference.

(** Takes two computations apart in step; a read of [this] leaves the
    fields the two charts share rewritten to those of the second. *)
Ltac share_fields H :=
  let Hf := fresh "Hf" in
  pose proof (erase_spacing_fields _ _ H) as Hf;
  cbv zeta in Hf; decompose [and] Hf; clear Hf.

Ltac rewrite_shared :=
  repeat match goal with
         | H : ?f ?t1 = ?f ?t2 |- _ => rewrite ?H; clear H
         end.

Ltac alike_step :=
  lazymatch goal with
  | |- alike (bind get_this _) (bind get_this _) =>
      let H := fresh "Hsame" in
      apply alike_get_this; intros ? ? H; share_fields H; clear H;
      rewrite_shared
  | |- alike (bind get_canvas _) (bind get_canvas _) =>
      apply alike_get_canvas; intros ?
  | |- alike (bind _ _) (bind _ _) => apply alike_bind; [| intros ?]
  | |- alike (ret _) (ret _) => apply alike_ret
  | |- alike (throw _) (throw _) => apply alike_throw
  | |- alike (toFixed _ _) (toFixed _ _) => apply alike_toFixed
  | |- alike (when _ _) (when _ _) => apply alike_when
  | |- alike (draw_call _) (draw_call _) => apply alike_draw_call
  | |- alike (console_log _ _) (console_log _ _) => apply alike_console_log
  | |- alike (for_loop _ _ _ _) (for_loop _ _ _ _) =>
      apply alike_for_loop; intros ?
  end.

Section NoninterferenceOfMethods.

Lemma alike_yValStr (v p : number) : alike (yValStr v p) (yValStr v p).
Proof. unfold yValStr. destruct (_ =? _); repeat alike_step. Qed.

Lemma alike_bar_val (y p : number) : alike (bar_val y p) (bar_val y p).
Proof. unfold bar_val. destruct (negb _); repeat alike_step. Qed.

Lemma alike_tick_label entry (p i : number) :
  alike (tick_label entry p i) (tick_label entry p i).
Proof.
  unfold tick_label. destruct (label_of entry); repeat alike_step.
  destruct (JS.isNaN _); repeat alike_step.
  destruct (negb _); repeat alike_step.
Qed.

Lemma alike_bar (H m xs bw p y i : number) :
  alike (bar H m xs bw p y i) (bar H m xs bw p y i).
Proof.
  unfold bar. alike_step.
  destruct (_ <=? _); repeat alike_step.
  destruct (element _ _); repeat alike_step.
  - apply alike_bar_val.
  - destruct (valueLabel _); repeat alike_step.
Qed.

Lemma alike_draw_bars (fuel : nat) : alike (_draw_bars fuel) (_draw_bars fuel).
Proof.
  unfold _draw_bars. repeat alike_step. apply alike_bar.
Qed.

Lemma alike_outline : alike _draw_graph_outline _draw_graph_outline.
Proof. unfold _draw_graph_outline. repeat alike_step. Qed.

Lemma alike_y_segment (H h m p i : number) :
  alike (y_segment H h m p i) (y_segment H h m p i).
Proof.
  unfold y_segment. repeat alike_step. apply alike_yValStr.
Qed.

Lemma alike_x_segment (H xs p i : number) :
  alike (x_segment H xs p i) (x_segment H xs p i).
Proof.
  unfold x_segment. repeat alike_step.
  destruct (label_of _) as [[| c l] |]; repeat alike_step;
    apply alike_tick_label.
Qed.

Lemma erase_spacing_with_yMax (m : number) (t1 t2 : Graph) :
  erase_spacing t1 = erase_spacing t2 ->
  erase_spacing (with_options (with_yMax m (_options t1)) t1)
  = erase_spacing (with_options (with_yMax m (_options t2)) t2).
Proof.
  intros H. share_fields H.
  apply erase_spacing_eq; cbn [with_options _entries _x_padding _y_padding
    _x_offset _y_offset _options]; try assumption.
  unfold with_bar_spacing, with_yMax. cbn. rewrite_shared. reflexivity.
Qed.

Lemma alike_segments (fuel : nat) :
  alike (_draw_graph_segments fuel) (_draw_graph_segments fuel).
Proof.
  unfold _draw_graph_segments. alike_step.
  apply alike_get_this. intros t1 t2 Hsame.
  pose proof (fun m => erase_spacing_with_yMax m _ _ Hsame) as Hset.
  share_fields Hsame. clear Hsame.
  repeat match goal with
         | H : ?f ?a = ?f ?b |- _ => rewrite ?H; clear H
         end.
  apply alike_bind.
  - destruct (_ =? _); repeat alike_step.
    apply alike_set_this. apply Hset.
  - intros _. apply alike_bind.
    + apply alike_for_loop. intros i. apply alike_y_segment.
    + intros _. alike_step.
      apply alike_for_loop. intros i. apply alike_x_segment.
Qed.

Lemma alike_draw (fuel : nat) : alike (draw fuel) (draw fuel).
Proof.
  unfold draw. repeat alike_step.
  - apply alike_draw_bars.
  - apply alike_outline.
  - apply alike_segments.
Qed.

Lemma alike_add (entry : BarEntry) : alike (add entry) (add entry).
Proof.
  unfold add. apply alike_get_this. intros t1 t2 Hsame.
  apply alike_set_this. share_fields Hsame.
  apply erase_spacing_eq; cbn [with_entries _entries _x_padding _y_padding
    _x_offset _y_offset _options]; try assumption.
  - congruence.
  - unfold with_bar_spacing. rewrite_shared. reflexivity.
Qed.

Lemma alike_run (ops : list Op) : alike (run ops) (run ops).
Proof.
  induction ops as [| [entry | fuel] ops IH]; cbn [run perform].
  - apply alike_ret.
  - apply alike_bind; [apply alike_add | intros _; exact IH].
  - apply alike_bind; [apply alike_draw | intros _; exact IH].
Qed.

Lemma constructors_agree (c : Partial.GraphOptions) (s1 s2 : option number)
    (cv : CanvasInstance) (log1 log2 : list LogEntry) :
  agree (constructor (Some (set_spacing s1 c)) cv log1)
        (constructor (Some (set_spacing s2 c)) cv log2).
Proof.
  unfold constructor, agree.
  destruct (negb (Canvas.ready cv)); split; reflexivity.
Qed.

End NoninterferenceOfMethods.

(** C9: two charts whose configurations differ only in [bar_spacing]
    and that receive the same operations cannot be told apart on the
    drawing surface: they end alike (both return, or both throw the same
    error) with the same calls, coordinates and texts on the surface,
    and with charts that differ in [bar_spacing] at most. *)
Theorem bar_spacing_noninterference
    (c : Partial.GraphOptions) (s1 s2 : option number)
    (cv : CanvasInstance) (log1 log2 : list LogEntry) (ops : list Op) :
  agree_outcome
    (run ops (constructor (Some (set_spacing s1 c)) cv log1))
    (run ops (constructor (Some (set_spacing s2 c)) cv log2)).
Proof.
  apply alike_run. apply constructors_agree.
Qed.

(* ================================================================== *)
(** * Binary64 arithmetic on integers                                  *)
(* ================================================================== *)

Local Open Scope Z_scope.

Section Binary64.

Lemma Zdigits2_log2 (p : positive) : Zdigits2 (Zpos p) = Z.log2 (Zpos p) + 1.
Proof.
  assert (H : forall q, Zpos (digits2_pos q) = Zpos (Pos.size q)).
  { induction q; simpl; rewrite ?Pos2Z.inj_succ; congruence. }
  cbn [Zdigits2]. rewrite H.
  destruct p; cbn [Z.log2 Pos.size]; rewrite ?Pos2Z.inj_succ; lia.
Qed.

Lemma Zdigits2_bounds (p : positive) :
  2 ^ (Zdigits2 (Zpos p) - 1) <= Zpos p < 2 ^ Zdigits2 (Zpos p).
Proof.
  rewrite Zdigits2_log2. replace (Z.log2 (Zpos p) + 1 - 1) with (Z.log2 (Zpos p)) by lia.
  apply Z.log2_spec. lia.
Qed.

Lemma Zdigits2_unique (p : positive) (d : Z) :
  2 ^ (d - 1) <= Zpos p < 2 ^ d -> Zdigits2 (Zpos p) = d.
Proof.
  intros H. rewrite Zdigits2_log2.
  assert (0 < d).
  { destruct (Z_lt_le_dec 0 d); auto.
    assert (2 ^ d <= 2 ^ 0) by (apply Z.pow_le_mono_r; lia). simpl in *. lia. }
  rewrite (Z.log2_unique (Zpos p) (d - 1)); try lia.
  replace (Z.succ (d - 1)) with d by lia. exact H.
Qed.

Lemma Zdigits2_shift (p : positive) (k : Z) :
  0 <= k -> Zdigits2 (Zpos p * 2 ^ k) = Zdigits2 (Zpos p) + k.
Proof.
  intros Hk.
  assert (Hpos : 0 < Zpos p * 2 ^ k) by (apply Z.mul_pos_pos; [lia | apply Z.pow_pos_nonneg; lia]).
  destruct (Zpos p * 2 ^ k) as [| q | q] eqn:E; try lia.
  rewrite !Zdigits2_log2, <- E, Z.log2_mul_pow2 by lia. lia.
Qed.

Lemma Zdigits2_pos (p : positive) : 0 < Zdigits2 (Zpos p).
Proof. rewrite Zdigits2_log2. pose proof (Z.log2_nonneg (Zpos p)). lia. Qed.

(** ** Shifting right *)

Lemma iter_pos_nat {A} (f : A -> A) (n : positive) (x : A) :
  iter_pos f n x = Nat.iter (Pos.to_nat n) f x.
Proof.
  revert x. induction n as [n IH | n IH |]; intros x; cbn [iter_pos].
  - rewrite !IH.
    replace (Pos.to_nat n~1) with (S (Pos.to_nat n + Pos.to_nat n)) by lia.
    now rewrite Nat.iter_succ_r, Nat.iter_add.
  - rewrite !IH.
    replace (Pos.to_nat n~0) with (Pos.to_nat n + Pos.to_nat n)%nat by lia.
    now rewrite Nat.iter_add.
  - reflexivity.
Qed.

Lemma shr_1_even (m : Z) :
  0 <= m -> shr_1 (exact_record (2 * m)) = exact_record m.
Proof. intros H. destruct m as [| p | p]; try lia; reflexivity. Qed.

Lemma shr_exact_nat (n : nat) (m : Z) :
  0 <= m ->
  Nat.iter n shr_1 (exact_record (m * 2 ^ Z.of_nat n)) = exact_record m.
Proof.
  intros Hm. induction n as [| n IH].
  - cbn. now rewrite Z.mul_1_r.
  - rewrite Nat.iter_succ_r.
    replace (m * 2 ^ Z.of_nat (S n)) with (2 * (m * 2 ^ Z.of_nat n)).
    + rewrite shr_1_even; [exact IH |].
      apply Z.mul_nonneg_nonneg; [lia | apply Z.pow_nonneg; lia].
    + rewrite Nat2Z.inj_succ, Z.pow_succ_r by lia. ring.
Qed.

Lemma shr_exact (m e k : Z) :
  0 <= m -> 0 <= k ->
  shr (exact_record (m * 2 ^ k)) e k = (exact_record m, e + k).
Proof.
  intros Hm Hk. unfold shr. destruct k as [| p | p]; try lia.
  - now rewrite Z.mul_1_r, Z.add_0_r.
  - f_equal. rewrite iter_pos_nat.
    rewrite <- (positive_nat_Z p) at 1. now apply shr_exact_nat.
Qed.

(** ** Rounding a value that needs none *)

Lemma bounded_spec (m : positive) (e : Z) :
  bounded prec emax m e = true ->
  fexp prec emax (Zdigits2 (Zpos m) + e) = e /\ e <= emax - prec.
Proof.
  unfold bounded, canonical_mantissa.
  rewrite andb_true_iff, Z.eqb_eq, Z.leb_le. cbn [Zdigits2]. auto.
Qed.

Lemma round_exact (s : bool) (m0 : positive) (e0 k : Z) :
  bounded prec emax m0 e0 = true -> 0 <= k ->
  binary_round_aux prec emax s (Zpos m0 * 2 ^ k) (e0 - k) loc_Exact
  = S754_finite s m0 e0.
Proof.
  intros Hb Hk. destruct (bounded_spec _ _ Hb) as (Hc & He).
  unfold binary_round_aux, shr_fexp.
  rewrite Zdigits2_shift by exact Hk.
  replace (Zdigits2 (Zpos m0) + k + (e0 - k)) with (Zdigits2 (Zpos m0) + e0) by lia.
  rewrite Hc. replace (e0 - (e0 - k)) with k by lia.
  change (shr_record_of_loc (Zpos m0 * 2 ^ k) loc_Exact)
    with (exact_record (Zpos m0 * 2 ^ k)).
  rewrite shr_exact by lia.
  replace (e0 - k + k) with e0 by lia.
  cbn [exact_record shr_m loc_of_shr_record shr_r shr_s round_nearest_even].
  rewrite Hc, Z.sub_diag. cbn [shr shr_record_of_loc shr_m].
  apply Z.leb_le in He. now rewrite He.
Qed.

Lemma iter_xO (m d : positive) :
  Zpos (Pos.iter xO m d) = Zpos m * 2 ^ Zpos d.
Proof.
  induction d as [| d IH] using Pos.peano_ind.
  - cbn. lia.
  - rewrite Pos.iter_succ, Pos2Z.inj_xO, IH, Pos2Z.inj_succ, Z.pow_succ_r by lia.
    ring.
Qed.

(** [binary_round] returns the canonical representation [(m0, e0)] of
    the value it is given, whenever there is one. *)
Lemma binary_round_value (s : bool) (M : positive) (E : Z)
    (m0 : positive) (e0 : Z) :
  bounded prec emax m0 e0 = true ->
  Zpos M * 2 ^ (E - Z.min E e0) = Zpos m0 * 2 ^ (e0 - Z.min E e0) ->
  binary_round prec emax s M E = S754_finite s m0 e0.
Proof.
  intros Hb Hv. destruct (bounded_spec _ _ Hb) as (Hc & He).
  unfold binary_round.
  change (Zpos (digits2_pos M)) with (Zdigits2 (Zpos M)).
  destruct (Z_le_gt_dec E e0) as [Hle | Hgt].
  - rewrite Z.min_l, Z.sub_diag, Z.mul_1_r in Hv by lia.
    assert (Hd : Zdigits2 (Zpos M) = Zdigits2 (Zpos m0) + (e0 - E)).
    { rewrite Hv. apply Zdigits2_shift. lia. }
    replace (Zdigits2 (Zpos M) + E) with (Zdigits2 (Zpos m0) + e0) by lia.
    rewrite Hc.
    assert (Hno : shl_align M E e0 = (M, E)).
    { unfold shl_align. destruct (e0 - E) eqn:Hk; try reflexivity. lia. }
    rewrite Hno, Hv. replace E with (e0 - (e0 - E)) at 2 by lia.
    apply round_exact; auto; lia.
  - rewrite Z.min_r, Z.sub_diag, Z.mul_1_r in Hv by lia.
    assert (Hd : Zdigits2 (Zpos m0) = Zdigits2 (Zpos M) + (E - e0)).
    { rewrite <- Hv. apply Zdigits2_shift. lia. }
    replace (Zdigits2 (Zpos M) + E) with (Zdigits2 (Zpos m0) + e0) by lia.
    rewrite Hc. unfold shl_align.
    destruct (e0 - E) as [| d | d] eqn:Hk; try lia.
    rewrite iter_xO. replace (Zpos d) with (E - e0) by lia. rewrite Hv.
    replace (Zpos m0) with (Zpos m0 * 2 ^ 0) by (cbn; lia).
    replace e0 with (e0 - 0) at 1 by lia.
    apply round_exact; auto; lia.
Qed.

(** ** The order of valid numbers *)

Lemma bounded_digits (m : positive) (e : Z) :
  bounded prec emax m e = true ->
  -1074 <= e <= 971
  /\ Zdigits2 (Zpos m) <= 53
  /\ (-1074 < e -> Zdigits2 (Zpos m) = 53).
Proof.
  intros Hb. destruct (bounded_spec _ _ Hb) as (Hc & He).
  unfold fexp, SpecFloat.emin, prec, emax in *. lia.
Qed.

Lemma scaled_pos (m : positive) (e : Z) : -1074 <= e -> 0 < scaled m e.
Proof.
  intros H. apply Z.mul_pos_pos; [lia | apply Z.pow_pos_nonneg; lia].
Qed.

Lemma compare_bounded (m1 m2 : positive) (e1 e2 : Z) :
  bounded prec emax m1 e1 = true ->
  bounded prec emax m2 e2 = true ->
  match e1 ?= e2 with
  | Lt => Lt
  | Gt => Gt
  | Eq => Pos.compare_cont Eq m1 m2
  end = (scaled m1 e1 ?= scaled m2 e2).
Proof.
  intros H1 H2.
  destruct (bounded_digits _ _ H1) as (He1 & Hd1 & Hn1).
  destruct (bounded_digits _ _ H2) as (He2 & Hd2 & Hn2).
  pose proof (Zdigits2_bounds m1) as Hb1.
  pose proof (Zdigits2_bounds m2) as Hb2.
  assert (Hlt : forall (a b : positive) ea eb,
             ea < eb -> -1074 <= ea ->
             Zpos a < 2 ^ 53 -> 2 ^ 52 <= Zpos b ->
             scaled a ea < scaled b eb).
  { intros a b ea eb Hab Hea Ha Hb'. unfold scaled.
    assert (0 < 2 ^ (ea + 1074)) by (apply Z.pow_pos_nonneg; lia).
    assert (2 ^ (ea + 1075) <= 2 ^ (eb + 1074)) by (apply Z.pow_le_mono_r; lia).
    replace (ea + 1075) with (Z.succ (ea + 1074)) in * by lia.
    rewrite Z.pow_succ_r in * by lia.
    change (2 ^ 53) with (2 * 2 ^ 52) in Ha. nia. }
  assert (Hup : forall m : positive, Zdigits2 (Zpos m) <= 53 -> Zpos m < 2 ^ 53).
  { intros m Hd. pose proof (Zdigits2_bounds m) as (_ & Hu).
    eapply Z.lt_le_trans; [exact Hu | apply Z.pow_le_mono_r; lia]. }
  assert (Hlo : forall m : positive, Zdigits2 (Zpos m) = 53 -> 2 ^ 52 <= Zpos m).
  { intros m Hd. pose proof (Zdigits2_bounds m) as (Hl & _).
    now rewrite Hd in Hl. }
  destruct (Z.compare_spec e1 e2) as [Heq | Hl | Hg].
  - subst e2. unfold scaled. rewrite <- Zmult_compare_compat_r.
    + reflexivity.
    + apply Z.lt_gt, Z.pow_pos_nonneg; lia.
  - symmetry. apply Z.compare_lt_iff. apply Hlt; auto; try lia.
    apply Hlo. apply Hn2. lia.
  - symmetry. apply Z.compare_gt_iff. apply Hlt; auto; try lia.
    apply Hlo. apply Hn1. lia.
Qed.

Lemma scaled_split (m : positive) (e lo : Z) :
  -1074 <= lo <= e ->
  scaled m e = Zpos m * 2 ^ (e - lo) * 2 ^ (lo + 1074).
Proof.
  intros H. unfold scaled. rewrite <- Z.mul_assoc, <- Z.pow_add_r by lia.
  do 2 f_equal. lia.
Qed.

Lemma binary_round_scaled (s : bool) (M : positive) (E : Z)
    (m0 : positive) (e0 : Z) :
  bounded prec emax m0 e0 = true ->
  -1074 <= E ->
  scaled M E = scaled m0 e0 ->
  binary_round prec emax s M E = S754_finite s m0 e0.
Proof.
  intros Hb HE Hv. apply binary_round_value; [exact Hb |].
  destruct (bounded_digits _ _ Hb) as (He0 & _).
  rewrite (scaled_split M E (Z.min E e0)) in Hv by lia.
  rewrite (scaled_split m0 e0 (Z.min E e0)) in Hv by lia.
  apply Z.mul_reg_r in Hv; [exact Hv |].
  apply Z.neq_sym, Z.lt_neq, Z.pow_pos_nonneg; lia.
Qed.

(** ** Integers *)

Lemma log2_small (z : Z) : 0 < z < 2 ^ 53 -> 0 <= Z.log2 z <= 52.
Proof.
  intros H. split; [apply Z.log2_nonneg |].
  assert (Z.log2 z < 53); [| lia]. apply Z.log2_lt_pow2; lia.
Qed.

Lemma canon_m_value (z : Z) :
  0 < z < 2 ^ 53 -> Zpos (canon_m z) = z * 2 ^ (52 - Z.log2 z).
Proof.
  intros H. pose proof (log2_small z H). unfold canon_m.
  rewrite Z2Pos.id; [reflexivity |].
  apply Z.mul_pos_pos; [lia | apply Z.pow_pos_nonneg; lia].
Qed.

Lemma canon_scaled (z : Z) :
  0 < z < 2 ^ 53 -> scaled (canon_m z) (canon_e z) = z * 2 ^ 1074.
Proof.
  intros H. pose proof (log2_small z H). unfold scaled, canon_e.
  rewrite canon_m_value, <- Z.mul_assoc, <- Z.pow_add_r by lia.
  do 2 f_equal. lia.
Qed.

Lemma canon_bounded (z : Z) :
  0 < z < 2 ^ 53 -> bounded prec emax (canon_m z) (canon_e z) = true.
Proof.
  intros H. pose proof (log2_small z H) as Hl.
  unfold bounded, canonical_mantissa. apply andb_true_iff. split.
  - apply Z.eqb_eq.
    change (Zpos (digits2_pos (canon_m z))) with (Zdigits2 (Zpos (canon_m z))).
    rewrite canon_m_value by exact H.
    destruct z as [| p | p]; try lia.
    rewrite Zdigits2_shift, Zdigits2_log2 by lia.
    unfold canon_e, fexp, SpecFloat.emin, prec, emax. lia.
  - apply Z.leb_le. unfold canon_e, prec, emax. lia.
Qed.

Lemma binary_normalize_int (z : Z) :
  - 2 ^ 53 < z < 2 ^ 53 ->
  binary_normalize prec emax z 0 false = int_sf z.
Proof.
  intros H. destruct z as [| p | p]; cbn [binary_normalize int_sf].
  - reflexivity.
  - apply binary_round_scaled.
    + apply canon_bounded. lia.
    + lia.
    + rewrite canon_scaled by lia. reflexivity.
  - apply binary_round_scaled.
    + apply canon_bounded. lia.
    + lia.
    + rewrite canon_scaled by lia. reflexivity.
Qed.

Lemma int_sf_valid (z : Z) :
  - 2 ^ 53 < z < 2 ^ 53 -> valid_binary (int_sf z) = true.
Proof.
  intros H. destruct z as [| p | p]; cbn; auto; apply canon_bounded; lia.
Qed.

Lemma Prim2SF_of_Z (z : Z) :
  - 2 ^ 53 < z < 2 ^ 53 -> Prim2SF (JS.of_Z z) = int_sf z.
Proof.
  intros H. unfold JS.of_Z. rewrite binary_normalize_int by exact H.
  apply Prim2SF_SF2Prim, int_sf_valid, H.
Qed.

Lemma compare_int (a b : Z) :
  - 2 ^ 53 < a < 2 ^ 53 -> - 2 ^ 53 < b < 2 ^ 53 ->
  SFcompare (int_sf a) (int_sf b) = Some (a ?= b).
Proof.
  intros Ha Hb.
  assert (Hpos : forall p q : positive,
             Zpos p < 2 ^ 53 -> Zpos q < 2 ^ 53 ->
             match canon_e (Zpos p) ?= canon_e (Zpos q) with
             | Lt => Lt
             | Gt => Gt
             | Eq => Pos.compare_cont Eq (canon_m (Zpos p)) (canon_m (Zpos q))
             end = (Zpos p ?= Zpos q)).
  { intros p q Hp Hq.
    rewrite compare_bounded by (apply canon_bounded; lia).
    rewrite !canon_scaled by lia.
    symmetry. apply Zmult_compare_compat_r. reflexivity. }
  destruct a as [| p | p], b as [| q | q]; cbn [int_sf SFcompare];
    try reflexivity.
  - now rewrite Hpos by lia.
  - f_equal.
    change (Zneg p ?= Zneg q) with (CompOpp (Zpos p ?= Zpos q)).
    rewrite <- Hpos by lia.
    destruct (canon_e (Zpos p) ?= canon_e (Zpos q)); reflexivity.
Qed.

Section OfZ.

Variables a b : Z.
Hypothesis Ha : - 2 ^ 53 < a < 2 ^ 53.
Hypothesis Hb : - 2 ^ 53 < b < 2 ^ 53.

Lemma ltb_of_Z : (JS.of_Z a <? JS.of_Z b)%float = (a <? b).
Proof.
  rewrite FloatAxioms.ltb_spec, !Prim2SF_of_Z by assumption.
  unfold SFltb. rewrite compare_int by assumption.
  reflexivity.
Qed.

Lemma leb_of_Z : (JS.of_Z a <=? JS.of_Z b)%float = (a <=? b).
Proof.
  rewrite FloatAxioms.leb_spec, !Prim2SF_of_Z by assumption.
  unfold SFleb. rewrite compare_int by assumption.
  unfold Z.leb. destruct (a ?= b); reflexivity.
Qed.

Lemma eqb_of_Z : (JS.of_Z a =? JS.of_Z b)%float = (a =? b).
Proof.
  rewrite FloatAxioms.eqb_spec, !Prim2SF_of_Z by assumption.
  unfold SFeqb. rewrite compare_int by assumption.
  rewrite <- Z.eqb_compare. reflexivity.
Qed.

End OfZ.

Lemma binary_normalize_scaled (z E v : Z) :
  -1074 <= E ->
  z * 2 ^ (E + 1074) = v * 2 ^ 1074 ->
  - 2 ^ 53 < v < 2 ^ 53 ->
  binary_normalize prec emax z E false = int_sf v.
Proof.
  intros HE Hv Hb.
  assert (Hp : 0 < 2 ^ (E + 1074)) by (apply Z.pow_pos_nonneg; lia).
  assert (Hq : 0 < 2 ^ 1074) by (apply Z.pow_pos_nonneg; lia).
  destruct z as [| p | p]; cbn [binary_normalize].
  - assert (v = 0) by nia. now subst v.
  - assert (0 < v) by nia. destruct v as [| q | q]; try lia. cbn [int_sf].
    apply binary_round_scaled; [apply canon_bounded; lia | exact HE |].
    rewrite canon_scaled by lia. exact Hv.
  - assert (v < 0) by nia. destruct v as [| q | q]; try lia. cbn [int_sf].
    apply binary_round_scaled; [apply canon_bounded; lia | exact HE |].
    rewrite canon_scaled by lia. unfold scaled. lia.
Qed.

Lemma shl_align_value (m : positive) (e e' : Z) :
  e' <= e -> Zpos (fst (shl_align m e e')) = Zpos m * 2 ^ (e - e').
Proof.
  intros H. unfold shl_align.
  destruct (e' - e) as [| d | d] eqn:Hd; try lia; cbn [fst].
  - replace (e - e') with 0 by lia. cbn. lia.
  - rewrite iter_xO. do 2 f_equal. lia.
Qed.

Lemma sval_int (z : Z) : - 2 ^ 53 < z < 2 ^ 53 -> sval (int_sf z) = z * 2 ^ 1074.
Proof.
  intros H. destruct z as [| p | p]; cbn [int_sf sval].
  - reflexivity.
  - apply canon_scaled. lia.
  - rewrite canon_scaled by lia. lia.
Qed.

Lemma aligned_sum (m1 m2 : positive) (e1 e2 : Z) (s1 s2 : bool) :
  -1074 <= e1 -> -1074 <= e2 ->
  (cond_Zopp s1 (Zpos (fst (shl_align m1 e1 (Z.min e1 e2))))
   + cond_Zopp s2 (Zpos (fst (shl_align m2 e2 (Z.min e1 e2)))))
  * 2 ^ (Z.min e1 e2 + 1074)
  = sval (S754_finite s1 m1 e1) + sval (S754_finite s2 m2 e2).
Proof.
  intros H1 H2. rewrite !shl_align_value by lia.
  rewrite Z.mul_add_distr_r. cbn [sval].
  rewrite (scaled_split m1 e1 (Z.min e1 e2)), (scaled_split m2 e2 (Z.min e1 e2)) by lia.
  destruct s1, s2; cbn [cond_Zopp]; ring.
Qed.

Lemma int_sf_exponent (z : Z) (s : bool) (m : positive) (e : Z) :
  - 2 ^ 53 < z < 2 ^ 53 -> int_sf z = S754_finite s m e -> -1074 <= e.
Proof.
  intros H E. pose proof (int_sf_valid z H) as Hv. rewrite E in Hv.
  cbn in Hv. apply bounded_digits in Hv. lia.
Qed.

Lemma add_of_Z (a b : Z) :
  0 <= a -> 0 <= b -> a + b < 2 ^ 53 ->
  (JS.of_Z a + JS.of_Z b)%float = JS.of_Z (a + b).
Proof.
  intros Ha Hb Hab. apply Prim2SF_inj.
  rewrite FloatAxioms.add_spec, !Prim2SF_of_Z by lia.
  pose proof (sval_int a ltac:(lia)) as Hsa.
  pose proof (sval_int b ltac:(lia)) as Hsb.
  pose proof (int_sf_exponent a) as Hea.
  pose proof (int_sf_exponent b) as Heb.
  destruct (int_sf a) as [sa | | | sa ma ea] eqn:Ea;
    try (destruct a; discriminate).
  - assert (a = 0) by (destruct a; [reflexivity | discriminate | discriminate]).
    subst a. rewrite Z.add_0_l.
    destruct (int_sf b) as [sb | | | sb mb eb] eqn:Eb;
      try (destruct b; discriminate).
    + destruct b; try discriminate. cbn in Ea, Eb. now inversion Ea; inversion Eb.
    + cbn in Ea. inversion Ea. reflexivity.
  - destruct (int_sf b) as [sb | | | sb mb eb] eqn:Eb;
      try (destruct b; discriminate).
    + assert (b = 0) by (destruct b; [reflexivity | discriminate | discriminate]).
      subst b. rewrite Z.add_0_r, Ea. reflexivity.
    + unfold SF64add, SFadd.
      apply binary_normalize_scaled; try lia.
      * specialize (Hea sa ma ea ltac:(lia) eq_refl).
        specialize (Heb sb mb eb ltac:(lia) eq_refl). lia.
      * rewrite aligned_sum, Hsa, Hsb.
        -- ring.
        -- apply (Hea sa ma ea); [lia | reflexivity].
        -- apply (Heb sb mb eb); [lia | reflexivity].
Qed.

Lemma sub_of_Z (a b : Z) :
  0 <= a < 2 ^ 53 -> 0 < b < 2 ^ 53 ->
  (JS.of_Z a - JS.of_Z b)%float = JS.of_Z (a - b).
Proof.
  intros Ha Hb. apply Prim2SF_inj.
  rewrite FloatAxioms.sub_spec, !Prim2SF_of_Z by lia.
  pose proof (sval_int a ltac:(lia)) as Hsa.
  pose proof (sval_int b ltac:(lia)) as Hsb.
  pose proof (int_sf_exponent a) as Hea.
  pose proof (int_sf_exponent b) as Heb.
  destruct b as [| q | q]; try lia. cbn [int_sf] in *.
  destruct a as [| p | p]; try lia; cbn [int_sf] in *.
  - reflexivity.
  - unfold SF64sub, SFsub.
    set (ea := canon_e (Zpos p)) in *. set (eb := canon_e (Zpos q)) in *.
    set (ma := canon_m (Zpos p)) in *. set (mb := canon_m (Zpos q)) in *.
    assert (-1074 <= ea) by (apply (Hea false ma ea); [lia | reflexivity]).
    assert (-1074 <= eb) by (apply (Heb false mb eb); [lia | reflexivity]).
    apply binary_normalize_scaled; try lia.
    pose proof (aligned_sum ma mb ea eb false true) as Hs.
    cbn [cond_Zopp] in *. rewrite <- Z.add_opp_r, Hs by lia.
    cbn [sval] in *. rewrite Hsa, Hsb. ring.
Qed.

Lemma of_nat_zero : JS.of_nat 0 = 0%float.
Proof. reflexivity. Qed.

Lemma of_Z_one : JS.of_Z 1 = 1%float.
Proof. reflexivity. Qed.

Lemma of_nat_succ (k : nat) :
  Z.of_nat (S k) < 2 ^ 53 -> (JS.of_nat k + 1)%float = JS.of_nat (S k).
Proof.
  intros H. unfold JS.of_nat. rewrite <- of_Z_one, add_of_Z by lia.
  f_equal. lia.
Qed.

Lemma to_index_of_nat (k : nat) :
  Z.of_nat k < 2 ^ 53 -> to_index (JS.of_nat k) = Some k.
Proof.
  intros H. unfold to_index, JS.of_nat. rewrite Prim2SF_of_Z by lia.
  destruct (Z.of_nat k) as [| p | p] eqn:E; try lia; cbn [int_sf].
  - f_equal. lia.
  - assert (Hp : 0 < Zpos p < 2 ^ 53) by lia.
    pose proof (log2_small _ Hp) as Hl.
    rewrite canon_m_value by exact Hp. unfold canon_e.
    destruct (0 <=? Z.log2 (Zpos p) - 52) eqn:He.
    + apply Z.leb_le in He.
      replace (52 - Z.log2 (Zpos p)) with 0 by lia.
      replace (Z.log2 (Zpos p) - 52) with 0 by lia.
      f_equal. cbn [Z.pow Z.mul]. lia.
    + replace (- (Z.log2 (Zpos p) - 52)) with (52 - Z.log2 (Zpos p)) by lia.
      assert (0 < 2 ^ (52 - Z.log2 (Zpos p))) by (apply Z.pow_pos_nonneg; lia).
      rewrite Z_mod_mult, Z_div_mult by lia. cbn [Z.eqb]. f_equal. lia.
Qed.

Lemma element_of_nat {A} (l : list A) (k : nat) :
  Z.of_nat k < 2 ^ 53 -> element l (JS.of_nat k) = nth_error l k.
Proof. intros H. unfold element. now rewrite to_index_of_nat. Qed.

Lemma ltb_of_nat (k n : nat) :
  Z.of_nat k < 2 ^ 53 -> Z.of_nat n < 2 ^ 53 ->
  (JS.of_nat k <? JS.of_nat n)%float = (k <? n)%nat.
Proof.
  intros Hk Hn. unfold JS.of_nat. rewrite ltb_of_Z by lia.
  destruct (Nat.ltb_spec k n), (Z.ltb_spec (Z.of_nat k) (Z.of_nat n)); lia.
Qed.

Lemma leb_of_nat (k n : nat) :
  Z.of_nat k < 2 ^ 53 -> Z.of_nat n < 2 ^ 53 ->
  (JS.of_nat k <=? JS.of_nat n)%float = (k <=? n)%nat.
Proof.
  intros Hk Hn. unfold JS.of_nat. rewrite leb_of_Z by lia.
  destruct (Nat.leb_spec k n), (Z.leb_spec (Z.of_nat k) (Z.of_nat n)); lia.
Qed.

(** [n - 1] for a count [n]; it is [-1] for the count zero. *)
Lemma of_nat_pred (n : nat) :
  Z.of_nat n < 2 ^ 53 -> (JS.of_nat n - 1)%float = JS.of_Z (Z.of_nat n - 1).
Proof.
  intros H. unfold JS.of_nat. rewrite <- of_Z_one. apply sub_of_Z; lia.
Qed.

Lemma ltb_of_nat_pred (k n : nat) :
  Z.of_nat k < 2 ^ 53 -> Z.of_nat n < 2 ^ 53 ->
  (JS.of_nat k <? JS.of_nat n - 1)%float = (S k <? n)%nat.
Proof.
  intros Hk Hn. rewrite of_nat_pred by exact Hn.
  unfold JS.of_nat. rewrite ltb_of_Z by lia.
  destruct (Nat.ltb_spec (S k) n), (Z.ltb_spec (Z.of_nat k) (Z.of_nat n - 1)); lia.
Qed.

End Binary64.

Local Open Scope float_scope.

(* ================================================================== *)
(** * The painting loops, pass by pass                               *)
(* ================================================================== *)

Lemma push_nil (w : World) : push [] w = w.
Proof.
  destruct w as [t [rd W H c] l]. unfold push. cbn. now rewrite app_nil_r.
Qed.

Lemma push_push (a b : list Cmd) (w : World) :
  push b (push a w) = push (a ++ b) w.
Proof. unfold push. cbn. now rewrite app_assoc. Qed.

Lemma bind_draw_call {A} (c : Cmd) (m : M A) (w : World) :
  (draw_call c ;; m) w = m (push [c] w).
Proof. reflexivity. Qed.

Lemma draw_call_push (c : Cmd) (w : World) :
  draw_call c w = Returns tt (push [c] w).
Proof. reflexivity. Qed.

Lemma nth_error_skipn {A} (l : list A) (k : nat) (x : A) :
  nth_error l k = Some x -> skipn k l = x :: skipn (S k) l.
Proof.
  revert l. induction k as [| k IH]; intros [| y l] H; try discriminate.
  - now inversion H.
  - cbn in H. cbn [skipn]. now apply IH.
Qed.

Section BarLoop.

Variable F : Frame.
Variable yMax : number.
Let entries := _entries (frame_this F).
Hypothesis Hlen : (Z.of_nat (List.length entries) < 2 ^ 53)%Z.

Lemma bar_break (k : nat) (w : World) :
  in_frame F w -> (Z.of_nat k < 2 ^ 53)%Z ->
  (List.length entries <= k)%nat ->
  bar_in F yMax (JS.of_nat k) w = Returns false w.
Proof.
  intros (Ht & _) Hk Hle. unfold bar_in, bar, bind, get_this. rewrite Ht.
  fold entries. unfold length_of. rewrite leb_of_nat by assumption.
  destruct (Nat.leb_spec (List.length entries) k); [reflexivity | lia].
Qed.

Lemma bar_at (k : nat) (e : BarEntry) (w : World) :
  in_frame F w ->
  nth_error entries k = Some e ->
  bar_in F yMax (JS.of_nat k) w
  = match format_number (graphValuePrecision (_options (frame_this F))) (val e) with
    | Some s => Returns true (push (bar_calls F yMax (JS.of_nat k) e s) w)
    | None =>
        Throws RangeError
          (push [SetFillStyle (color e); BeginPath;
                 bar_rect F yMax (JS.of_nat k) e; ClosePath] w)
    end.
Proof.
  intros (Ht & _) He.
  assert (Hlt : (k < List.length entries)%nat).
  { apply nth_error_Some. congruence. }
  assert (Hk : (Z.of_nat k < 2 ^ 53)%Z) by lia.
  unfold bar_in, bar. unfold bind at 1, get_this. rewrite Ht. fold entries.
  unfold length_of. rewrite leb_of_nat by assumption.
  destruct (Nat.leb_spec (List.length entries) k); [lia |].
  rewrite element_of_nat, He by assumption.
  rewrite !bind_draw_call, !push_push. cbn [app].
  unfold bind at 1.
  match goal with
  | |- context [bar_val ?y ?p ?w0] =>
      pose proof (bar_val_format y p w0) as Hv
  end.
  destruct (format_number _ (val e)) as [s |].
  - destruct Hv as (v & -> & Hs). unfold bar_calls.
    destruct (valueLabel e); rewrite ?bind_draw_call; unfold ret;
      rewrite ?push_push, ?Hs; reflexivity.
  - rewrite Hv. reflexivity.
Qed.

End BarLoop.

Lemma outcome_of_prepend {A} (x : A) (calls : list Cmd) (r : Run) (w : World) :
  outcome_of x r (push calls w) = outcome_of x (prepend calls r) w.
Proof. destruct r; cbn; now rewrite push_push. Qed.

Lemma for_loop_more_fuel (cond : number -> bool) (body : number -> M bool)
    (fuel fuel' : nat) :
  (fuel <= fuel')%nat ->
  forall i w,
    for_loop fuel cond body i w <> OutOfFuel ->
    for_loop fuel' cond body i w = for_loop fuel cond body i w.
Proof.
  revert fuel'. induction fuel as [| fuel IH]; intros fuel' Hle i w Hne.
  - cbn in Hne. congruence.
  - destruct fuel' as [| fuel']; [lia |]. cbn [for_loop] in *.
    destruct (cond i); [| reflexivity].
    unfold bind in *. destruct (body i w) as [[|] w1 | e w1 |]; try reflexivity.
    apply IH; [lia | exact Hne].
Qed.

Section BarLoopRun.

Variable F : Frame.
Variable yMax : number.
Let entries := _entries (frame_this F).
Hypothesis Hlen : (Z.of_nat (List.length entries) < 2 ^ 53)%Z.

Lemma bars_loop_run (rest : list BarEntry) :
  forall (fuel k : nat) (w : World),
    in_frame F w ->
    skipn k entries = rest ->
    (k <= List.length entries)%nat ->
    (List.length rest < fuel)%nat ->
    for_loop fuel
      (fun i => i <? graphSegments_X (_options (frame_this F)))
      (bar_in F yMax) (JS.of_nat k) w
    = outcome_of tt (bars_run F yMax k rest) w.
Proof.
  induction rest as [| e rest IH]; intros fuel k w Hw Hskip Hk Hfuel;
    (destruct fuel as [| fuel]; [cbn in Hfuel; lia |]); cbn [for_loop bars_run].
  - assert (List.length entries <= k)%nat.
    { rewrite <- (firstn_skipn k entries), Hskip, app_nil_r.
      rewrite length_firstn. lia. }
    destruct (_ <? _); [| cbn; now rewrite push_nil].
    unfold bind. rewrite (bar_break F yMax Hlen) by (auto; lia).
    cbn. now rewrite push_nil.
  - assert (He : nth_error entries k = Some e).
    { rewrite <- (firstn_skipn k entries), Hskip.
      rewrite nth_error_app2; rewrite length_firstn; [| lia].
      replace (k - Nat.min k (List.length entries))%nat with 0%nat by lia.
      reflexivity. }
    assert (Hlt : (k < List.length entries)%nat).
    { apply nth_error_Some. congruence. }
    destruct (_ <? _); [| cbn; now rewrite push_nil].
    unfold bind. rewrite (bar_at F yMax Hlen k e) by auto.
    destruct (format_number _ _) as [s |]; [| reflexivity].
    rewrite of_nat_succ by lia.
    rewrite IH; auto.
    + apply outcome_of_prepend.
    + rewrite (nth_error_skipn _ _ _ He) in Hskip. now inversion Hskip.
    + cbn in Hfuel. lia.
Qed.

End BarLoopRun.

Lemma draw_bars_exact (fuel : nat) (w : World) :
  let F := frame_of w in
  (Z.of_nat (List.length (_entries (this w))) < 2 ^ 53)%Z ->
  (List.length (_entries (this w)) < fuel)%nat ->
  _draw_bars fuel w = outcome_of tt (draw_bars_run F) w.
Proof.
  intros F Hlen Hfuel. unfold _draw_bars.
  unfold bind at 1, get_canvas. unfold bind at 1, get_this.
  rewrite bind_draw_call. unfold bind at 1.
  change (for_loop fuel _ _ 0 (push [Save] w))
    with (for_loop fuel
            (fun i => i <? graphSegments_X (_options (frame_this F)))
            (bar_in F (yMax (_options (frame_this F)))) (JS.of_nat 0)
            (push [Save] w)).
  rewrite (bars_loop_run F _ Hlen (_entries (this w)));
    [| repeat split | reflexivity | lia | exact Hfuel].
  unfold draw_bars_run. fold F. cbn [frame_this F frame_of].
  destruct (bars_run _ _ _ _) as [c | c]; cbn [outcome_of prepend].
  - rewrite draw_call_push, !push_push. reflexivity.
  - rewrite !push_push. reflexivity.
Qed.

Lemma rects_app (l l' : list Cmd) : rects (l ++ l') = (rects l ++ rects l')%list.
Proof. apply filter_app. Qed.

Lemma rects_no_rect (l : list Cmd) : Forall no_rect l -> rects l = [].
Proof.
  induction 1 as [| c l Hc _ IH]; [reflexivity |].
  unfold rects in *. cbn. unfold no_rect in Hc. now rewrite Hc.
Qed.

Lemma rects_bar_calls (F : Frame) (y i : number) (e : BarEntry) (s : string) :
  rects (bar_calls F y i e s) = [bar_rect F y i e].
Proof. unfold bar_calls. destruct (valueLabel e); reflexivity. Qed.

Lemma bars_run_done (F : Frame) (y : number) (rest : list BarEntry) :
  forall k c,
    bars_run F y k rest = Done c ->
    exists n,
      (n <= List.length rest)%nat
      /\ rects c = bar_rects F y k (firstn n rest)
      /\ (forall j, (j < n)%nat ->
            (JS.of_nat (k + j) <? graphSegments_X (_options (frame_this F)))
            = true)
      /\ ((n < List.length rest)%nat ->
          (JS.of_nat (k + n) <? graphSegments_X (_options (frame_this F)))
          = false).
Proof.
  induction rest as [| e rest IH]; intros k c H; cbn [bars_run] in H.
  - inversion H. exists 0%nat. cbn. repeat split; auto; intros; lia.
  - destruct (_ <? _) eqn:Hc.
    + destruct (format_number _ _) as [s |]; [| discriminate].
      destruct (bars_run F y (S k) rest) as [c1 | c1] eqn:Hr; [| discriminate].
      assert (Hc' : c = (bar_calls F y (JS.of_nat k) e s ++ c1)%list)
        by (cbn [prepend] in H; congruence).
      clear H. subst c.
      destruct (IH _ _ Hr) as (n & Hn & Hrects & Hall & Hstop).
      exists (S n). cbn [List.length firstn]. split; [lia |]. split; [| split].
      * rewrite rects_app, rects_bar_calls, Hrects. reflexivity.
      * intros [| j] Hj.
        -- now rewrite Nat.add_0_r.
        -- replace (k + S j)%nat with (S k + j)%nat by lia. apply Hall. lia.
      * intros Hlt. replace (k + S n)%nat with (S k + n)%nat by lia.
        apply Hstop. lia.
    + inversion H. exists 0%nat. cbn [firstn List.length]. 
      split; [lia |]. split; [reflexivity |]. split; [intros; lia |].
      intros _. now rewrite Nat.add_0_r.
Qed.

(** ** Loops that count up to a limit *)

Section CountedLoop.

Variable F : Frame.
Variable cond : number -> bool.
Variable body : number -> M bool.
Variable pass : nat -> Run.
Variable limit : nat.

Hypothesis Hlimit : (Z.of_nat limit < 2 ^ 53)%Z.
Hypothesis Hcond :
  forall k, (k <= limit)%nat -> cond (JS.of_nat k) = (k <? limit)%nat.
Hypothesis Hbody :
  forall k w, in_frame F w -> (k < limit)%nat ->
              body (JS.of_nat k) w = outcome_of true (pass k) w.

Lemma counted_loop (n : nat) :
  forall (fuel k : nat) (w : World),
    in_frame F w ->
    (k + n = limit)%nat ->
    (n < fuel)%nat ->
    for_loop fuel cond body (JS.of_nat k) w
    = outcome_of tt (passes pass k n) w.
Proof.
  induction n as [| n IH]; intros fuel k w Hw Hk Hfuel;
    (destruct fuel as [| fuel]; [lia |]); cbn [for_loop passes].
  - rewrite Hcond by lia.
    destruct (Nat.ltb_spec k limit); [lia |]. cbn. now rewrite push_nil.
  - rewrite Hcond by lia.
    destruct (Nat.ltb_spec k limit); [| lia].
    unfold bind. rewrite Hbody by (auto; lia).
    destruct (pass k) as [c | c]; cbn [outcome_of]; [| reflexivity].
    rewrite of_nat_succ by lia.
    rewrite IH; auto; try lia.
    apply outcome_of_prepend.
Qed.

End CountedLoop.

(** ** The tick loops *)

Lemma yValStr_format (v p : number) (w : World) :
  yValStr v p w
  = match format_number p v with
    | Some s => Returns s w
    | None => Throws RangeError w
    end.
Proof.
  unfold yValStr, format_number, toFixed.
  destruct (JS.rem1 v =? 0); [reflexivity |].
  now destruct (JS.toFixed v p).
Qed.

Lemma tick_label_pure (entry : option BarEntry) (p i : number) (w : World) :
  tick_label entry p i w
  = match tick_label_of entry p i with
    | Some v => Returns v w
    | None => Throws RangeError w
    end.
Proof.
  unfold tick_label, tick_label_of. destruct (label_of entry) as [l |]; [| reflexivity].
  unfold bind. destruct (JS.isNaN _); [reflexivity |].
  destruct (negb _); [reflexivity |].
  unfold toFixed. now destruct (JS.toFixed _ _).
Qed.

Lemma y_segment_at (F : Frame) (i : number) (w : World) :
  in_frame F w ->
  y_segment_in F i w = outcome_of true (y_pass F i) w.
Proof.
  intros (Ht & _). unfold y_segment_in, y_segment.
  unfold bind at 1, get_this. rewrite Ht.
  rewrite !bind_draw_call, !push_push. cbn [app].
  unfold bind at 1. rewrite yValStr_format. unfold y_pass, y_tick_value.
  destruct (format_number _ _) as [s |]; cbn [outcome_of mark app].
  - rewrite bind_draw_call. unfold ret. now rewrite push_push.
  - reflexivity.
Qed.

Lemma x_segment_at (F : Frame) (i : number) (w : World) :
  in_frame F w ->
  x_segment_in F i w
  = outcome_of true (x_pass F i (element (_entries (frame_this F)) i)) w.
Proof.
  intros (Ht & _). unfold x_segment_in, x_segment.
  unfold bind at 1, get_this. rewrite Ht.
  rewrite !bind_draw_call, !push_push. cbn [app].
  unfold x_pass.
  set (entry := element (_entries (frame_this F)) i).
  assert (Hrest : forall w0 calls,
    (v <- tick_label entry (graphValuePrecision (_options (frame_this F))) i ;;
     draw_call (FillText (toStr v)
                  (_x_padding (frame_this F)
                   + (frame_WIDTH F - _x_padding (frame_this F))
                     / graphSegments_X (_options (frame_this F)) * i)
                  (frame_HEIGHT F - _y_offset (frame_this F) + 12)) ;;
     ret true) (push calls w0)
    = outcome_of true
        match tick_label_of entry (graphValuePrecision (_options (frame_this F))) i with
        | Some v =>
            Done (calls ++ [FillText (toStr v)
                  (_x_padding (frame_this F)
                   + (frame_WIDTH F - _x_padding (frame_this F))
                     / graphSegments_X (_options (frame_this F)) * i)
                  (frame_HEIGHT F - _y_offset (frame_this F) + 12)])%list
        | None => Thrown calls
        end w0).
  { intros w0 calls. unfold bind at 1. rewrite tick_label_pure.
    destruct (tick_label_of _ _ _) as [v |]; cbn [outcome_of]; [| reflexivity].
    rewrite bind_draw_call. unfold ret. now rewrite push_push. }
  destruct (label_of entry) as [[| c l] |]; cbn [mark app].
  - reflexivity.
  - apply Hrest.
  - apply Hrest.
Qed.

Lemma outline_exact (w : World) :
  _draw_graph_outline w = Returns tt (push (outline_calls (frame_of w)) w).
Proof.
  unfold _draw_graph_outline, outline_calls.
  unfold bind at 1, get_canvas.
  rewrite !bind_draw_call, !push_push. unfold bind at 1, get_this.
  cbn [this push frame_of frame_this frame_HEIGHT frame_WIDTH canvas
       WIDTH HEIGHT].
  rewrite !bind_draw_call, !push_push.
  unfold bind at 1, when.
  destruct (truthy (Str (titleText _)));
    rewrite ?draw_call_push; unfold ret; rewrite ?push_push;
    rewrite !bind_draw_call, !push_push;
    unfold bind at 1;
    (destruct (truthy (Str (xAxisText _)));
     rewrite ?draw_call_push; unfold ret; rewrite ?push_push;
     rewrite !bind_draw_call, !push_push;
     unfold bind at 1;
     (destruct (truthy (Str (yAxisText _)));
      rewrite ?draw_call_push; unfold ret; rewrite ?push_push;
      rewrite !bind_draw_call, ?draw_call_push, !push_push;
      reflexivity)).
Qed.

Lemma derive_world_unset (w : World) :
  (yMax_of w =? -1) = true ->
  derive_world w
  = {| this := with_options
                 (with_yMax (Utils.max (map val (_entries (this w))))
                    (_options (this w))) (this w);
       canvas := canvas w;
       console :=
         if verbose (_options (this w))
         then (console w
               ++ [{| message := "yMax Evaluated to: ";
                      argument :=
                        NumArg (Utils.max (map val (_entries (this w)))) |}])%list
         else console w |}.
Proof.
  intros H. unfold derive_world, derive_yMax. unfold yMax_of in *.
  now rewrite H.
Qed.

Lemma derive_world_set (w : World) :
  (yMax_of w =? -1) = false -> derive_world w = w.
Proof.
  intros H. unfold derive_world, derive_yMax. unfold yMax_of in *.
  rewrite H. cbn. now destruct w.
Qed.

Section Segments.

Variables M N : nat.
Hypothesis HM : (Z.of_nat M < 2 ^ 53)%Z.
Hypothesis HN : (Z.of_nat N < 2 ^ 53)%Z.

Lemma ticks_exact (fuel : nat) (w : World) (H W gY gX p : number) :
  let F := frame_of w in
  H = HEIGHT (canvas w) ->
  W = WIDTH (canvas w) ->
  gY = graphSegments_Y (_options (this w)) ->
  gX = graphSegments_X (_options (this w)) ->
  p = graphValuePrecision (_options (this w)) ->
  gY = JS.of_nat M ->
  gX = JS.of_nat N ->
  (M < fuel)%nat -> (N < fuel)%nat ->
  (for_loop fuel (fun i => i <? gY - 1)
     (y_segment H (H / gY) (H / gY * (gY - 2)) p) 0 ;;
   t <- get_this ;;
   for_loop fuel (fun i => i <? gX - 1)
     (x_segment H ((W - _x_padding t) / gX) p) 0) w
  = outcome_of tt (ticks_run F M N) w.
Proof.
  intros F -> -> HgY' HgX' -> HgY HgX HfM HfN.
  assert (HF : in_frame F w) by (repeat split).
  unfold bind at 1.
  change 0 with (JS.of_nat 0).
  subst gY.
  change (y_segment _ _ _ _) with (y_segment_in F).
  rewrite (counted_loop F _ (y_segment_in F)
             (fun k => y_pass F (JS.of_nat k)) (pred M)) with (n := pred M);
    try lia; auto.
  - unfold ticks_run, y_ticks_run.
    destruct (passes _ 0 (pred M)) as [c | c]; cbn [outcome_of]; [| reflexivity].
    unfold bind at 1, get_this. subst gX.
    change (x_segment _ _ _) with (x_segment_in F).
    rewrite (counted_loop F _ (x_segment_in F)
               (fun k => x_pass F (JS.of_nat k)
                           (nth_error (_entries (frame_this F)) k)) (pred N))
      with (n := pred N); try lia; auto.
    + apply outcome_of_prepend.
    + intros k Hk. rewrite HgX, ltb_of_nat_pred by lia.
      destruct (Nat.ltb_spec (S k) N), (Nat.ltb_spec k (pred N)); lia.
    + intros k w0 Hw0 Hk. rewrite x_segment_at by exact Hw0.
      rewrite element_of_nat by lia. reflexivity.
  - intros k Hk. rewrite HgY, ltb_of_nat_pred by lia.
    destruct (Nat.ltb_spec (S k) M), (Nat.ltb_spec k (pred M)); lia.
  - intros k w0 Hw0 Hk. now apply y_segment_at.
Qed.

Lemma segments_exact (fuel : nat) (w : World) :
  graphSegments_Y (_options (this w)) = JS.of_nat M ->
  graphSegments_X (_options (this w)) = JS.of_nat N ->
  (M < fuel)%nat -> (N < fuel)%nat ->
  _draw_graph_segments fuel w
  = outcome_of tt (ticks_run (frame_of (derive_world w)) M N) (derive_world w).
Proof.
  intros HgY HgX HfM HfN.
  unfold _draw_graph_segments.
  unfold bind at 1, get_canvas. unfold bind at 1, get_this.
  unfold bind at 1.
  destruct (yMax (_options (this w)) =? -1) eqn:Hy.
  - rewrite (derive_world_unset w Hy).
    match goal with
    | |- match ?m w with _ => _ end = _ =>
        assert (Hm : m w = Returns tt
          {| this := with_options
                 (with_yMax (Utils.max (map val (_entries (this w))))
                    (_options (this w))) (this w);
             canvas := canvas w;
             console :=
               if verbose (_options (this w))
               then (console w
                     ++ [{| message := "yMax Evaluated to: ";
                            argument :=
                              NumArg (Utils.max (map val (_entries (this w)))) |}])%list
               else console w |})
    end.
    { unfold bind, set_this, when. now destruct (verbose _). }
    rewrite Hm. clear Hm.
    apply ticks_exact; auto.
  - rewrite (derive_world_set w Hy). unfold ret.
    apply ticks_exact; auto.
Qed.

End Segments.

Lemma draw_exact (M N fuel : nat) (w : World) :
  (Z.of_nat (List.length (_entries (this w))) < 2 ^ 53)%Z ->
  (Z.of_nat M < 2 ^ 53)%Z ->
  (Z.of_nat N < 2 ^ 53)%Z ->
  graphSegments_Y (_options (this w)) = JS.of_nat M ->
  graphSegments_X (_options (this w)) = JS.of_nat N ->
  (List.length (_entries (this w)) < fuel)%nat ->
  (M < fuel)%nat -> (N < fuel)%nat ->
  draw fuel w = draw_outcome M N w.
Proof.
  intros Hlen HM HN HgY HgX Hf HfM HfN.
  unfold draw, draw_outcome. unfold bind at 1, get_this. cbv zeta.
  rewrite bind_draw_call. unfold bind at 1.
  fold (background_call (this w)).
  rewrite draw_bars_exact by assumption.
  change (frame_of (push _ w)) with (frame_of w).
  destruct (draw_bars_run (frame_of w)) as [c | c]; cbn [outcome_of].
  - unfold bind at 1. rewrite outline_exact.
    change (frame_of (push _ (push _ w))) with (frame_of w).
    rewrite !push_push. cbn [app].
    apply (segments_exact M N HM HN); auto.
  - now rewrite push_push.
Qed.

(** ** More fuel changes nothing *)

Lemma draw_bars_shape (w : World) :
  exists cond body,
    forall fuel,
      _draw_bars fuel w
      = match for_loop fuel cond body 0 (push [Save] w) with
        | Returns _ w1 => Returns tt (push [Restore] w1)
        | Throws e w1 => Throws e w1
        | OutOfFuel => OutOfFuel
        end.
Proof.
  exists (fun i => i <? graphSegments_X (_options (this w))),
         (bar_in (frame_of w) (yMax (_options (this w)))).
  intros fuel. unfold _draw_bars.
  unfold bind at 1, get_canvas. unfold bind at 1, get_this. cbv zeta.
  rewrite bind_draw_call. unfold bind at 1.
  change (for_loop fuel _ _ 0 (push [Save] w))
    with (for_loop fuel
            (fun i => i <? graphSegments_X (_options (this w)))
            (bar_in (frame_of w) (yMax (_options (this w)))) 0
            (push [Save] w)).
  destruct (for_loop _ _ _ _ _); reflexivity.
Qed.

Lemma draw_bars_more_fuel (fuel fuel' : nat) (w : World) :
  (fuel <= fuel')%nat ->
  _draw_bars fuel w <> OutOfFuel ->
  _draw_bars fuel' w = _draw_bars fuel w.
Proof.
  intros Hle. destruct (draw_bars_shape w) as (cond & body & Hs).
  rewrite !Hs. intros Hne.
  rewrite (for_loop_more_fuel _ _ fuel fuel' Hle); [reflexivity |].
  intros E. rewrite E in Hne. congruence.
Qed.

Lemma draw_stages (fuel : nat) (w w' : World) :
  draw fuel w = Returns tt w' ->
  exists w1 w2,
    _draw_bars fuel (push [background_call (this w)] w) = Returns tt w1
    /\ _draw_graph_outline w1 = Returns tt w2
    /\ _draw_graph_segments fuel w2 = Returns tt w'.
Proof.
  unfold draw. unfold bind at 1, get_this. cbv zeta.
  rewrite bind_draw_call. unfold bind at 1.
  fold (background_call (this w)).
  destruct (_draw_bars fuel _) as [[] w1 | |] eqn:Hb; try discriminate.
  unfold bind at 1.
  destruct (_draw_graph_outline w1) as [[] w2 | |] eqn:Ho; try discriminate.
  intros H. exists w1, w2. exact (conj eq_refl (conj Ho H)).
Qed.

(* ================================================================== *)
(** * Further properties of the class                                *)
(* ================================================================== *)

(** ** The entry store *)

(** X1: [add(entry)] appends: entries added one after the other end up
    behind those already in the store, in the order of the calls, and
    nothing else of the chart, the surface or the console changes. *)
Theorem add_appends_in_order (entries : list BarEntry) (w : World) :
  exists w',
    run (map Add entries) w = Returns tt w'
    /\ _entries (this w') = (_entries (this w) ++ entries)%list
    /\ _options (this w') = _options (this w)
    /\ _x_padding (this w') = _x_padding (this w)
    /\ _y_padding (this w') = _y_padding (this w)
    /\ _x_offset (this w') = _x_offset (this w)
    /\ _y_offset (this w') = _y_offset (this w)
    /\ canvas w' = canvas w
    /\ console w' = console w.
Proof.
  eexists. split; [apply run_adds |]. cbn. auto 10.
Qed.

(** ** What [draw()] leaves alone *)

Lemma derive_yMax_kept (t : Graph) :
  _entries (derive_yMax t) = _entries t
  /\ _x_padding (derive_yMax t) = _x_padding t
  /\ _y_padding (derive_yMax t) = _y_padding t
  /\ _x_offset (derive_yMax t) = _x_offset t
  /\ _y_offset (derive_yMax t) = _y_offset t
  /\ with_yMax 0 (_options (derive_yMax t)) = with_yMax 0 (_options t).
Proof.
  unfold derive_yMax. destruct (_ =? _); cbn; auto 10.
Qed.

(** X2: [draw()] never touches the entry store, the offsets, the size of
    the surface or any option other than [yMax], and it only adds to
    the calls the surface has received; this holds when it returns and
    when it throws. *)
Theorem draw_keeps_the_chart (fuel : nat) (w : World) :
  match draw fuel w with
  | Returns _ w' => chart_kept w w'
  | Throws _ w' => chart_kept w w'
  | OutOfFuel => True
  end.
Proof.
  pose proof (draw_effect fuel w) as H.
  assert (Hd : forall Q w', derives Q w w' -> chart_kept w w').
  { intros Q w' (Ht & HW & HH & new & Hctx & _). unfold chart_kept.
    rewrite Ht. destruct (derive_yMax_kept (this w)) as (? & ? & ? & ? & ? & ?).
    repeat (split; [assumption |]). eauto. }
  assert (Hs : forall Q w', steps Q w w' -> chart_kept w w').
  { intros Q w' (Ht & HW & HH & new & Hctx & _). unfold chart_kept.
    rewrite Ht. repeat (split; [assumption || reflexivity |]). eauto. }
  destruct (draw fuel w) as [x w' | e w' |]; [eauto | | exact I].
  destruct H; eauto.
Qed.

(** ** Properties that painting keeps *)

Lemma segments_unfold (fuel : nat) (w : World) :
  _draw_graph_segments fuel w
  = tick_loops fuel (HEIGHT (canvas w)) (WIDTH (canvas w))
      (graphSegments_Y (_options (this w)))
      (graphSegments_X (_options (this w)))
      (graphValuePrecision (_options (this w))) (derive_world w).
Proof.
  unfold _draw_graph_segments.
  unfold bind at 1, get_canvas. unfold bind at 1, get_this.
  unfold bind at 1.
  destruct (yMax (_options (this w)) =? -1) eqn:Hy.
  - rewrite (derive_world_unset w Hy).
    match goal with
    | |- match ?m w with _ => _ end = _ =>
        assert (Hm : m w = Returns tt
          {| this := with_options
                 (with_yMax (Utils.max (map val (_entries (this w))))
                    (_options (this w))) (this w);
             canvas := canvas w;
             console :=
               if verbose (_options (this w))
               then (console w
                     ++ [{| message := "yMax Evaluated to: ";
                            argument :=
                              NumArg (Utils.max (map val (_entries (this w)))) |}])%list
               else console w |})
    end.
    { unfold bind, set_this, when. now destruct (verbose _). }
    rewrite Hm. reflexivity.
  - rewrite (derive_world_set w Hy). reflexivity.
Qed.

Section Keeps.

Variable P : World -> Prop.
Hypothesis Hcall : forall c w, P w -> P (push [c] w).

Lemma keeps_ret {A} (x : A) : keeps P (ret x).
Proof. intros w Hw. exact Hw. Qed.

Lemma keeps_throw {A} (e : Error) : keeps P (@throw A e).
Proof. intros w Hw. exact Hw. Qed.

Lemma keeps_bind {A B} (m : M A) (k : A -> M B) :
  keeps P m -> (forall x, keeps P (k x)) -> keeps P (bind m k).
Proof.
  intros Hm Hk w Hw. unfold bind. specialize (Hm w Hw).
  destruct (m w) as [x w1 | e w1 |]; auto. now apply Hk.
Qed.

Lemma keeps_get_this {B} (k : Graph -> M B) :
  (forall t, keeps P (k t)) -> keeps P (bind get_this k).
Proof. intros Hk w Hw. unfold bind, get_this. now apply Hk. Qed.

Lemma keeps_get_canvas {B} (k : CanvasInstance -> M B) :
  (forall cv, keeps P (k cv)) -> keeps P (bind get_canvas k).
Proof. intros Hk w Hw. unfold bind, get_canvas. now apply Hk. Qed.

Lemma keeps_draw_call (c : Cmd) : keeps P (draw_call c).
Proof. intros w Hw. rewrite draw_call_push. now apply Hcall. Qed.

Lemma keeps_when (c : bool) (m : M unit) : keeps P m -> keeps P (when c m).
Proof. intros Hm. destruct c; [exact Hm | apply keeps_ret]. Qed.

Lemma keeps_toFixed (x p : number) : keeps P (toFixed x p).
Proof.
  unfold toFixed. destruct (JS.toFixed x p); [apply keeps_ret | apply keeps_throw].
Qed.

Lemma keeps_for_loop (fuel : nat) (cond : number -> bool)
    (body : number -> M bool) :
  (forall i, keeps P (body i)) ->
  forall i, keeps P (for_loop fuel cond body i).
Proof.
  intros Hbody. induction fuel as [| fuel IH]; intros i; cbn [for_loop].
  - now intros w _.
  - destruct (cond i); [| apply keeps_ret].
    apply keeps_bind; [apply Hbody |].
    intros [|]; [apply IH | apply keeps_ret].
Qed.

End Keeps.

Ltac keep_step :=
  lazymatch goal with
  | |- keeps _ (bind get_this _) => apply keeps_get_this; intros ?
  | |- keeps _ (bind get_canvas _) => apply keeps_get_canvas; intros ?
  | |- keeps _ (bind _ _) => apply keeps_bind; [| intros ?]
  | |- keeps _ (ret _) => apply keeps_ret
  | |- keeps _ (throw _) => apply keeps_throw
  | |- keeps _ (toFixed _ _) => apply keeps_toFixed
  | |- keeps _ (when _ _) => apply keeps_when
  | |- keeps _ (draw_call _) => apply keeps_draw_call; assumption
  | |- keeps _ (for_loop _ _ _ _) => apply keeps_for_loop; intros ?
  end.

Section KeptByMethods.

Variable P : World -> Prop.
Hypothesis Hcall : forall c w, P w -> P (push [c] w).

Lemma keeps_bar (H m xs bw p y i : number) : keeps P (bar H m xs bw p y i).
Proof.
  unfold bar. keep_step. destruct (_ <=? _); [keep_step |].
  destruct (element _ _); repeat keep_step.
  - unfold bar_val. destruct (negb _); repeat keep_step.
  - destruct (valueLabel _); repeat keep_step.
Qed.

Lemma keeps_draw_bars (fuel : nat) : keeps P (_draw_bars fuel).
Proof. unfold _draw_bars. repeat keep_step. now apply keeps_bar. Qed.

Lemma keeps_outline : keeps P _draw_graph_outline.
Proof. unfold _draw_graph_outline. repeat keep_step. Qed.

Lemma keeps_y_segment (H h m p i : number) : keeps P (y_segment H h m p i).
Proof.
  unfold y_segment. repeat keep_step.
  unfold yValStr. destruct (_ =? _); repeat keep_step.
Qed.

Lemma keeps_x_segment (H xs p i : number) : keeps P (x_segment H xs p i).
Proof.
  unfold x_segment. repeat keep_step.
  destruct (label_of _) as [[| c l] |]; repeat keep_step;
    unfold tick_label;
    (destruct (label_of _); repeat keep_step;
     destruct (JS.isNaN _); repeat keep_step;
     destruct (negb _); repeat keep_step).
Qed.

Lemma keeps_tick_loops (fuel : nat) (H W gY gX p : number) :
  keeps P (tick_loops fuel H W gY gX p).
Proof.
  unfold tick_loops. repeat keep_step.
  - now apply keeps_y_segment.
  - now apply keeps_x_segment.
Qed.

(** [draw()] keeps what painting keeps and the derivation step keeps. *)
Lemma keeps_draw (fuel : nat) :
  (forall w, P w -> P (derive_world w)) -> keeps P (draw fuel).
Proof.
  intros Hderive. unfold draw. repeat keep_step.
  - now apply keeps_draw_bars.
  - now apply keeps_outline.
  - intros w Hw. rewrite segments_unfold.
    apply keeps_tick_loops. now apply Hderive.
Qed.

End KeptByMethods.

Section KeptByOperations.

Variable P : World -> Prop.
Hypothesis Hcall : forall c w, P w -> P (push [c] w).
Hypothesis Hderive : forall w, P w -> P (derive_world w).
Hypothesis Hadd :
  forall e w,
    P w ->
    P {| this := with_entries (_entries (this w) ++ [e]) (this w);
         canvas := canvas w; console := console w |}.

Lemma keeps_run (ops : list Op) : keeps P (run ops).
Proof.
  induction ops as [| [e | fuel] ops IH]; cbn [run perform].
  - apply keeps_ret.
  - apply keeps_bind; [| intros _; exact IH].
    intros w Hw. rewrite add_returns. now apply Hadd.
  - apply keeps_bind; [| intros _; exact IH].
    now apply keeps_draw.
Qed.

End KeptByOperations.

(** ** The shared surface *)

(** X3: a chart constructed while no surface exists creates it with its own
    configured size; whatever is added and drawn afterwards, a second
    chart constructed later finds that surface ready and draws on it at
    the first chart's size, whatever its own configuration asks for,
    and the constructor adds no call to the surface. *)
Theorem second_chart_reuses_surface
    (c1 c2 : option Partial.GraphOptions)
    (cv : CanvasInstance) (log : list LogEntry) (ops : list Op) :
  Canvas.ready cv = false ->
  match run ops (constructor c1 cv log) with
  | Returns _ w1 | Throws _ w1 =>
      let w2 := constructor c2 (canvas w1) (console w1) in
      surface_is (width (resolve c1)) (height (resolve c1)) w2
      /\ ctx (canvas w2) = ctx (canvas w1)
  | OutOfFuel => True
  end.
Proof.
  intros Hfresh.
  set (P := surface_is (width (resolve c1)) (height (resolve c1))).
  assert (H1 : P (constructor c1 cv log)).
  { unfold P, surface_is, constructor, Canvas.ready in *.
    rewrite Hfresh. cbn. destruct (verbose (resolve c1)); cbn; auto. }
  assert (Hk : keeps P (run ops)).
  { apply keeps_run; unfold P, surface_is; intros; assumption. }
  specialize (Hk _ H1).
  assert (H2 : forall w1, P w1 ->
             let w2 := constructor c2 (canvas w1) (console w1) in
             P w2 /\ ctx (canvas w2) = ctx (canvas w1)).
  { intros w1 (Hr & HW & HH). unfold P, surface_is, constructor.
    unfold Canvas.ready. rewrite Hr. cbn. auto. }
  destruct (run ops _) as [u w1 | e w1 |];
    [apply (H2 w1 Hk) | apply (H2 w1 Hk) | exact I].
Qed.

Lemma second_chart_reuses_surface_witness :
  let small := supply_all (with_yMax 10 defaults) in
  Canvas.ready Canvas.fresh = false
  /\ match run [Add (sample_entry 5); Draw 20]
             (constructor None Canvas.fresh []) with
     | Returns _ w1 | Throws _ w1 =>
         let w2 := constructor (Some small) (canvas w1) (console w1) in
         surface_is (width (resolve None)) (height (resolve None)) w2
         /\ ctx (canvas w2) = ctx (canvas w1)
     | OutOfFuel => True
     end.
Proof.
  intros small. split; [reflexivity |].
  exact (second_chart_reuses_surface None (Some small) Canvas.fresh []
           [Add (sample_entry 5); Draw 20] eq_refl).
Defined.

(** ** The console *)

(** X4: a chart that is not verbose never writes to the console: neither
    its constructor nor any [add()] or [draw()], returning or throwing. *)
Theorem quiet_unless_verbose
    (config : option Partial.GraphOptions)
    (cv : CanvasInstance) (log : list LogEntry) (ops : list Op) :
  verbose (resolve config) = false ->
  console (constructor config cv log) = log
  /\ match run ops (constructor config cv log) with
     | Returns _ w' | Throws _ w' => console w' = log
     | OutOfFuel => True
     end.
Proof.
  intros Hq.
  assert (H1 : quiet_at log (constructor config cv log)).
  { unfold quiet_at, constructor. rewrite Hq.
    destruct (negb _); cbn; auto. }
  split; [apply H1 |].
  assert (Hk : keeps (quiet_at log) (run ops)).
  { apply keeps_run; unfold quiet_at.
    - intros c w Hw. exact Hw.
    - intros w (Hc & Hv). unfold derive_world. cbn [console this].
      rewrite Hv, andb_false_r. split; [exact Hc |].
      unfold derive_yMax. now destruct (_ =? _).
    - intros e w Hw. exact Hw. }
  specialize (Hk _ H1). destruct (run ops _); [apply Hk | apply Hk | exact I].
Qed.

Lemma quiet_unless_verbose_witness :
  verbose (resolve None) = false
  /\ console (constructor None Canvas.fresh []) = []
  /\ match run [Add (sample_entry 5); Draw 20]
             (constructor None Canvas.fresh []) with
     | Returns _ w' | Throws _ w' => console w' = []
     | OutOfFuel => True
     end.
Proof.
  split; [reflexivity |].
  exact (quiet_unless_verbose None Canvas.fresh []
           [Add (sample_entry 5); Draw 20] eq_refl).
Defined.

(** ** [draw()] for any fuel and any segment counts *)

Lemma draw_bars_any_fuel (fuel : nat) (w : World) :
  (Z.of_nat (List.length (_entries (this w))) < 2 ^ 53)%Z ->
  _draw_bars fuel w <> OutOfFuel ->
  _draw_bars fuel w = outcome_of tt (draw_bars_run (frame_of w)) w.
Proof.
  intros Hlen Hne.
  rewrite <- (draw_bars_more_fuel fuel
                (Nat.max fuel (S (List.length (_entries (this w))))) w)
    by (auto; lia).
  apply draw_bars_exact; [assumption | lia].
Qed.

(** [draw()] up to its last step: the background, the bars and the
    outline are as the frame says, and the ticks follow unless a bar
    could not be formatted. *)
Lemma draw_unfold (fuel : nat) (w : World) :
  (Z.of_nat (List.length (_entries (this w))) < 2 ^ 53)%Z ->
  draw fuel w = OutOfFuel
  \/ draw fuel w
     = match draw_bars_run (frame_of w) with
       | Thrown c => Throws RangeError (push (background_call (this w) :: c) w)
       | Done c =>
           _draw_graph_segments fuel
             (push (background_call (this w)
                      :: c ++ outline_calls (frame_of w)) w)
       end.
Proof.
  intros Hlen.
  assert (E : forall o,
             _draw_bars fuel (push [background_call (this w)] w) = o ->
             draw fuel w
             = match o with
               | Returns _ w1 =>
                   (_draw_graph_outline ;; _draw_graph_segments fuel) w1
               | Throws e w1 => Throws e w1
               | OutOfFuel => OutOfFuel
               end).
  { intros o <-. reflexivity. }
  destruct (_draw_bars fuel (push [background_call (this w)] w)) eqn:Hb;
    rewrite (E _ eq_refl); [| | now left]; right;
    rewrite draw_bars_any_fuel in Hb by (assumption || congruence);
    change (frame_of (push _ w)) with (frame_of w) in Hb;
    destruct (draw_bars_run (frame_of w)) as [c | c]; cbn [outcome_of] in Hb;
    try discriminate; injection Hb as <- <-.
  - unfold bind at 1. rewrite outline_exact.
    change (frame_of (push _ (push _ w))) with (frame_of w).
    now rewrite !push_push.
  - now rewrite push_push.
Qed.

Lemma emitted_push (c : list Cmd) (w : World) : emitted w (push c w) = c.
Proof. now apply emitted_app. Qed.

Lemma derives_emitted (Q : Cmd -> Prop) (c : list Cmd) (w w' : World) :
  derives Q (push c w) w' ->
  exists new, emitted w w' = (c ++ new)%list /\ Forall Q new.
Proof.
  intros (_ & _ & _ & new & Hctx & HQ). exists new. split; [| exact HQ].
  apply emitted_app. rewrite Hctx. cbn. now rewrite app_assoc.
Qed.

Lemma rects_outline (F : Frame) : rects (outline_calls F) = [].
Proof.
  unfold outline_calls. cbv zeta.
  destruct (truthy (Str (titleText _))), (truthy (Str (xAxisText _))),
    (truthy (Str (yAxisText _))); reflexivity.
Qed.

(** The rectangles of a [draw()] that returns are those of its bars. *)
Lemma draw_rects (fuel : nat) (w w' : World) :
  (Z.of_nat (List.length (_entries (this w))) < 2 ^ 53)%Z ->
  draw fuel w = Returns tt w' ->
  exists c,
    bars_run (frame_of w) (yMax_of w) 0 (_entries (this w)) = Done c
    /\ rects (emitted w w') = rects c.
Proof.
  intros Hlen Hd.
  destruct (draw_unfold fuel w Hlen) as [E | E]; rewrite E in Hd;
    [discriminate |].
  unfold draw_bars_run in Hd. cbn [frame_of frame_this] in Hd.
  fold (yMax_of w) in Hd.
  destruct (bars_run (frame_of w) (yMax_of w) 0 (_entries (this w)))
    as [c | c]; cbn [prepend] in Hd; [| discriminate].
  exists c. split; [reflexivity |].
  pose proof (segments_derive fuel
    (push (background_call (this w)
             :: ([Save] ++ c ++ [Restore]) ++ outline_calls (frame_of w)) w))
    as Hs.
  rewrite Hd in Hs. apply derives_emitted in Hs.
  destruct Hs as (new & -> & Hnew).
  change (background_call (this w) :: ?l)%list
    with ([background_call (this w)] ++ l)%list.
  rewrite !rects_app, rects_outline, (rects_no_rect new Hnew).
  cbn. now rewrite !app_nil_r.
Qed.

(** ** Which bars are painted *)

(** X5: the bars of [draw()] (lines 283-297): a [draw()] that returns has
    painted, in the order of the store and scaled by the axis maximum
    it found, the bars of the first [n] entries for some [n]: every
    slot below [n] passes the test [i < graphSegments_X], and the slot
    [n] fails it unless the store ends there.  This holds for every
    number [graphSegments_X] may be, integral or not. *)
Theorem draw_paints_leading_entries (fuel : nat) (w w' : World) :
  (Z.of_nat (List.length (_entries (this w))) < 2 ^ 53)%Z ->
  draw fuel w = Returns tt w' ->
  exists n : nat,
    (n <= List.length (_entries (this w)))%nat
    /\ rects (emitted w w')
       = bar_rects (frame_of w) (yMax_of w) 0 (firstn n (_entries (this w)))
    /\ (forall j, (j < n)%nat ->
          (JS.of_nat j <? graphSegments_X (_options (this w))) = true)
    /\ ((n < List.length (_entries (this w)))%nat ->
          (JS.of_nat n <? graphSegments_X (_options (this w))) = false).
Proof.
  intros Hlen Hd.
  destruct (draw_rects fuel w w' Hlen Hd) as (c & Hc & ->).
  destruct (bars_run_done _ _ _ _ _ Hc) as (n & Hn & Hr & Hlt & Hge).
  exists n. exact (conj Hn (conj Hr (conj Hlt Hge))).
Qed.

Lemma draw_paints_leading_entries_witness :
  let w := sample_chart 10 2.5 2 [50; 12.5; 75; 20] in
  let w' := after [Draw 20] w in
  (Z.of_nat (List.length (_entries (this w))) < 2 ^ 53)%Z
  /\ draw 20 w = Returns tt w'
  /\ exists n : nat,
       (n <= List.length (_entries (this w)))%nat
       /\ rects (emitted w w')
          = bar_rects (frame_of w) (yMax_of w) 0 (firstn n (_entries (this w)))
       /\ (forall j, (j < n)%nat ->
             (JS.of_nat j <? graphSegments_X (_options (this w))) = true)
       /\ ((n < List.length (_entries (this w)))%nat ->
             (JS.of_nat n <? graphSegments_X (_options (this w))) = false).
Proof.
  intros w w'.
  assert (H1 : (Z.of_nat (List.length (_entries (this w))) < 2 ^ 53)%Z)
    by (vm_compute; reflexivity).
  assert (H2 : draw 20 w = Returns tt w') by (vm_compute; reflexivity).
  exact (conj H1 (conj H2 (draw_paints_leading_entries 20 w w' H1 H2))).
Defined.

(** ** Loops whose counter is any number *)

Section AnyLoop.

Variable F : Frame.
Variable cond : number -> bool.
Variable body : number -> M bool.
Variable pass : number -> Run.
Hypothesis Hbody :
  forall i w, in_frame F w -> body i w = outcome_of true (pass i) w.

Lemma in_frame_push (c : list Cmd) (w : World) :
  in_frame F w -> in_frame F (push c w).
Proof. intros H. exact H. Qed.

(** A loop that ends has made some number of passes, each with a
    counter that passes the loop's test; if no pass threw, the counter
    it stopped at fails the test. *)
Lemma loop_ticks (fuel : nat) :
  forall i w,
    in_frame F w ->
    for_loop fuel cond body i w = OutOfFuel
    \/ exists n,
         for_loop fuel cond body i w
         = outcome_of tt (ticks pass (count_from i n)) w
         /\ Forall (fun j => cond j = true) (count_from i n)
         /\ (forall c, ticks pass (count_from i n) = Done c ->
              cond (counter i n) = false).
Proof.
  induction fuel as [| fuel IH]; intros i w Hw; cbn [for_loop];
    [now left |].
  destruct (cond i) eqn:Hc.
  - unfold bind. rewrite Hbody by exact Hw.
    destruct (pass i) as [c | c] eqn:Hp; cbn [outcome_of].
    + destruct (IH (i + 1) (push c w) (in_frame_push c w Hw))
        as [E | (n & E & Hn & Hstop)]; [now left |].
      right. exists (S n). cbn [count_from ticks counter]. rewrite Hp.
      rewrite E, outcome_of_prepend. split; [reflexivity |].
      split; [now constructor |].
      intros c0 H0. destruct (ticks pass (count_from (i + 1) n)) as [c1 | c1];
        [| discriminate]. now apply (Hstop c1).
    + right. exists 1%nat. cbn [count_from ticks]. rewrite Hp.
      split; [reflexivity |]. split; [now repeat constructor | discriminate].
  - right. exists 0%nat. cbn. rewrite push_nil. now repeat split.
Qed.

End AnyLoop.

(** [_draw_graph_segments()], whatever the segment counts are: the
    derivation step, then some passes of the y-axis loop, then some
    passes of the x-axis loop; a loop that ends without a throw has
    stopped at a counter that fails its test. *)
Lemma segments_runs_stop (fuel : nat) (w : World) :
  _draw_graph_segments fuel w = OutOfFuel
  \/ exists m n,
       _draw_graph_segments fuel w
       = outcome_of tt (tick_runs (frame_of (derive_world w)) m n)
           (derive_world w)
       /\ (forall c,
             tick_runs (frame_of (derive_world w)) m n = Done c ->
             (counter 0 m <? graphSegments_Y (_options (this w)) - 1) = false
             /\ (counter 0 n <? graphSegments_X (_options (this w)) - 1) = false).
Proof.
  remember (_draw_graph_segments fuel w) as o eqn:Eo.
  rewrite segments_unfold in Eo.
  set (w1 := derive_world w) in *. set (F := frame_of w1).
  assert (HF : in_frame F w1) by (repeat split).
  assert (Ho : _options (this w1) = with_yMax (yMax_of w1) (_options (this w))).
  { unfold w1, derive_world, yMax_of, derive_yMax. cbn [this].
    destruct (_ =? _); cbn; [reflexivity |].
    now destruct (_options (this w)). }
  assert (HH : HEIGHT (canvas w) = frame_HEIGHT F) by reflexivity.
  assert (HW : WIDTH (canvas w) = frame_WIDTH F) by reflexivity.
  assert (HgY : graphSegments_Y (_options (this w))
                = graphSegments_Y (_options (frame_this F))).
  { unfold F. cbn [frame_of frame_this]. now rewrite Ho. }
  assert (HgX : graphSegments_X (_options (this w))
                = graphSegments_X (_options (frame_this F))).
  { unfold F. cbn [frame_of frame_this]. now rewrite Ho. }
  assert (Hp : graphValuePrecision (_options (this w))
               = graphValuePrecision (_options (frame_this F))).
  { unfold F. cbn [frame_of frame_this]. now rewrite Ho. }
  rewrite HH, HW, HgY, HgX, Hp in Eo. rewrite HgY, HgX.
  unfold tick_loops in Eo.
  change (y_segment _ _ _ _) with (y_segment_in F) in Eo.
  unfold bind at 1 in Eo.
  destruct (loop_ticks F (fun i => i <? graphSegments_Y (_options (frame_this F)) - 1)
              (y_segment_in F) (y_pass F) (y_segment_at F) fuel 0 w1 HF)
    as [E | (m & E & _ & Hsy)]; rewrite E in Eo; [now left |].
  unfold tick_runs.
  destruct (ticks (y_pass F) (count_from 0 m)) as [c | c] eqn:Ey;
    cbn [outcome_of] in Eo.
  2:{ right. exists m, 0%nat. rewrite Ey. split; [exact Eo | discriminate]. }
  unfold bind at 1, get_this in Eo. cbn [this push] in Eo.
  change (this w1) with (frame_this F) in Eo.
  change (x_segment _ _ _) with (x_segment_in F) in Eo.
  destruct (loop_ticks F (fun i => i <? graphSegments_X (_options (frame_this F)) - 1)
              (x_segment_in F) (x_tick F) (x_segment_at F) fuel 0 (push c w1)
              (in_frame_push F c w1 HF))
    as [E' | (n & E' & _ & Hsx)]; rewrite E' in Eo; [now left |].
  right. exists m, n. rewrite Ey, <- outcome_of_prepend.
  split; [exact Eo |].
  intros c0 H0. split; [now apply (Hsy c) |].
  destruct (ticks (x_tick F) (count_from 0 n)) as [c1 | c1]; [| discriminate].
  now apply (Hsx c1).
Qed.

Lemma segments_runs (fuel : nat) (w : World) :
  _draw_graph_segments fuel w = OutOfFuel
  \/ exists m n,
       _draw_graph_segments fuel w
       = outcome_of tt (tick_runs (frame_of (derive_world w)) m n)
           (derive_world w).
Proof.
  destruct (segments_runs_stop fuel w) as [E | (m & n & E & _)];
    [now left | right; now exists m, n].
Qed.

Lemma derive_world_push (c : list Cmd) (w : World) :
  derive_world (push c w) = push c (derive_world w).
Proof. reflexivity. Qed.

(** [draw()] for any fuel and any segment counts: it runs out of fuel,
    or it throws in the bars, or it paints the background, the bars and
    the outline, derives the axis maximum and makes some passes of the
    two tick loops. *)
Lemma draw_runs (fuel : nat) (w : World) :
  (Z.of_nat (List.length (_entries (this w))) < 2 ^ 53)%Z ->
  draw fuel w = OutOfFuel
  \/ exists m n,
       draw fuel w
       = match draw_bars_run (frame_of w) with
         | Thrown c =>
             Throws RangeError (push (background_call (this w) :: c) w)
         | Done c =>
             outcome_of tt
               (prepend (background_call (this w)
                           :: c ++ outline_calls (frame_of w))
                  (tick_runs (frame_of (derive_world w)) m n))
               (derive_world w)
         end.
Proof.
  intros Hlen. destruct (draw_unfold fuel w Hlen) as [E | E]; [now left |].
  destruct (draw_bars_run (frame_of w)) as [c | c].
  - destruct (segments_runs fuel
                (push (background_call (this w)
                         :: c ++ outline_calls (frame_of w)) w))
      as [E' | (m & n & E')]; rewrite E' in E; [now left |].
    right. exists m, n. rewrite E, derive_world_push.
    now rewrite outcome_of_prepend.
  - right. exists 0%nat, 0%nat. exact E.
Qed.

(** ** When [toFixed] throws *)

Lemma toFixed_throws (x p : number) :
  JS.toFixed x p = None <-> precision_ok p = false.
Proof.
  unfold JS.toFixed, precision_ok.
  destruct (JS.to_integer_or_infinity p) as [f |]; [| tauto].
  destruct ((f <? 0)%Z || (100 <? f)%Z) eqn:E.
  - split; [intros _ | reflexivity].
    apply andb_false_iff. apply orb_true_iff in E.
    destruct E as [E | E]; apply Z.ltb_lt in E;
      [left | right]; apply Z.leb_gt; exact E.
  - split; [discriminate |]. intros H.
    apply orb_false_iff in E. destruct E as (E1 & E2).
    apply Z.ltb_ge in E1, E2.
    apply andb_false_iff in H.
    destruct H as [H | H]; apply Z.leb_gt in H; lia.
Qed.

Lemma format_number_ok (p v : number) :
  precision_ok p = true -> exists s, format_number p v = Some s.
Proof.
  intros Hp. unfold format_number. destruct (_ =? _); [eauto |].
  destruct (JS.toFixed v p) as [s |] eqn:E; [eauto |].
  apply toFixed_throws in E. congruence.
Qed.

Lemma tick_label_ok (entry : option BarEntry) (p i : number) :
  precision_ok p = true -> exists v, tick_label_of entry p i = Some v.
Proof.
  intros Hp. unfold tick_label_of. destruct (label_of entry); [| eauto].
  destruct (JS.isNaN _); [eauto |]. destruct (negb _); [eauto |].
  destruct (JS.toFixed _ p) as [s0 |] eqn:E; cbn [option_map]; [eauto |].
  apply toFixed_throws in E. congruence.
Qed.

Section ValidPrecision.

Variable F : Frame.
Hypothesis Hp : precision_ok (graphValuePrecision (_options (frame_this F))) = true.

Lemma bars_run_ok (y : number) (rest : list BarEntry) :
  forall k, exists c, bars_run F y k rest = Done c.
Proof.
  induction rest as [| e rest IH]; intros k; cbn [bars_run]; [eauto |].
  destruct (_ <? _); [| eauto].
  destruct (format_number_ok _ (val e) Hp) as (s & ->).
  destruct (IH (S k)) as (c & ->). cbn. eauto.
Qed.

Lemma draw_bars_run_ok : exists c, draw_bars_run F = Done c.
Proof.
  unfold draw_bars_run.
  destruct (bars_run_ok (yMax (_options (frame_this F))) (_entries (frame_this F)) 0%nat)
    as (c & ->).
  cbn. eauto.
Qed.

Lemma y_pass_ok (i : number) : exists c, y_pass F i = Done c.
Proof.
  unfold y_pass. cbv zeta.
  destruct (format_number_ok _ (y_tick_value F i) Hp) as (s & ->). eauto.
Qed.

Lemma x_tick_ok (i : number) : exists c, x_tick F i = Done c.
Proof.
  unfold x_tick, x_pass. cbv zeta.
  destruct (tick_label_ok (element (_entries (frame_this F)) i) _ i Hp)
    as (v & ->).
  destruct (label_of _) as [[| a l] |]; eauto.
Qed.

Lemma ticks_ok (pass : number -> Run) (js : list number) :
  (forall i, exists c, pass i = Done c) -> exists c, ticks pass js = Done c.
Proof.
  intros Hpass. induction js as [| j js (c & IH)]; cbn [ticks]; [eauto |].
  destruct (Hpass j) as (c0 & ->). rewrite IH. cbn. eauto.
Qed.

Lemma tick_runs_ok (m n : nat) : exists c, tick_runs F m n = Done c.
Proof.
  unfold tick_runs.
  destruct (ticks_ok (y_pass F) (count_from 0 m) y_pass_ok) as (c & ->).
  destruct (ticks_ok (x_tick F) (count_from 0 n) x_tick_ok) as (c' & ->).
  cbn. eauto.
Qed.

End ValidPrecision.

Lemma derive_precision (w : World) :
  graphValuePrecision (_options (this (derive_world w)))
  = graphValuePrecision (_options (this w)).
Proof.
  unfold derive_world, derive_yMax. cbn [this].
  now destruct (_ =? _).
Qed.

(** ** [draw()] throws for one reason only *)

(** X6: with a precision that [toFixed] accepts, [draw()] never throws:
    whatever the entries, the segment counts and the size of the
    surface are, no number it formats raises a RangeError and no slot
    it reads raises a TypeError. *)
Theorem draw_never_throws_on_valid_precision (fuel : nat) (w : World) :
  (Z.of_nat (List.length (_entries (this w))) < 2 ^ 53)%Z ->
  precision_ok (graphValuePrecision (_options (this w))) = true ->
  forall e w', draw fuel w <> Throws e w'.
Proof.
  intros Hlen Hp e w' Hd.
  destruct (draw_runs fuel w Hlen) as [E | (m & n & E)]; rewrite E in Hd;
    [discriminate |].
  destruct (draw_bars_run_ok (frame_of w) Hp) as (c & Hc). rewrite Hc in Hd.
  destruct (tick_runs_ok (frame_of (derive_world w))
              (eq_trans (f_equal precision_ok (derive_precision w)) Hp) m n)
    as (c' & Hc').
  rewrite Hc' in Hd. discriminate Hd.
Qed.

Lemma draw_never_throws_on_valid_precision_witness :
  let w := sample_chart 10 2.5 2 [50; 12.5; 75; 20] in
  (Z.of_nat (List.length (_entries (this w))) < 2 ^ 53)%Z
  /\ precision_ok (graphValuePrecision (_options (this w))) = true
  /\ forall e w', draw 20 w <> Throws e w'.
Proof.
  intros w.
  assert (H1 : (Z.of_nat (List.length (_entries (this w))) < 2 ^ 53)%Z)
    by (vm_compute; reflexivity).
  assert (H2 : precision_ok (graphValuePrecision (_options (this w))) = true)
    by (vm_compute; reflexivity).
  exact (conj H1 (conj H2 (draw_never_throws_on_valid_precision 20 w H1 H2))).
Defined.

(** ** Bars and slots *)

(** X7: with a whole number [N] of slots, a [draw()] that returns has
    painted the bars of the first [N] entries and no other: [N] bars
    when the store holds that many, else one per entry. *)
Theorem draw_paints_at_most_one_bar_per_slot (N fuel : nat) (w w' : World) :
  (Z.of_nat (List.length (_entries (this w))) < 2 ^ 53)%Z ->
  (Z.of_nat N < 2 ^ 53)%Z ->
  graphSegments_X (_options (this w)) = JS.of_nat N ->
  draw fuel w = Returns tt w' ->
  rects (emitted w w')
  = bar_rects (frame_of w) (yMax_of w) 0 (firstn N (_entries (this w)))
  /\ List.length (rects (emitted w w'))
     = Nat.min N (List.length (_entries (this w))).
Proof.
  intros Hlen HN HgX Hd.
  destruct (draw_rects fuel w w' Hlen Hd) as (c & Hc & ->).
  destruct (bars_run_done _ _ _ _ _ Hc) as (n & Hn & Hr & Hlt & Hge).
  cbn [frame_of frame_this Nat.add] in Hlt, Hge. rewrite HgX in Hlt, Hge.
  assert (HnN : (n <= N)%nat).
  { destruct n as [| n]; [lia |].
    specialize (Hlt n (Nat.lt_succ_diag_r n)).
    rewrite ltb_of_nat in Hlt by lia. apply Nat.ltb_lt in Hlt. lia. }
  assert (Hfirst : firstn n (_entries (this w)) = firstn N (_entries (this w))).
  { destruct (Nat.lt_ge_cases n (List.length (_entries (this w)))) as [H | H].
    - specialize (Hge H). rewrite ltb_of_nat in Hge by lia.
      apply Nat.ltb_ge in Hge. now replace n with N by lia.
    - rewrite !firstn_all2 by lia. reflexivity. }
  rewrite Hr, Hfirst. split; [reflexivity |].
  unfold bar_rects. rewrite length_map, length_combine, length_seq, length_firstn.
  lia.
Qed.

Lemma draw_paints_at_most_one_bar_per_slot_witness :
  let w := sample_chart 10 3 2 [50; 12.5; 75; 20; 30] in
  let w' := after [Draw 20] w in
  (Z.of_nat (List.length (_entries (this w))) < 2 ^ 53)%Z
  /\ (Z.of_nat 3 < 2 ^ 53)%Z
  /\ graphSegments_X (_options (this w)) = JS.of_nat 3
  /\ draw 20 w = Returns tt w'
  /\ rects (emitted w w')
     = bar_rects (frame_of w) (yMax_of w) 0 (firstn 3 (_entries (this w)))
  /\ List.length (rects (emitted w w'))
     = Nat.min 3 (List.length (_entries (this w))).
Proof.
  intros w w'.
  assert (H1 : (Z.of_nat (List.length (_entries (this w))) < 2 ^ 53)%Z)
    by (vm_compute; reflexivity).
  assert (H2 : (Z.of_nat 3 < 2 ^ 53)%Z) by (vm_compute; reflexivity).
  assert (H3 : graphSegments_X (_options (this w)) = JS.of_nat 3)
    by (vm_compute; reflexivity).
  assert (H4 : draw 20 w = Returns tt w') by (vm_compute; reflexivity).
  pose proof (draw_paints_at_most_one_bar_per_slot 3 20 w w' H1 H2 H3 H4)
    as (Ha & Hb).
  exact (conj H1 (conj H2 (conj H3 (conj H4 (conj Ha Hb))))).
Defined.

(** X8: no bar is painted when the store is empty, nor when the slot count
    is not above zero: zero, a negative number or [NaN], which the
    loop test [0 < graphSegments_X] rejects at once. *)
Theorem draw_paints_no_bar_without_slots (fuel : nat) (w w' : World) :
  (Z.of_nat (List.length (_entries (this w))) < 2 ^ 53)%Z ->
  _entries (this w) = []
  \/ (0 <? graphSegments_X (_options (this w))) = false ->
  draw fuel w = Returns tt w' ->
  rects (emitted w w') = [].
Proof.
  intros Hlen Hno Hd.
  destruct (draw_rects fuel w w' Hlen Hd) as (c & Hc & ->).
  destruct (_entries (this w)) as [| e rest]; cbn [bars_run] in Hc.
  - now inversion Hc.
  - destruct Hno as [Hno | Hno]; [discriminate |].
    cbn [frame_of frame_this] in Hc. change (JS.of_nat 0) with 0 in Hc.
    rewrite Hno in Hc. now inversion Hc.
Qed.

Lemma draw_paints_no_bar_without_slots_witness :
  let w := sample_chart 10 nan 2 [50; 12.5] in
  let w' := after [Draw 20] w in
  (Z.of_nat (List.length (_entries (this w))) < 2 ^ 53)%Z
  /\ (_entries (this w) = []
      \/ (0 <? graphSegments_X (_options (this w))) = false)
  /\ draw 20 w = Returns tt w'
  /\ rects (emitted w w') = [].
Proof.
  intros w w'.
  assert (H1 : (Z.of_nat (List.length (_entries (this w))) < 2 ^ 53)%Z)
    by (vm_compute; reflexivity).
  assert (H2 : _entries (this w) = []
               \/ (0 <? graphSegments_X (_options (this w))) = false)
    by (right; vm_compute; reflexivity).
  assert (H3 : draw 20 w = Returns tt w') by (vm_compute; reflexivity).
  exact (conj H1 (conj H2 (conj H3
           (draw_paints_no_bar_without_slots 20 w w' H1 H2 H3)))).
Defined.

(** ** A bar that cannot be formatted *)

(** X9: the value of a bar is formatted before its [valueLabel] is looked
    at (lines 301-302).  So when the first entry has a fractional value
    and the precision is one [toFixed] rejects, [draw()] throws a
    RangeError whatever that entry's [valueLabel] is, even [null] or a
    text of its own.  By then the background and the first rectangle
    are painted; nothing else is: no outline, no ticks, the axis
    maximum is not derived, and the state saved by [_draw_bars] is not
    restored. *)
Theorem draw_aborts_on_unformattable_bar
    (fuel : nat) (w : World) (e : BarEntry) (rest : list BarEntry) :
  (Z.of_nat (List.length (_entries (this w))) < 2 ^ 53)%Z ->
  (List.length (_entries (this w)) < fuel)%nat ->
  _entries (this w) = e :: rest ->
  (0 <? graphSegments_X (_options (this w))) = true ->
  (JS.rem1 (val e) =? 0) = false ->
  precision_ok (graphValuePrecision (_options (this w))) = false ->
  draw fuel w
  = Throws RangeError
      (push [background_call (this w); Save; SetFillStyle (color e);
             BeginPath; bar_rect (frame_of w) (yMax_of w) 0 e; ClosePath] w).
Proof.
  intros Hlen Hfuel He Hslot Hfrac Hp.
  unfold draw. unfold bind at 1, get_this. cbv zeta.
  rewrite bind_draw_call. unfold bind at 1.
  fold (background_call (this w)).
  rewrite draw_bars_exact by assumption.
  change (frame_of (push _ w)) with (frame_of w).
  unfold draw_bars_run. cbn [frame_of frame_this]. rewrite He.
  cbn [bars_run frame_of frame_this]. change (JS.of_nat 0) with 0.
  rewrite Hslot.
  assert (Hf : format_number (graphValuePrecision (_options (this w))) (val e)
               = None).
  { unfold format_number. rewrite Hfrac. now apply toFixed_throws. }
  rewrite Hf. cbn [prepend outcome_of app]. now rewrite push_push.
Qed.

Lemma draw_aborts_on_unformattable_bar_witness :
  let e := hidden_value_entry 12.5 in
  let w := after [Add e; Add (sample_entry 3)]
             (constructor (Some (sample_options 10 10 101)) Canvas.fresh []) in
  (Z.of_nat (List.length (_entries (this w))) < 2 ^ 53)%Z
  /\ (List.length (_entries (this w)) < 20)%nat
  /\ _entries (this w) = [e; sample_entry 3]
  /\ (0 <? graphSegments_X (_options (this w))) = true
  /\ (JS.rem1 (val e) =? 0) = false
  /\ precision_ok (graphValuePrecision (_options (this w))) = false
  /\ draw 20 w
     = Throws RangeError
         (push [background_call (this w); Save; SetFillStyle (color e);
                BeginPath; bar_rect (frame_of w) (yMax_of w) 0 e; ClosePath] w).
Proof.
  intros e w.
  assert (H1 : (Z.of_nat (List.length (_entries (this w))) < 2 ^ 53)%Z)
    by (vm_compute; reflexivity).
  assert (H2 : (List.length (_entries (this w)) < 20)%nat)
    by (vm_compute; lia).
  assert (H3 : _entries (this w) = [e; sample_entry 3]) by reflexivity.
  assert (H4 : (0 <? graphSegments_X (_options (this w))) = true)
    by (vm_compute; reflexivity).
  assert (H5 : (JS.rem1 (val e) =? 0) = false) by (vm_compute; reflexivity).
  assert (H6 : precision_ok (graphValuePrecision (_options (this w))) = false)
    by (vm_compute; reflexivity).
  exact (conj H1 (conj H2 (conj H3 (conj H4 (conj H5 (conj H6
           (draw_aborts_on_unformattable_bar 20 w e [sample_entry 3]
              H1 H2 H3 H4 H5 H6))))))).
Defined.

(** ** The background comes first *)

Lemma keeps_segments (P : World -> Prop) (fuel : nat) :
  (forall c w, P w -> P (push [c] w)) ->
  (forall w, P w -> P (derive_world w)) ->
  keeps P (_draw_graph_segments fuel).
Proof.
  intros Hcall Hderive w Hw. rewrite segments_unfold.
  apply keeps_tick_loops; [exact Hcall |]. now apply Hderive.
Qed.

(** X10: whenever [draw()] ends, by returning or by throwing, the first call
    it has made on the surface is the one that paints the background,
    with the components of the configured colour. *)
Theorem draw_paints_background_first (fuel : nat) (w : World) :
  match draw fuel w with
  | Returns _ w' | Throws _ w' =>
      exists rest,
        emitted w w'
        = Background (r (backgroundColor (_options (this w))))
            (g (backgroundColor (_options (this w))))
            (b (backgroundColor (_options (this w))))
            (a (backgroundColor (_options (this w)))) :: rest
  | OutOfFuel => True
  end.
Proof.
  fold (background_call (this w)).
  set (P := fun w0 : World =>
              exists rest,
                ctx (canvas w0)
                = (ctx (canvas w) ++ background_call (this w) :: rest)%list).
  assert (Hcall : forall c w0, P w0 -> P (push [c] w0)).
  { intros c w0 (rest & H). exists (rest ++ [c])%list. cbn.
    now rewrite H, <- app_assoc. }
  assert (Hk : keeps P (_draw_bars fuel ;; _draw_graph_outline ;;
                        _draw_graph_segments fuel)).
  { apply keeps_bind; [now apply keeps_draw_bars | intros _].
    apply keeps_bind; [now apply keeps_outline | intros _].
    apply keeps_segments; [exact Hcall |]. intros w0 H. exact H. }
  specialize (Hk (push [background_call (this w)] w)).
  change ((_draw_bars fuel ;; _draw_graph_outline ;; _draw_graph_segments fuel)
            (push [background_call (this w)] w))
    with (draw fuel w) in Hk.
  assert (H0 : P (push [background_call (this w)] w)) by (now exists []).
  specialize (Hk H0).
  destruct (draw fuel w) as [x w' | e w' |]; [| | exact I];
    destruct Hk as (rest & H); exists rest; now apply emitted_app.
Qed.

(** ** Saved and restored drawing states *)

Lemma count_app (kind : Cmd -> bool) (l l' : list Cmd) :
  count kind (l ++ l') = (count kind l + count kind l')%nat.
Proof. unfold count. now rewrite filter_app, length_app. Qed.

Lemma count_cons (kind : Cmd -> bool) (c : Cmd) (l : list Cmd) :
  count kind (c :: l) = ((if kind c then 1 else 0) + count kind l)%nat.
Proof. unfold count. cbn. now destruct (kind c). Qed.

Lemma count_calm (l : list Cmd) :
  Forall calm l -> count is_Save l = 0%nat /\ count is_Restore l = 0%nat.
Proof.
  induction 1 as [| c l (Hs & Hr) _ (IHs & IHr)]; [now split |].
  rewrite !count_cons, Hs, Hr, IHs, IHr. now split.
Qed.

Lemma run_calls_prepend (c : list Cmd) (r : Run) :
  run_calls (prepend c r) = (c ++ run_calls r)%list.
Proof. now destruct r. Qed.

Lemma calm_bar_calls (F : Frame) (y i : number) (e : BarEntry) (s : string) :
  Forall calm (bar_calls F y i e s).
Proof.
  unfold bar_calls. cbv zeta. destruct (valueLabel e);
    repeat constructor.
Qed.

Lemma calm_bars_run (F : Frame) (y : number) (rest : list BarEntry) :
  forall k, Forall calm (run_calls (bars_run F y k rest)).
Proof.
  induction rest as [| e rest IH]; intros k; cbn [bars_run];
    [constructor |].
  destruct (_ <? _); [| constructor].
  destruct (format_number _ _) as [s |].
  - rewrite run_calls_prepend. apply Forall_app. split; [| apply IH].
    apply calm_bar_calls.
  - repeat constructor.
Qed.

Lemma calm_y_pass (F : Frame) (i : number) : Forall calm (run_calls (y_pass F i)).
Proof.
  unfold y_pass. cbv zeta. destruct (format_number _ _); repeat constructor.
Qed.

Lemma calm_x_tick (F : Frame) (i : number) : Forall calm (run_calls (x_tick F i)).
Proof.
  unfold x_tick, x_pass. cbv zeta.
  destruct (label_of _) as [[| a l] |]; try destruct (tick_label_of _ _ _);
    repeat constructor.
Qed.

Lemma calm_ticks (pass : number -> Run) (js : list number) :
  (forall i, Forall calm (run_calls (pass i))) ->
  Forall calm (run_calls (ticks pass js)).
Proof.
  intros Hpass. induction js as [| j js IH]; cbn [ticks]; [constructor |].
  specialize (Hpass j). destruct (pass j) as [c | c]; [| exact Hpass].
  rewrite run_calls_prepend. apply Forall_app. now split.
Qed.

Lemma calm_tick_runs (F : Frame) (m n : nat) :
  Forall calm (run_calls (tick_runs F m n)).
Proof.
  unfold tick_runs.
  pose proof (calm_ticks (y_pass F) (count_from 0 m) (calm_y_pass F)) as Hy.
  destruct (ticks (y_pass F) (count_from 0 m)) as [c | c]; [| exact Hy].
  rewrite run_calls_prepend. apply Forall_app. split; [exact Hy |].
  apply calm_ticks, calm_x_tick.
Qed.

Lemma count_outline (F : Frame) :
  count is_Save (outline_calls F) = 1%nat
  /\ count is_Restore (outline_calls F) = 1%nat.
Proof.
  unfold outline_calls. cbv zeta.
  destruct (truthy (Str (titleText _))), (truthy (Str (xAxisText _))),
    (truthy (Str (yAxisText _))); split; reflexivity.
Qed.

Lemma emitted_outcome {A} (x : A) (r : Run) (w w0 : World) :
  ctx (canvas w0) = ctx (canvas w) ->
  match outcome_of x r w0 with
  | Returns _ w' | Throws _ w' => emitted w w' = run_calls r
  | OutOfFuel => True
  end.
Proof.
  intros H. destruct r as [c | c]; cbn [outcome_of run_calls];
    apply emitted_app; cbn; now rewrite H.
Qed.

(** X11: [_draw_bars] and [_draw_graph_outline] each save the drawing state
    once and restore it once, and the tick loops do neither.  So a
    [draw()] that returns has made two saves and two restores; one that
    throws has either made both pairs (it threw in the tick loops) or a
    single save and no restore (it threw in the bar loop, which leaves
    the saved state on the surface's stack). *)
Theorem draw_saves_and_restores (fuel : nat) (w : World) :
  (Z.of_nat (List.length (_entries (this w))) < 2 ^ 53)%Z ->
  match draw fuel w with
  | Returns _ w' =>
      count is_Save (emitted w w') = 2%nat
      /\ count is_Restore (emitted w w') = 2%nat
  | Throws _ w' =>
      (count is_Save (emitted w w') = 2%nat
       /\ count is_Restore (emitted w w') = 2%nat)
      \/ (count is_Save (emitted w w') = 1%nat
          /\ count is_Restore (emitted w w') = 0%nat)
  | OutOfFuel => True
  end.
Proof.
  intros Hlen.
  destruct (draw_runs fuel w Hlen) as [E | (m & n & E)]; rewrite E;
    [exact I |].
  unfold draw_bars_run.
  pose proof (calm_bars_run (frame_of w) (yMax (_options (frame_this (frame_of w))))
                (_entries (frame_this (frame_of w))) 0) as Hb.
  apply count_calm in Hb. destruct Hb as (Hbs & Hbr).
  pose proof (count_outline (frame_of w)) as (Hos & Hor).
  pose proof (calm_tick_runs (frame_of (derive_world w)) m n) as Ht.
  apply count_calm in Ht. destruct Ht as (Hts & Htr).
  unfold background_call.
  destruct (bars_run _ _ _ _) as [c | c]; cbn [prepend run_calls] in *.
  - match goal with
    | |- match outcome_of tt ?r ?w0 with _ => _ end =>
        pose proof (emitted_outcome tt r w w0 eq_refl) as He;
        destruct (outcome_of tt r w0) as [x w' | e w' |]; [| | exact I];
        rewrite He, run_calls_prepend;
        repeat (rewrite count_app || rewrite count_cons);
        rewrite Hbs, Hbr, Hos, Hor, Hts, Htr; cbn; auto
    end.
  - right. rewrite emitted_push.
    repeat (rewrite count_app || rewrite count_cons).
    rewrite Hbs, Hbr. now split.
Qed.

Lemma draw_saves_and_restores_witness :
  let w := sample_chart 10 10 101 [12.5; 3] in
  (Z.of_nat (List.length (_entries (this w))) < 2 ^ 53)%Z
  /\ match draw 20 w with
     | Returns _ w' =>
         count is_Save (emitted w w') = 2%nat
         /\ count is_Restore (emitted w w') = 2%nat
     | Throws _ w' =>
         (count is_Save (emitted w w') = 2%nat
          /\ count is_Restore (emitted w w') = 2%nat)
         \/ (count is_Save (emitted w w') = 1%nat
             /\ count is_Restore (emitted w w') = 0%nat)
     | OutOfFuel => True
     end.
Proof.
  intros w.
  assert (H1 : (Z.of_nat (List.length (_entries (this w))) < 2 ^ 53)%Z)
    by (vm_compute; reflexivity).
  split; [exact H1 |].
  apply (draw_saves_and_restores 20 w H1).
Defined.

(** ** Whole segment counts: [draw()] returns *)

Lemma passes_ok (pass : nat -> Run) (n : nat) :
  (forall k, exists c, pass k = Done c /\ count is_Arc c = 1%nat) ->
  forall k, exists c, passes pass k n = Done c /\ count is_Arc c = n.
Proof.
  intros Hpass. induction n as [| n IH]; intros k; cbn [passes].
  - now exists [].
  - destruct (Hpass k) as (c & -> & Hc).
    destruct (IH (S k)) as (c' & -> & Hc').
    exists (c ++ c')%list. split; [reflexivity |].
    rewrite count_app. lia.
Qed.

Lemma y_pass_arc (F : Frame) (i : number) :
  precision_ok (graphValuePrecision (_options (frame_this F))) = true ->
  exists c, y_pass F i = Done c /\ count is_Arc c = 1%nat.
Proof.
  intros Hp. unfold y_pass. cbv zeta.
  destruct (format_number_ok _ (y_tick_value F i) Hp) as (s & ->).
  eexists. split; reflexivity.
Qed.

Lemma x_pass_arc (F : Frame) (i : number) (entry : option BarEntry) :
  precision_ok (graphValuePrecision (_options (frame_this F))) = true ->
  exists c, x_pass F i entry = Done c /\ count is_Arc c = 1%nat.
Proof.
  intros Hp. unfold x_pass. cbv zeta.
  destruct (tick_label_ok entry _ i Hp) as (v & ->).
  destruct (label_of _) as [[| a l] |]; eexists; split; reflexivity.
Qed.

Lemma count_arc_bars (F : Frame) (y : number) (rest : list BarEntry) :
  forall k, count is_Arc (run_calls (bars_run F y k rest)) = 0%nat.
Proof.
  induction rest as [| e rest IH]; intros k; cbn [bars_run]; [reflexivity |].
  destruct (_ <? _); [| reflexivity].
  destruct (format_number _ _) as [s |]; [| reflexivity].
  rewrite run_calls_prepend, count_app, IH.
  unfold bar_calls. cbv zeta. now destruct (valueLabel e).
Qed.

Lemma count_arc_outline (F : Frame) : count is_Arc (outline_calls F) = 0%nat.
Proof.
  unfold outline_calls. cbv zeta.
  destruct (truthy (Str (titleText _))), (truthy (Str (xAxisText _))),
    (truthy (Str (yAxisText _))); reflexivity.
Qed.

Lemma emitted_push_derive (c : list Cmd) (w : World) :
  emitted w (push c (derive_world w)) = c.
Proof. now apply emitted_app. Qed.

(** X12: with whole segment counts [M] and [N] and a precision that
    [toFixed] accepts, [draw()] returns, and it has painted [M - 1]
    tick marks on the y axis and [N - 1] on the x axis: the loops run
    while [i < graphSegments - 1], one pass short of the number of
    segments, so the last slot a bar can stand in has no tick. *)
Theorem draw_returns_and_marks_ticks (M N fuel : nat) (w : World) :
  (Z.of_nat (List.length (_entries (this w))) < 2 ^ 53)%Z ->
  (Z.of_nat M < 2 ^ 53)%Z ->
  (Z.of_nat N < 2 ^ 53)%Z ->
  graphSegments_Y (_options (this w)) = JS.of_nat M ->
  graphSegments_X (_options (this w)) = JS.of_nat N ->
  precision_ok (graphValuePrecision (_options (this w))) = true ->
  (List.length (_entries (this w)) < fuel)%nat ->
  (M < fuel)%nat -> (N < fuel)%nat ->
  exists w',
    draw fuel w = Returns tt w'
    /\ count is_Arc (emitted w w') = (pred M + pred N)%nat.
Proof.
  intros Hlen HM HN HgY HgX Hp Hf HfM HfN.
  rewrite (draw_exact M N fuel w) by assumption.
  unfold draw_outcome. cbv zeta.
  destruct (draw_bars_run_ok (frame_of w) Hp) as (c & Hc). rewrite Hc.
  assert (Hca : count is_Arc c = 0%nat).
  { unfold draw_bars_run in Hc.
    pose proof (count_arc_bars (frame_of w)
                  (yMax (_options (frame_this (frame_of w))))
                  (_entries (frame_this (frame_of w))) 0) as Hb.
    destruct (bars_run _ _ _ _) as [c0 | c0]; cbn [prepend] in Hc;
      [| discriminate].
    injection Hc as <-. cbn [run_calls] in Hb.
    repeat (rewrite count_app || rewrite count_cons).
    rewrite Hb. reflexivity. }
  set (w1 := derive_world _). set (F1 := frame_of w1).
  assert (Hp1 : precision_ok (graphValuePrecision (_options (frame_this F1)))
                = true).
  { unfold F1, w1. cbn [frame_of frame_this].
    rewrite derive_precision. exact Hp. }
  unfold ticks_run, y_ticks_run, x_ticks_run.
  destruct (passes_ok (fun k => y_pass F1 (JS.of_nat k)) (pred M)
              (fun k => y_pass_arc F1 (JS.of_nat k) Hp1) 0%nat)
    as (cy & -> & Hcy).
  destruct (passes_ok
              (fun k => x_pass F1 (JS.of_nat k)
                          (nth_error (_entries (frame_this F1)) k)) (pred N)
              (fun k => x_pass_arc F1 (JS.of_nat k) _ Hp1) 0%nat)
    as (cx & -> & Hcx).
  cbn [prepend outcome_of]. eexists. split; [reflexivity |].
  unfold w1. rewrite derive_world_push, push_push.
  rewrite emitted_push_derive.
  unfold background_call.
  repeat (rewrite count_app || rewrite count_cons).
  rewrite Hca, Hcy, Hcx, count_arc_outline. reflexivity.
Qed.

Lemma draw_returns_and_marks_ticks_witness :
  let w := sample_chart 10 4 2 [50; 12.5] in
  (Z.of_nat (List.length (_entries (this w))) < 2 ^ 53)%Z
  /\ (Z.of_nat 10 < 2 ^ 53)%Z
  /\ (Z.of_nat 4 < 2 ^ 53)%Z
  /\ graphSegments_Y (_options (this w)) = JS.of_nat 10
  /\ graphSegments_X (_options (this w)) = JS.of_nat 4
  /\ precision_ok (graphValuePrecision (_options (this w))) = true
  /\ (List.length (_entries (this w)) < 20)%nat
  /\ (10 < 20)%nat /\ (4 < 20)%nat
  /\ exists w',
       draw 20 w = Returns tt w'
       /\ count is_Arc (emitted w w') = (pred 10 + pred 4)%nat.
Proof.
  intros w.
  assert (H1 : (Z.of_nat (List.length (_entries (this w))) < 2 ^ 53)%Z)
    by (vm_compute; reflexivity).
  assert (H2 : (Z.of_nat 10 < 2 ^ 53)%Z) by (vm_compute; reflexivity).
  assert (H3 : (Z.of_nat 4 < 2 ^ 53)%Z) by (vm_compute; reflexivity).
  assert (H4 : graphSegments_Y (_options (this w)) = JS.of_nat 10)
    by (vm_compute; reflexivity).
  assert (H5 : graphSegments_X (_options (this w)) = JS.of_nat 4)
    by (vm_compute; reflexivity).
  assert (H6 : precision_ok (graphValuePrecision (_options (this w))) = true)
    by (vm_compute; reflexivity).
  assert (H7 : (List.length (_entries (this w)) < 20)%nat)
    by (vm_compute; lia).
  assert (H8 : (10 < 20)%nat) by lia.
  assert (H9 : (4 < 20)%nat) by lia.
  do 9 (split; [assumption |]).
  apply (draw_returns_and_marks_ticks 10 4 20 w H1 H2 H3 H4 H5 H6 H7 H8 H9).
Defined.

(** ** The outline *)

(** X13: [_draw_graph_outline()] always returns, and only adds calls to the
    surface.  It paints the title, the x-axis caption and the y-axis
    caption in that order, leaving out each one that is the empty
    string; it strokes two lines, the y axis and the x axis, which both
    start at the corner [(_x_padding, HEIGHT - _y_padding)]; and it
    saves the drawing state once and restores it once. *)
Theorem outline_paints_captions_and_axes (w : World) :
  let t := this w in
  let o := _options t in
  let H := HEIGHT (canvas w) in
  let W := WIDTH (canvas w) in
  exists new,
    _draw_graph_outline w = Returns tt (push new w)
    /\ captions new
       = filter (fun s => negb (String.eqb s EmptyString))
           [titleText o; xAxisText o; yAxisText o]
    /\ line_points new
       = [(_x_padding t, H - _y_padding t); (_x_padding t, _y_padding t);
          (_x_padding t, H - _y_padding t); (W - _x_padding t, H - _y_padding t)]
    /\ count is_Stroke new = 2%nat
    /\ count is_Save new = 1%nat
    /\ count is_Restore new = 1%nat.
Proof.
  intros t o H W. exists (outline_calls (frame_of w)).
  split; [apply outline_exact |].
  unfold outline_calls. cbv zeta. cbn [frame_of frame_this frame_HEIGHT frame_WIDTH].
  fold t o H W. cbn [truthy filter].
  destruct (negb (String.eqb (titleText o) _)),
    (negb (String.eqb (xAxisText o) _)),
    (negb (String.eqb (yAxisText o) _));
    repeat split; reflexivity.
Qed.

(** ** The labels of the x-axis ticks *)

(** X14: one pass of the x-axis loop, as [_draw_graph_segments] runs it,
    for the counter [i] (lines 243-264).  Where the store has no entry
    at [i], or an entry without a label, the tick is labelled with the
    counter itself; an entry whose label is the empty string gets no
    text at all; and a non-empty label that does not parse as a number
    is painted as it is.  In these cases the pass cannot throw. *)
Theorem x_tick_label_cases (w : World) (i : number) :
  let outcome := x_segment_in (frame_of w) i w in
  match label_of (element (_entries (this w)) i) with
  | None =>
      exists c, outcome = Returns true (push c w) /\ texts c = [JS.toString i]
  | Some l =>
      if String.eqb l EmptyString
      then exists c, outcome = Returns true (push c w) /\ texts c = []
      else if JS.isNaN (JS.parseFloat l)
           then exists c, outcome = Returns true (push c w) /\ texts c = [l]
           else True
  end.
Proof.
  intros outcome. unfold outcome.
  rewrite x_segment_at by (repeat split).
  cbn [frame_of frame_this]. unfold x_pass, tick_label_of, entryFloatVal.
  cbv zeta.
  destruct (label_of (element (_entries (this w)) i)) as [l |].
  - destruct l as [| a l]; cbn [String.eqb].
    + eexists. split; reflexivity.
    + destruct (JS.isNaN (JS.parseFloat (String a l))) eqn:Hn; [| exact I].
      assert (Ht : JS.truthy (JS.parseFloat (String a l)) = false).
      { unfold JS.truthy. unfold JS.isNaN in Hn. rewrite Hn.
        now rewrite orb_true_r. }
      rewrite Ht. change (JS.isNaN nan) with true. cbn [truthy String.eqb negb].
      eexists. split; [reflexivity |]. reflexivity.
  - eexists. split; reflexivity.
Qed.

(** ** What a verbose chart logs when it draws *)

(** X15: a [draw()] that returns has logged one line, and only if it found
    the axis maximum unset on a verbose chart: the derived maximum. *)
Theorem draw_logs_the_derived_maximum (fuel : nat) (w w' : World) :
  draw fuel w = Returns tt w' ->
  console w'
  = if (yMax_of w =? -1) && verbose (_options (this w))
    then (console w
          ++ [{| message := "yMax Evaluated to: ";
                 argument := NumArg (Utils.max (map val (_entries (this w)))) |}])%list
    else console w.
Proof.
  intros Hd.
  destruct (draw_stages fuel w w' Hd) as (w1 & w2 & Hb & Ho & Hs).
  set (P := fun w0 : World => this w0 = this w /\ console w0 = console w).
  assert (Hcall : forall c w0, P w0 -> P (push [c] w0)) by (intros c w0 H; exact H).
  assert (H1 : P w1).
  { pose proof (keeps_draw_bars P Hcall fuel
                  (push [background_call (this w)] w) (conj eq_refl eq_refl)) as H.
    now rewrite Hb in H. }
  assert (H2 : P w2).
  { pose proof (keeps_outline P Hcall w1 H1) as H. now rewrite Ho in H. }
  destruct H2 as (Ht & Hc).
  rewrite segments_unfold in Hs.
  pose proof (keeps_tick_loops (fun w0 => console w0 = console (derive_world w2))
                (fun c w0 H => H) fuel (HEIGHT (canvas w2)) (WIDTH (canvas w2))
                (graphSegments_Y (_options (this w2)))
                (graphSegments_X (_options (this w2)))
                (graphValuePrecision (_options (this w2)))
                (derive_world w2) eq_refl) as Hk.
  rewrite Hs in Hk. rewrite Hk.
  unfold derive_world, yMax_of. cbn [console]. now rewrite Ht, Hc.
Qed.

Lemma draw_logs_the_derived_maximum_witness :
  let w := after [Add (sample_entry 50); Add (sample_entry 100)]
             (constructor (Some (supply_all (with_verbose true defaults)))
                Canvas.fresh []) in
  let w' := after [Draw 20] w in
  draw 20 w = Returns tt w'
  /\ console w'
     = if (yMax_of w =? -1) && verbose (_options (this w))
       then (console w
             ++ [{| message := "yMax Evaluated to: ";
                    argument :=
                      NumArg (Utils.max (map val (_entries (this w)))) |}])%list
       else console w.
Proof.
  intros w w'.
  assert (H1 : draw 20 w = Returns tt w') by (vm_compute; reflexivity).
  split; [exact H1 |].
  apply (draw_logs_the_derived_maximum 20 w w' H1).
Defined.

(** ** Infinitely many segments *)

Section Counters.

Local Open Scope Z_scope.

Lemma counter_step (k : Z) :
  0 <= k <= 2 ^ 53 ->
  exists k', 0 <= k' <= 2 ^ 53 /\ (JS.of_Z k + 1)%float = JS.of_Z k'.
Proof.
  intros Hk.
  destruct (Z.lt_ge_cases (k + 1) (2 ^ 53)) as [H | H].
  - exists (k + 1). split; [lia |].
    rewrite <- of_Z_one. apply add_of_Z; lia.
  - exists (2 ^ 53). split; [lia |].
    assert (Hk' : k = 2 ^ 53 - 1 \/ k = 2 ^ 53) by lia.
    destruct Hk' as [-> | ->]; vm_compute; reflexivity.
Qed.

Lemma counter_whole (n : nat) :
  forall k,
    0 <= k <= 2 ^ 53 ->
    exists k', 0 <= k' <= 2 ^ 53 /\ counter (JS.of_Z k) n = JS.of_Z k'.
Proof.
  induction n as [| n IH]; intros k Hk; cbn [counter]; [eauto |].
  destruct (counter_step k Hk) as (k1 & Hk1 & ->). now apply IH.
Qed.

Lemma below_infinity (k : Z) :
  0 <= k <= 2 ^ 53 -> (JS.of_Z k <? infinity)%float = true.
Proof.
  intros Hk.
  destruct (Z.eq_dec k (2 ^ 53)) as [-> | Hne]; [vm_compute; reflexivity |].
  rewrite FloatAxioms.ltb_spec, Prim2SF_of_Z by lia.
  change (Prim2SF infinity) with (S754_infinity false).
  destruct k as [| p | p]; [reflexivity | reflexivity | lia].
Qed.

Lemma counter_below_infinity (n : nat) :
  (counter 0 n <? infinity - 1)%float = true.
Proof.
  change (infinity - 1)%float with infinity.
  change 0%float with (JS.of_Z 0).
  destruct (counter_whole n 0 ltac:(lia)) as (k & Hk & ->).
  now apply below_infinity.
Qed.

End Counters.

(** X16: nothing checks that the segment counts are finite.  With
    [graphSegments_Y] or [graphSegments_X] set to [Infinity] the test
    of the corresponding tick loop, [i < Infinity - 1], holds for every
    value the counter takes (it climbs to 2^53 and stays there), so
    [draw()] never returns: it paints ticks for ever unless a label
    makes [toFixed] throw. *)
Theorem draw_never_returns_with_infinite_segments
    (fuel : nat) (w w' : World) :
  graphSegments_Y (_options (this w)) = infinity
  \/ graphSegments_X (_options (this w)) = infinity ->
  draw fuel w <> Returns tt w'.
Proof.
  intros Hinf Hd.
  destruct (draw_stages fuel w w' Hd) as (w1 & w2 & Hb & Ho & Hs).
  set (P := fun w0 : World => this w0 = this w).
  assert (Hcall : forall c w0, P w0 -> P (push [c] w0)) by (intros c w0 H; exact H).
  assert (H1 : P w1).
  { pose proof (keeps_draw_bars P Hcall fuel
                  (push [background_call (this w)] w) eq_refl) as H.
    now rewrite Hb in H. }
  assert (H2 : P w2).
  { pose proof (keeps_outline P Hcall w1 H1) as H. now rewrite Ho in H. }
  unfold P in H2.
  destruct (segments_runs_stop fuel w2) as [E | (m & n & E & Hstop)];
    rewrite E in Hs; [discriminate |].
  destruct (tick_runs _ m n) as [c | c]; [| discriminate].
  destruct (Hstop c eq_refl) as (Hy & Hx). rewrite H2 in Hy, Hx.
  destruct Hinf as [Hi | Hi]; rewrite Hi in *.
  - rewrite counter_below_infinity in Hy. discriminate.
  - rewrite counter_below_infinity in Hx. discriminate.
Qed.

Lemma draw_never_returns_with_infinite_segments_witness :
  let w := sample_chart 10 infinity 2 [50; 12.5] in
  (graphSegments_Y (_options (this w)) = infinity
   \/ graphSegments_X (_options (this w)) = infinity)
  /\ forall w', draw 50 w <> Returns tt w'.
Proof.
  intros w.
  assert (H1 : graphSegments_Y (_options (this w)) = infinity
               \/ graphSegments_X (_options (this w)) = infinity)
    by (right; reflexivity).
  split; [exact H1 |].
  intros w'. apply (draw_never_returns_with_infinite_segments 50 w w' H1).
Defined.

(** ** The offsets *)

(** X17: the constructor moves the four offsets by the configured
    paddings, once: [_x_padding] is [50 + xPadding], [_y_padding] is
    [30 + yPadding], [_x_offset] is [30 + xPadding] and [_y_offset] is
    [30 + yPadding], and they stay so, with the paddings they were
    computed from, through every [add()] and [draw()], returning or
    throwing. *)
Theorem offsets_fixed_at_construction
    (config : option Partial.GraphOptions)
    (cv : CanvasInstance) (log : list LogEntry) (ops : list Op) :
  let xp := xPadding (resolve config) in
  let yp := yPadding (resolve config) in
  offsets_are xp yp (constructor config cv log)
  /\ match run ops (constructor config cv log) with
     | Returns _ w' | Throws _ w' => offsets_are xp yp w'
     | OutOfFuel => True
     end.
Proof.
  intros xp yp.
  assert (H0 : offsets_are xp yp (constructor config cv log)).
  { unfold offsets_are, constructor. destruct (negb _); cbn; auto 10. }
  split; [exact H0 |].
  assert (Hk : keeps (offsets_are xp yp) (run ops)).
  { apply keeps_run.
    - intros c w H. exact H.
    - intros w H. unfold offsets_are, derive_world, derive_yMax in *.
      cbn [this]. destruct (_ =? _); [| exact H]. exact H.
    - intros e w H. exact H. }
  specialize (Hk _ H0).
  destruct (run ops _); [exact Hk | exact Hk | exact I].
Qed.

(* ================================================================== *)
(** * The value label and the axis maximum                           *)
(* ================================================================== *)

(** ** The text above a bar *)

Lemma format_number_cases (p v : number) :
  if (JS.rem1 v =? 0) || precision_ok p
  then exists s, format_number p v = Some s
  else format_number p v = None.
Proof.
  unfold format_number. destruct (JS.rem1 v =? 0); cbn [orb]; [eauto |].
  destruct (precision_ok p) eqn:Hp.
  - destruct (JS.toFixed v p) as [s |] eqn:E; [eauto |].
    apply toFixed_throws in E. congruence.
  - now apply toFixed_throws.
Qed.

(** C7 (amended): one pass of the bar loop for a slot that holds an
    entry.  The entry's value is formatted first (line 301), whatever
    its [valueLabel] is.  If the value is integral or the precision is
    one [toFixed] accepts, the pass returns and the text above the bar
    is governed by [valueLabel]: [null] paints no text, an absent
    [valueLabel] paints the bar's own value under the formatting rule,
    and any string is painted as it is.  Otherwise the pass throws a
    RangeError and no text is painted, whatever [valueLabel] is. *)
Theorem value_label_rule
    (HEIGHT maxY_segment X_SEGMENTS bar_width precision yMax i : number)
    (w : World) (entry : BarEntry)
    (Hlen : (length_of (_entries (this w)) <=? i) = false)
    (Hentry : element (_entries (this w)) i = Some entry) :
  if (JS.rem1 (val entry) =? 0) || precision_ok precision
  then
    exists s w',
      format_number precision (val entry) = Some s
      /\ bar HEIGHT maxY_segment X_SEGMENTS bar_width precision yMax i w
         = Returns true w'
      /\ texts (emitted w w')
         = match valueLabel entry with
           | VLNull => []
           | VLUndefined => [s]
           | VLString t => [t]
           end
  else
    exists w',
      bar HEIGHT maxY_segment X_SEGMENTS bar_width precision yMax i w
      = Throws RangeError w'
      /\ texts (emitted w w') = [].
Proof.
  pose proof (format_number_cases precision (val entry)) as Hf.
  destruct ((JS.rem1 (val entry) =? 0) || precision_ok precision).
  - destruct Hf as (s & Hfmt). exists s.
    enough (exists w',
              bar HEIGHT maxY_segment X_SEGMENTS bar_width precision yMax i w
              = Returns true w'
              /\ texts (emitted w w')
                 = match valueLabel entry with
                   | VLNull => []
                   | VLUndefined => [s]
                   | VLString t => [t]
                   end) as (w' & Hb & Ht)
      by (exists w'; auto).
    unfold bar. step_monad. rewrite Hlen, Hentry. step_monad.
    unfold bind at 1.
    match goal with
    | |- context [bar_val ?y ?p ?w0] =>
        pose proof (bar_val_format y p w0) as Hv
    end.
    rewrite Hfmt in Hv. destruct Hv as (v & -> & Hs).
    destruct (valueLabel entry); step_monad;
      (eexists; split; [reflexivity |]);
      (erewrite emitted_app by (step_monad; norm_ctx; reflexivity));
      cbn; rewrite ?Hs; reflexivity.
  - unfold bar. step_monad. rewrite Hlen, Hentry. step_monad.
    unfold bind at 1.
    match goal with
    | |- context [bar_val ?y ?p ?w0] =>
        pose proof (bar_val_format y p w0) as Hv
    end.
    rewrite Hf in Hv. rewrite Hv.
    eexists. split; [reflexivity |].
    erewrite emitted_app by (step_monad; norm_ctx; reflexivity).
    reflexivity.
Qed.

Lemma value_label_rule_witness :
  let hidden :=
    {| val := 25.5; label := None; color := "green"; valueLabel := VLNull |} in
  let plain :=
    {| val := 25.5; label := None; color := "green";
       valueLabel := VLUndefined |} in
  let named :=
    {| val := 25.5; label := None; color := "green";
       valueLabel := VLString "foo" |} in
  let w := after [Add hidden; Add plain; Add named] default_chart in
  ((length_of (_entries (this w)) <=? 0) = false
   /\ element (_entries (this w)) 0 = Some hidden
   /\ exists s w',
        format_number 2 25.5 = Some s
        /\ bar 480 384 67 10 2 100 0 w = Returns true w'
        /\ texts (emitted w w') = [])
  /\ ((length_of (_entries (this w)) <=? 1) = false
      /\ element (_entries (this w)) 1 = Some plain
      /\ exists s w',
           format_number 2 25.5 = Some s
           /\ bar 480 384 67 10 2 100 1 w = Returns true w'
           /\ texts (emitted w w') = [s])
  /\ ((length_of (_entries (this w)) <=? 2) = false
      /\ element (_entries (this w)) 2 = Some named
      /\ exists s w',
           format_number 2 25.5 = Some s
           /\ bar 480 384 67 10 2 100 2 w = Returns true w'
           /\ texts (emitted w w') = ["foo"])
  /\ format_number 2 25.5 = Some "25.50".
Proof.
  intros hidden plain named w.
  assert (Hc : (JS.rem1 25.5 =? 0) || precision_ok 2 = true)
    by (vm_compute; reflexivity).
  assert (L0 : (length_of (_entries (this w)) <=? 0) = false)
    by (vm_compute; reflexivity).
  assert (L1 : (length_of (_entries (this w)) <=? 1) = false)
    by (vm_compute; reflexivity).
  assert (L2 : (length_of (_entries (this w)) <=? 2) = false)
    by (vm_compute; reflexivity).
  assert (E0 : element (_entries (this w)) 0 = Some hidden)
    by (vm_compute; reflexivity).
  assert (E1 : element (_entries (this w)) 1 = Some plain)
    by (vm_compute; reflexivity).
  assert (E2 : element (_entries (this w)) 2 = Some named)
    by (vm_compute; reflexivity).
  pose proof (value_label_rule 480 384 67 10 2 100 0 w hidden L0 E0) as R0.
  pose proof (value_label_rule 480 384 67 10 2 100 1 w plain L1 E1) as R1.
  pose proof (value_label_rule 480 384 67 10 2 100 2 w named L2 E2) as R2.
  change (val hidden) with 25.5 in R0. change (valueLabel hidden) with VLNull in R0.
  change (val plain) with 25.5 in R1.
  change (valueLabel plain) with VLUndefined in R1.
  change (val named) with 25.5 in R2.
  change (valueLabel named) with (VLString "foo") in R2.
  rewrite Hc in R0, R1, R2.
  split; [split; [exact L0 | split; [exact E0 | exact R0]] |].
  split; [split; [exact L1 | split; [exact E1 | exact R1]] |].
  split; [split; [exact L2 | split; [exact E2 | exact R2]] |].
  vm_compute; reflexivity.
Defined.

(** C7, as the claim words it: a drawn bar whose [valueLabel] is the
    string "foo" does not get that text when its value cannot be
    formatted.  With the value 12.5 and the precision 101, [draw()]
    paints the bar's rectangle and then throws a RangeError; no text
    has been painted. *)
Lemma value_label_lost_when_value_unformattable :
  let named :=
    {| val := 12.5; label := None; color := "green";
       valueLabel := VLString "foo" |} in
  let w := after [Add named]
             (constructor (Some (sample_options 10 10 101)) Canvas.fresh []) in
  let w' := after [Draw 20] w in
  draw 20 w = Throws RangeError w'
  /\ rects (emitted w w') = [bar_rect (frame_of w) (yMax_of w) 0 named]
  /\ texts (emitted w w') = []
  /\ ~ (exists w2,
          bar 480 384 67 10 101 (-1) 0 (push [Save] w) = Returns true w2
          /\ texts (emitted w w2) = ["foo"]).
Proof.
  intros named w w'.
  split; [vm_compute; reflexivity |].
  split; [vm_compute; reflexivity |].
  split; [vm_compute; reflexivity |].
  intros (w2 & H & _).
  assert (Ht : bar 480 384 67 10 101 (-1) 0 (push [Save] w)
               = Throws RangeError
                   (push [Save; SetFillStyle "green"; BeginPath;
                          bar_rect (frame_of w) (-1) 0 named; ClosePath] w))
    by (vm_compute; reflexivity).
  rewrite Ht in H. discriminate H.
Qed.

(** ** The axis maximum, derived and frozen *)

(** An axis maximum other than the sentinel survives every [add()] and
    [draw()], whether they return or throw. *)
Lemma yMax_kept (ops : list Op) (w : World) :
  (yMax_of w =? -1) = false ->
  match run ops w with
  | Returns _ w' | Throws _ w' => yMax_of w' = yMax_of w
  | OutOfFuel => True
  end.
Proof.
  intros Hset.
  assert (Hk : keeps (fun w0 => yMax_of w0 = yMax_of w) (run ops)).
  { apply keeps_run.
    - intros c w0 H. exact H.
    - intros w0 H. unfold yMax_of, derive_world in *. cbn [this].
      rewrite derive_yMax_set; [exact H |]. now rewrite H.
    - intros e w0 H. exact H. }
  exact (Hk w eq_refl).
Qed.

(** C1 (amended): a [draw()] that finds the axis maximum unset and
    returns leaves it at the maximum value among the entries then in
    the store; and if that maximum is itself not the sentinel -1, it
    stays: no later [add()] or [draw()] changes it, whether it returns
    or throws. *)
Theorem yMax_derived_then_frozen
    (fuel : nat) (w w1 : World)
    (Hunset : (yMax_of w =? -1) = true)
    (Hdraw : draw fuel w = Returns tt w1) :
  yMax_of w1 = Utils.max (map val (_entries (this w)))
  /\ ((yMax_of w1 =? -1) = false ->
      forall ops,
        match run ops w1 with
        | Returns _ w2 | Throws _ w2 => yMax_of w2 = yMax_of w1
        | OutOfFuel => True
        end).
Proof.
  apply draw_returns_derive in Hdraw. destruct Hdraw as (Ht & _).
  split.
  - unfold yMax_of. rewrite Ht. now apply yMax_of_derive_unset.
  - intros Hset ops. now apply yMax_kept.
Qed.

Lemma yMax_derived_then_frozen_witness :
  let w := after [Add (sample_entry 50); Add (sample_entry 100)] default_chart in
  let w1 := after [Draw 20] w in
  (yMax_of w =? -1) = true
  /\ draw 20 w = Returns tt w1
  /\ yMax_of w1 = 100
  /\ (yMax_of w1 =? -1) = false
  /\ forall ops,
       match run ops w1 with
       | Returns _ w2 | Throws _ w2 => yMax_of w2 = yMax_of w1
       | OutOfFuel => True
       end.
Proof.
  intros w w1.
  assert (Hunset : (yMax_of w =? -1) = true) by (vm_compute; reflexivity).
  assert (Hdraw : draw 20 w = Returns tt w1) by (vm_compute; reflexivity).
  assert (Hset : (yMax_of w1 =? -1) = false) by (vm_compute; reflexivity).
  destruct (yMax_derived_then_frozen 20 w w1 Hunset Hdraw) as (Hmax & Hfrozen).
  split; [exact Hunset |]. split; [exact Hdraw |].
  split; [vm_compute; reflexivity |]. split; [exact Hset |].
  exact (Hfrozen Hset).
Defined.

(** C1, as the claim words it, fails in two ways.  The derived axis
    maximum is not frozen when it coincides with the sentinel: a chart
    whose only entry has the value -1 derives -1; after a later [add]
    of the value 5 the next [draw] derives again, and the axis maximum
    becomes 5.  And a [draw()] that finds the axis maximum unset does
    not always derive it: with the value 12.5 and the precision 101 it
    throws in the bar loop, before the derivation, and the axis maximum
    is still -1, not 12.5. *)
Lemma yMax_neither_frozen_nor_always_derived :
  ~ (forall fuel w w1,
        (yMax_of w =? -1) = true ->
        draw fuel w = Returns tt w1 ->
        forall ops w2, run ops w1 = Returns tt w2 -> yMax_of w2 = yMax_of w1)
  /\ ~ (forall fuel w e w1,
          (yMax_of w =? -1) = true ->
          draw fuel w = Throws e w1 ->
          yMax_of w1 = Utils.max (map val (_entries (this w)))).
Proof.
  split.
  - intros claim.
    pose (w := after [Add (sample_entry (-1))] default_chart).
    pose (w1 := after [Draw 20] w).
    pose (ops := [Add (sample_entry 5); Draw 20]).
    assert (H : yMax_of (after ops w1) = yMax_of w1).
    { apply (claim 20%nat w w1) with (ops := ops); vm_compute; reflexivity. }
    revert H. apply float_neq; vm_compute; reflexivity.
  - intros claim.
    pose (w := sample_chart 10 10 101 [12.5]).
    pose (w1 := after [Draw 20] w).
    assert (H : yMax_of w1 = Utils.max (map val (_entries (this w)))).
    { apply (claim 20%nat w RangeError w1); vm_compute; reflexivity. }
    revert H. apply float_neq; vm_compute; reflexivity.
Qed.

(** ** The first frame of an auto-scaled chart *)

Lemma leading_slots_unique (gX : number) (len n n' : nat) :
  leading_slots gX len n -> leading_slots gX len n' -> n = n'.
Proof.
  intros (Hn & Hlt & Hge) (Hn' & Hlt' & Hge').
  destruct (Nat.lt_trichotomy n n') as [H | [H | H]]; [| exact H |].
  - specialize (Hlt' n H). rewrite Hge in Hlt' by lia. discriminate.
  - specialize (Hlt n' H). rewrite Hge' in Hlt by lia. discriminate.
Qed.

(** The rectangles of a [draw()] that returns are the bars of the
    leading slots, scaled by the axis maximum it found. *)
Lemma draw_leading (fuel : nat) (w w' : World) :
  (Z.of_nat (List.length (_entries (this w))) < 2 ^ 53)%Z ->
  draw fuel w = Returns tt w' ->
  exists n,
    leading_slots (graphSegments_X (_options (this w)))
      (List.length (_entries (this w))) n
    /\ rects (emitted w w')
       = bar_rects (frame_of w) (yMax_of w) 0 (firstn n (_entries (this w))).
Proof.
  intros Hlen Hd.
  destruct (draw_rects fuel w w' Hlen Hd) as (c & Hc & ->).
  destruct (bars_run_done _ _ _ _ _ Hc) as (n & Hn & Hr & Hlt & Hge).
  exists n. split; [| exact Hr]. exact (conj Hn (conj Hlt Hge)).
Qed.

Lemma bar_rects_heights (F : Frame) (y : number) (rest : list BarEntry) :
  forall k,
    map rect_height (bar_rects F y k rest)
    = map (fun e =>
             Some (bar_height (val e) y
                     (frame_HEIGHT F / graphSegments_Y (_options (frame_this F))
                      * (graphSegments_Y (_options (frame_this F)) - 2))))
        rest.
Proof.
  unfold bar_rects.
  induction rest as [| e rest IH]; intros k; [reflexivity |].
  cbn [List.length seq combine map]. rewrite IH. reflexivity.
Qed.

(* ================================================================== *)
(** * Slots, ticks and heights                                       *)
(* ================================================================== *)

(** ** How many bars *)

Lemma no_rect_y_pass (F : Frame) (i : number) :
  Forall no_rect (run_calls (y_pass F i)).
Proof.
  unfold y_pass. cbv zeta. destruct (format_number _ _); repeat constructor.
Qed.

Lemma no_rect_x_tick (F : Frame) (i : number) :
  Forall no_rect (run_calls (x_tick F i)).
Proof.
  unfold x_tick, x_pass. cbv zeta.
  destruct (label_of _) as [[| a l] |]; try destruct (tick_label_of _ _ _);
    repeat constructor.
Qed.

Lemma no_rect_ticks (pass : number -> Run) (js : list number) :
  (forall i, Forall no_rect (run_calls (pass i))) ->
  Forall no_rect (run_calls (ticks pass js)).
Proof.
  intros Hpass. induction js as [| j js IH]; cbn [ticks]; [constructor |].
  specialize (Hpass j). destruct (pass j) as [c | c]; [| exact Hpass].
  rewrite run_calls_prepend. apply Forall_app. now split.
Qed.

Lemma no_rect_tick_runs (F : Frame) (m n : nat) :
  Forall no_rect (run_calls (tick_runs F m n)).
Proof.
  unfold tick_runs.
  pose proof (no_rect_ticks (y_pass F) (count_from 0 m) (no_rect_y_pass F)) as Hy.
  destruct (ticks (y_pass F) (count_from 0 m)) as [c | c]; [| exact Hy].
  rewrite run_calls_prepend. apply Forall_app. split; [exact Hy |].
  apply no_rect_ticks, no_rect_x_tick.
Qed.

(** A bar loop cut short by a throw has painted the rectangles of the
    entries up to the one it could not format, that one included, and
    their slots all pass the loop's test. *)
Lemma bars_run_thrown (F : Frame) (y : number) (rest : list BarEntry) :
  forall k c,
    bars_run F y k rest = Thrown c ->
    exists n,
      (n < List.length rest)%nat
      /\ rects c = bar_rects F y k (firstn (S n) rest)
      /\ (forall j, (j <= n)%nat ->
            (JS.of_nat (k + j) <? graphSegments_X (_options (frame_this F)))
            = true).
Proof.
  induction rest as [| e rest IH]; intros k c H; cbn [bars_run] in H;
    [discriminate |].
  destruct (_ <? _) eqn:Hc; [| discriminate].
  destruct (format_number _ _) as [s |].
  - destruct (bars_run F y (S k) rest) as [c1 | c1] eqn:Hr; [discriminate |].
    assert (Hc' : c = (bar_calls F y (JS.of_nat k) e s ++ c1)%list)
      by (cbn [prepend] in H; congruence).
    clear H. subst c.
    destruct (IH _ _ Hr) as (n & Hn & Hrects & Hall).
    exists (S n). cbn [List.length]. split; [lia |]. split.
    + rewrite rects_app, rects_bar_calls, Hrects. reflexivity.
    + intros [| j] Hj.
      * now rewrite Nat.add_0_r.
      * replace (k + S j)%nat with (S k + j)%nat by lia. apply Hall. lia.
  - inversion H. exists 0%nat. cbn [List.length]. split; [lia |]. split.
    + reflexivity.
    + intros j Hj. replace j with 0%nat by lia. now rewrite Nat.add_0_r.
Qed.

(** The rectangles of a [draw()] that throws: those of its bar loop,
    whether it ran to its end or was cut short. *)
Lemma draw_rects_thrown (fuel : nat) (w w' : World) (e : Error) :
  (Z.of_nat (List.length (_entries (this w))) < 2 ^ 53)%Z ->
  draw fuel w = Throws e w' ->
  rects (emitted w w')
  = rects (run_calls (bars_run (frame_of w) (yMax_of w) 0 (_entries (this w)))).
Proof.
  intros Hlen Hd.
  destruct (draw_runs fuel w Hlen) as [E | (m & n & E)]; rewrite E in Hd;
    [discriminate |].
  unfold draw_bars_run in Hd. cbn [frame_of frame_this] in Hd.
  fold (yMax_of w) in Hd.
  destruct (bars_run (frame_of w) (yMax_of w) 0 (_entries (this w)))
    as [c | c]; cbn [prepend run_calls] in *.
  - pose proof (no_rect_tick_runs (frame_of (derive_world w)) m n) as Ht.
    match type of Hd with
    | outcome_of tt ?r ?w0 = _ =>
        pose proof (emitted_outcome tt r w w0 eq_refl) as He
    end.
    rewrite Hd in He. rewrite He, run_calls_prepend.
    change (background_call (this w) :: ?l)%list
      with ([background_call (this w)] ++ l)%list.
    rewrite !rects_app, rects_outline, (rects_no_rect _ Ht).
    cbn. now rewrite !app_nil_r.
  - injection Hd as _ <-. rewrite emitted_push. reflexivity.
Qed.

(** C4 (amended): with a whole number [N] of slots, a [draw()] that
    returns has painted exactly [min N length] bars, those of the
    first entries of the store in order: entries at an index from [N]
    on are never painted and no bar is painted for a slot the store has
    no entry for.  A [draw()] that throws has painted the bars of a
    leading part of those entries. *)
Theorem draw_paints_min_slots_entries (N fuel : nat) (w : World)
    (Hlen : (Z.of_nat (List.length (_entries (this w))) < 2 ^ 53)%Z)
    (HN : (Z.of_nat N < 2 ^ 53)%Z)
    (HgX : graphSegments_X (_options (this w)) = JS.of_nat N) :
  let shown := Nat.min N (List.length (_entries (this w))) in
  match draw fuel w with
  | Returns _ w' =>
      rects (emitted w w')
      = bar_rects (frame_of w) (yMax_of w) 0 (firstn shown (_entries (this w)))
      /\ List.length (rects (emitted w w')) = shown
  | Throws _ w' =>
      exists k,
        (k <= shown)%nat
        /\ rects (emitted w w')
           = bar_rects (frame_of w) (yMax_of w) 0 (firstn k (_entries (this w)))
        /\ List.length (rects (emitted w w')) = k
  | OutOfFuel => True
  end.
Proof.
  intros shown.
  assert (Hcount : forall k,
            (k <= List.length (_entries (this w)))%nat ->
            List.length (bar_rects (frame_of w) (yMax_of w) 0
                           (firstn k (_entries (this w)))) = k).
  { intros k Hk. unfold bar_rects.
    rewrite length_map, length_combine, length_seq, length_firstn. lia. }
  destruct (draw fuel w) as [[] w' | e w' |] eqn:Hd; [| | exact I].
  - destruct (draw_rects fuel w w' Hlen Hd) as (c & Hc & ->).
    destruct (bars_run_done _ _ _ _ _ Hc) as (n & Hn & Hr & Hlt & Hge).
    cbn [frame_of frame_this Nat.add] in Hlt, Hge. rewrite HgX in Hlt, Hge.
    assert (HnN : (n <= N)%nat).
    { destruct n as [| n]; [lia |].
      specialize (Hlt n (Nat.lt_succ_diag_r n)).
      rewrite ltb_of_nat in Hlt by lia. apply Nat.ltb_lt in Hlt. lia. }
    assert (Hshown : n = shown).
    { unfold shown.
      destruct (Nat.lt_ge_cases n (List.length (_entries (this w)))) as [H | H].
      - specialize (Hge H). rewrite ltb_of_nat in Hge by lia.
        apply Nat.ltb_ge in Hge. lia.
      - lia. }
    subst n. rewrite Hr. split; [reflexivity |]. apply Hcount. unfold shown. lia.
  - rewrite (draw_rects_thrown fuel w w' e Hlen Hd).
    destruct (bars_run (frame_of w) (yMax_of w) 0 (_entries (this w)))
      as [c | c] eqn:Hc; cbn [run_calls].
    + destruct (bars_run_done _ _ _ _ _ Hc) as (n & Hn & Hr & Hlt & Hge).
      cbn [frame_of frame_this Nat.add] in Hlt. rewrite HgX in Hlt.
      exists n. rewrite Hr. split; [| split; [reflexivity | now apply Hcount]].
      unfold shown. destruct n as [| n]; [lia |].
      specialize (Hlt n (Nat.lt_succ_diag_r n)).
      rewrite ltb_of_nat in Hlt by lia. apply Nat.ltb_lt in Hlt. lia.
    + destruct (bars_run_thrown _ _ _ _ _ Hc) as (n & Hn & Hr & Hlt).
      cbn [frame_of frame_this Nat.add] in Hlt. rewrite HgX in Hlt.
      specialize (Hlt n (Nat.le_refl n)).
      rewrite ltb_of_nat in Hlt by lia. apply Nat.ltb_lt in Hlt.
      exists (S n). rewrite Hr.
      split; [unfold shown; lia |]. split; [reflexivity |].
      apply Hcount. lia.
Qed.

Lemma draw_paints_min_slots_entries_witness :
  let w := sample_chart 10 5 2 [50; 12.5; 75; 20; 30; 60; 70; 80] in
  let w' := after [Draw 20] w in
  (Z.of_nat (List.length (_entries (this w))) < 2 ^ 53)%Z
  /\ (Z.of_nat 5 < 2 ^ 53)%Z
  /\ graphSegments_X (_options (this w)) = JS.of_nat 5
  /\ draw 20 w = Returns tt w'
  /\ rects (emitted w w')
     = bar_rects (frame_of w) (yMax_of w) 0 (firstn 5 (_entries (this w)))
  /\ List.length (rects (emitted w w')) = 5%nat.
Proof.
  intros w w'.
  assert (H1 : (Z.of_nat (List.length (_entries (this w))) < 2 ^ 53)%Z)
    by (vm_compute; reflexivity).
  assert (H2 : (Z.of_nat 5 < 2 ^ 53)%Z) by (vm_compute; reflexivity).
  assert (H3 : graphSegments_X (_options (this w)) = JS.of_nat 5)
    by (vm_compute; reflexivity).
  assert (H4 : draw 20 w = Returns tt w') by (vm_compute; reflexivity).
  pose proof (draw_paints_min_slots_entries 5 20 w H1 H2 H3) as H.
  cbv zeta in H. rewrite H4 in H.
  change (Nat.min 5 (List.length (_entries (this w)))) with 5%nat in H.
  split; [exact H1 |]. split; [exact H2 |]. split; [exact H3 |].
  split; [exact H4 |]. exact H.
Defined.

(** C4, as the claim words it, fails in two ways.  The count is not
    [min(graphSegments_X, entries.length)] for a slot count that is not
    whole: with 2.5 slots and five entries three bars are painted, for
    the slots 0, 1 and 2.  And it is not reached when the bar loop
    throws: with ten slots, two entries and the precision 101, [draw()]
    paints the bar of the value 12.5 and throws before the second. *)
Lemma bars_not_always_min_slots_entries :
  (let w := sample_chart 10 2.5 2 [50; 12.5; 75; 20; 30] in
   exists w',
     draw 20 w = Returns tt w'
     /\ List.length (_entries (this w)) = 5%nat
     /\ List.length (rects (emitted w w')) = 3%nat)
  /\ (let w := sample_chart 10 10 101 [12.5; 50] in
      exists w',
        draw 20 w = Throws RangeError w'
        /\ Nat.min 10 (List.length (_entries (this w))) = 2%nat
        /\ List.length (rects (emitted w w')) = 1%nat).
Proof.
  split.
  - intros w. exists (after [Draw 20] w).
    split; [vm_compute; reflexivity |].
    split; vm_compute; reflexivity.
  - intros w. exists (after [Draw 20] w).
    split; [vm_compute; reflexivity |].
    split; vm_compute; reflexivity.
Qed.

(** ** The ticks of the x axis *)

Lemma passes_concat (pass : nat -> Run) (n : nat) :
  (forall k, exists c, pass k = Done c) ->
  forall k,
    passes pass k n
    = Done (List.concat (map (fun j => run_calls (pass j)) (seq k n))).
Proof.
  intros Hpass. induction n as [| n IH]; intros k; cbn [passes seq map List.concat];
    [reflexivity |].
  destruct (Hpass k) as (c & Hc). rewrite Hc, IH. reflexivity.
Qed.

(** ** The height of a bar *)

Lemma sub_zero (x : number) : x - 0 = x.
Proof.
  apply Prim2SF_inj. rewrite FloatAxioms.sub_spec.
  change (Prim2SF 0) with (S754_zero false).
  destruct (Prim2SF x) as [[|] | [|] | | s m e]; reflexivity.
Qed.

Lemma bar_height_quotient (v y span : number) :
  bar_height v y span = v / y * span.
Proof. unfold bar_height, Utils.normalize. now rewrite !sub_zero. Qed.

(* ================================================================== *)
(** * The formatting rule                                            *)
(* ================================================================== *)

(** ** The shape of a formatted number *)





Lemma substring_split (s : string) :
  forall n,
    (n <= String.length s)%nat ->
    s = substring 0 n s ++ substring n (String.length s - n) s.
Proof.
  induction s as [| c s IH]; intros n H; cbn in H.
  - destruct n; [reflexivity | lia].
  - destruct n as [| n].
    + cbn. f_equal.
      clear. induction s as [| c s IH]; [reflexivity |]. cbn. now f_equal.
    + cbn [substring String.length Nat.sub append]. f_equal. apply IH. lia.
Qed.




















(* ================================================================== *)
(** * The first frame, completed or not                              *)
(* ================================================================== *)

Lemma leading_slots_exist (gX : number) (len : nat) :
  exists n, leading_slots gX len n.
Proof.
  induction len as [| len (n & Hn & Hlt & Hge)].
  - exists 0%nat. repeat split; intros; lia.
  - destruct (Nat.eq_dec n len) as [-> | Hne].
    + destruct (JS.of_nat len <? gX) eqn:Ht.
      * exists (S len). repeat split; [lia | | lia].
        intros j Hj. destruct (Nat.eq_dec j len) as [-> | H]; [exact Ht |].
        apply Hlt. lia.
      * exists len. repeat split; [lia | exact Hlt | now intros _].
    + exists n. repeat split; [lia | exact Hlt |].
      intros _. apply Hge. lia.
Qed.

(** The rectangles of a [draw()] that throws are the bars of a leading
    part of the leading slots. *)
Lemma draw_leading_thrown (fuel : nat) (w w' : World) (e : Error) (n : nat) :
  (Z.of_nat (List.length (_entries (this w))) < 2 ^ 53)%Z ->
  leading_slots (graphSegments_X (_options (this w)))
    (List.length (_entries (this w))) n ->
  draw fuel w = Throws e w' ->
  exists k,
    (k <= n)%nat
    /\ rects (emitted w w')
       = bar_rects (frame_of w) (yMax_of w) 0 (firstn k (_entries (this w))).
Proof.
  intros Hlen Hn Hd.
  rewrite (draw_rects_thrown fuel w w' e Hlen Hd).
  destruct (bars_run (frame_of w) (yMax_of w) 0 (_entries (this w)))
    as [c | c] eqn:Hc; cbn [run_calls].
  - destruct (bars_run_done _ _ _ _ _ Hc) as (k & Hk & Hr & Hlt & Hge).
    cbn [frame_of frame_this Nat.add] in Hlt, Hge.
    exists k. split; [| exact Hr].
    assert (k = n); [| lia].
    eapply leading_slots_unique; [| exact Hn]. exact (conj Hk (conj Hlt Hge)).
  - destruct (bars_run_thrown _ _ _ _ _ Hc) as (k & Hk & Hr & Hlt).
    cbn [frame_of frame_this Nat.add] in Hlt.
    exists (S k). split; [| exact Hr].
    destruct Hn as (_ & _ & Hge).
    destruct (Nat.lt_ge_cases k n) as [H | H]; [lia |].
    assert (Hf : (JS.of_nat n <? graphSegments_X (_options (this w))) = false)
      by (apply Hge; lia).
    rewrite (Hlt n H) in Hf. discriminate.
Qed.



(* ================================================================== *)
(** * Heights and ticks, in full                                     *)
(* ================================================================== *)

(** ** The height of a bar, in full *)

(** C3 (amended): a chart that has created the drawing surface and was
    configured with an axis maximum [yMax] other than the sentinel -1
    paints each bar with the height
    [(val / yMax) * ((height / graphSegments_Y) * (graphSegments_Y - 2))],
    every operation being one of binary64: in every [draw()],
    whatever was added and drawn before and whether those calls and
    this one return or throw, the rectangles are the bars of the first
    [k] entries at these heights, and a [draw()] that returns has
    painted those of all the leading slots. *)
Theorem bar_height_is_value_over_yMax_times_span
    (config : option Partial.GraphOptions) (cv : CanvasInstance)
    (log : list LogEntry) (ops : list Op) (fuel : nat) (w w1 : World)
    (Hset : (yMax (resolve config) =? -1) = false)
    (Hfresh : Canvas.ready cv = false)
    (Hops : ends_in (run ops (constructor config cv log)) w)
    (Hlen : (Z.of_nat (List.length (_entries (this w))) < 2 ^ 53)%Z)
    (Hdraw : ends_in (draw fuel w) w1) :
  let o := resolve config in
  exists n k,
    leading_slots (graphSegments_X o) (List.length (_entries (this w))) n
    /\ (k <= n)%nat
    /\ (draw fuel w = Returns tt w1 -> k = n)
    /\ map rect_height (rects (emitted w w1))
       = map (fun e =>
                Some (val e / yMax o
                      * (height o / graphSegments_Y o
                         * (graphSegments_Y o - 2))))
           (firstn k (_entries (this w))).
Proof.
  intros o.
  set (P := fun w0 : World =>
              _options (this w0) = o /\ HEIGHT (canvas w0) = height o).
  assert (H0 : P (constructor config cv log)).
  { unfold P. split; [apply constructor_options |].
    unfold constructor, Canvas.ready in *. rewrite Hfresh. cbn.
    destruct (verbose (resolve config)); reflexivity. }
  assert (Hk : keeps P (run ops)).
  { apply keeps_run; unfold P.
    - intros c w0 H. exact H.
    - intros w0 (Ho & HH). unfold derive_world. cbn [this canvas].
      rewrite derive_yMax_set; [now split |]. now rewrite Ho.
    - intros e w0 H. exact H. }
  specialize (Hk _ H0).
  assert (Hw : P w).
  { destruct Hops as [(x & E) | (e & E)]; rewrite E in Hk; exact Hk. }
  clear Hk. destruct Hw as (Ho & HH).
  assert (Hheights : forall k,
            map rect_height
              (bar_rects (frame_of w) (yMax_of w) 0
                 (firstn k (_entries (this w))))
            = map (fun e =>
                     Some (val e / yMax o
                           * (height o / graphSegments_Y o
                              * (graphSegments_Y o - 2))))
                (firstn k (_entries (this w)))).
  { intros k. rewrite bar_rects_heights.
    cbn [frame_of frame_this frame_HEIGHT]. unfold yMax_of. rewrite Ho, HH.
    apply map_ext. intros e. now rewrite bar_height_quotient. }
  destruct Hdraw as [([] & Hd) | (e & Hd)].
  - destruct (draw_leading fuel w w1 Hlen Hd) as (n & Hn & Hr).
    exists n, n. rewrite Ho in Hn. split; [exact Hn |].
    split; [lia |]. split; [reflexivity |].
    rewrite Hr. apply Hheights.
  - destruct (leading_slots_exist (graphSegments_X (_options (this w)))
                (List.length (_entries (this w)))) as (n & Hn).
    destruct (draw_leading_thrown fuel w w1 e n Hlen Hn Hd) as (k & Hk & Hr).
    exists n, k. rewrite Ho in Hn. split; [exact Hn |].
    split; [exact Hk |]. split; [rewrite Hd; discriminate |].
    rewrite Hr. apply Hheights.
Qed.

Lemma bar_height_is_value_over_yMax_times_span_witness :
  let config := Some (sized_options 240 200) in
  let w := after [Add (sample_entry 50); Add (sample_entry 100)]
             (constructor config Canvas.fresh []) in
  let w1 := after [Draw 20] w in
  (yMax (resolve config) =? -1) = false
  /\ Canvas.ready Canvas.fresh = false
  /\ ends_in (run [Add (sample_entry 50); Add (sample_entry 100)]
                (constructor config Canvas.fresh [])) w
  /\ (Z.of_nat (List.length (_entries (this w))) < 2 ^ 53)%Z
  /\ ends_in (draw 20 w) w1
  /\ (exists n k,
        leading_slots (graphSegments_X (resolve config))
          (List.length (_entries (this w))) n
        /\ (k <= n)%nat
        /\ (draw 20 w = Returns tt w1 -> k = n)
        /\ map rect_height (rects (emitted w w1))
           = map (fun e =>
                    Some (val e / yMax (resolve config)
                          * (height (resolve config)
                             / graphSegments_Y (resolve config)
                             * (graphSegments_Y (resolve config) - 2))))
               (firstn k (_entries (this w))))
  /\ draw 20 w = Returns tt w1
  /\ map rect_height (rects (emitted w w1)) = [Some 48; Some 96].
Proof.
  intros config w w1.
  assert (H1 : (yMax (resolve config) =? -1) = false)
    by (vm_compute; reflexivity).
  assert (H2 : Canvas.ready Canvas.fresh = false) by reflexivity.
  assert (H3 : ends_in (run [Add (sample_entry 50); Add (sample_entry 100)]
                          (constructor config Canvas.fresh [])) w).
  { left. exists tt. vm_compute; reflexivity. }
  assert (H4 : (Z.of_nat (List.length (_entries (this w))) < 2 ^ 53)%Z)
    by (vm_compute; reflexivity).
  assert (H5 : ends_in (draw 20 w) w1).
  { left. exists tt. vm_compute; reflexivity. }
  do 5 (split; [assumption |]).
  split; [apply (bar_height_is_value_over_yMax_times_span config Canvas.fresh []
                   [Add (sample_entry 50); Add (sample_entry 100)] 20 w w1
                   H1 H2 H3 H4 H5) |].
  split; vm_compute; reflexivity.
Defined.

(** C3, as the claim words it, fails in three ways.  The height that
    counts is the surface's, not the chart's own: a chart configured
    with the height 240 on a surface that an earlier chart created at
    480 paints the value 50 against the maximum 100 with the height
    192, not 96.  An axis maximum set to -1 is the sentinel: the bars
    of the second [draw()] are scaled by the derived maximum, 100, not
    by -1.  And the height is not linear in the value: in binary64 the
    quotient [val / yMax] can underflow, so that the smallest positive
    number gets the height 0 against the maximum 2 while its double
    gets a height above 0. *)
Lemma bar_height_formula_fails :
  (let first := after [Draw 20] default_chart in
   let w := after [Add (sample_entry 50)]
              (constructor (Some (sized_options 240 100))
                 (canvas first) (console first)) in
   exists w',
     draw 20 w = Returns tt w'
     /\ height (_options (this w)) = 240
     /\ map rect_height (rects (emitted w w')) = [Some 192]
     /\ 50 / 100 * (240 / 10 * (10 - 2)) = 96)
  /\ (let w := after [Add (sample_entry 50); Add (sample_entry 100); Draw 20]
                 (constructor (Some (sized_options 480 (-1))) Canvas.fresh []) in
      exists w',
        draw 20 w = Returns tt w'
        /\ map rect_height (rects (emitted w w')) = [Some 192; Some 384]
        /\ 50 / -1 * (480 / 10 * (10 - 2)) = -19200)
  /\ (let w := after [Add (sample_entry tiny); Add (sample_entry (2 * tiny))]
                 (constructor (Some (sized_options 480 2)) Canvas.fresh []) in
      exists w' h,
        draw 20 w = Returns tt w'
        /\ map rect_height (rects (emitted w w')) = [Some 0; Some h]
        /\ (h =? 2 * 0) = false).
Proof.
  split; [| split].
  - intros first w. exists (after [Draw 20] w).
    split; [vm_compute; reflexivity |].
    split; [reflexivity |].
    split; vm_compute; reflexivity.
  - intros w. exists (after [Draw 20] w).
    split; [vm_compute; reflexivity |].
    split; vm_compute; reflexivity.
  - intros w. exists (after [Draw 20] w), 0x1.8p-1066.
    split; [vm_compute; reflexivity |].
    split; vm_compute; reflexivity.
Qed.

(** ** The ticks of the x axis, for any segment count *)

Section CountersInFull.

Local Open Scope Z_scope.








End CountersInFull.







